(** * configService: settings, model quotas, category quotas and worker keys

    A shallow embedding of [src/services/configService.js].

    The service is a thin layer of asynchronous functions over three
    SQLite tables and one collaborator, [syncToGitHub].  The embedding
    follows the code function by function:

    - JavaScript values are an inductive type [JsValue]; strings are
      sequences of UTF-16 code units; numbers are [Number.t];
    - the platform functions the service calls ([typeof], [String],
      [Number], [Number.isInteger], [Math.floor], [JSON.stringify],
      [JSON.parse]) are defined after ECMA-262;
    - [async]/[await] code is sequential: a computation is a function
      from the world to an outcome (returned value or thrown error) and
      the next world; the world holds the three tables and the trace of
      storage statements and sync invocations. *)

From Stdlib Require Import ZArith NArith Bool Lia Ascii String List Permutation.
Import ListNotations.

(** ** Strings

    A JavaScript string is a sequence of 16-bit code units.  String
    literals of the source are written [str "..."]. *)

Definition JsStr := list N.

Fixpoint str (s : string) : JsStr :=
  match s with
  | EmptyString => []
  | String c rest => N_of_ascii c :: str rest
  end.
Arguments str s : simpl never.

Fixpoint JsStr_eqb (a b : JsStr) : bool :=
  match a, b with
  | [], [] => true
  | x :: a', y :: b' => N.eqb x y && JsStr_eqb a' b'
  | _, _ => false
  end.

(** The order of strings: code unit by code unit. *)
Fixpoint string_less (a b : JsStr) : bool :=
  match a, b with
  | _, [] => false
  | [], _ :: _ => true
  | x :: a', y :: b' => N.ltb x y || (N.eqb x y && string_less a' b')
  end.

(** Code units with a role in number and JSON syntax. *)
Definition QUOTE : N := 34.
Definition BACKSLASH : N := 92.
Definition is_digit (c : N) : bool := N.leb 48 c && N.leb c 57.
Definition digit_unit (d : N) : N := (48 + d)%N.
Definition digit_value (c : N) : N := (c - 48)%N.

(** ** Decimal digits *)

Fixpoint digits_fuel (fuel : nat) (n : N) : list N :=
  match fuel with
  | O => []
  | S fuel' =>
      if N.ltb n 10 then [n]
      else digits_fuel fuel' (n / 10)%N ++ [(n mod 10)%N]
  end.

(** The decimal digits of [n], most significant first, without leading
    zero ([0] is the single digit 0). *)
Definition digits (n : N) : list N :=
  digits_fuel (S (N.to_nat (N.log2 n))) n.

(** The number a digit sequence denotes. *)
Definition digits_value (ds : list N) : N :=
  fold_left (fun acc d => (acc * 10 + d)%N) ds 0%N.

Fixpoint drop_zeros (ds : list N) : list N :=
  match ds with
  | d :: rest => if N.eqb d 0 then drop_zeros rest else ds
  | [] => []
  end.

(** The digits without their trailing zeros. *)
Definition significand (ds : list N) : list N := rev (drop_zeros (rev ds)).

(** ** Numbers

    A Number is NaN, an infinity, or a finite value [m * 10^e].  Every
    finite double is such a decimal, and [Number::toString] identifies a
    double with its shortest decimal expansion, so the finite doubles are
    modelled by their decimal expansions.  The sign of zero, rounding to 53
    bits and overflow to an infinity are outside the model; none of the
    operations below ([<], [===], [Number.isInteger], [Math.floor]) rounds. *)
Module Number.

Inductive t : Type :=
| NaN
| Infinity (negative : bool)
| Finite (m e : Z).

Definition of_Z (z : Z) : t := Finite z 0.

(** [m * 10^e] as a multiple of [10^e0], for [e0 <= e]. *)
Definition scale (m e e0 : Z) : Z := (m * 10 ^ (e - e0))%Z.

Definition compare_finite (m1 e1 m2 e2 : Z) : comparison :=
  let e0 := Z.min e1 e2 in
  Z.compare (scale m1 e1 e0) (scale m2 e2 e0).

(** Number::equal, the [===] of two Numbers. *)
Definition equal (x y : t) : bool :=
  match x, y with
  | Finite m1 e1, Finite m2 e2 =>
      match compare_finite m1 e1 m2 e2 with Eq => true | _ => false end
  | Infinity a, Infinity b => Bool.eqb a b
  | _, _ => false
  end.

(** Number::lessThan, the [<] of two Numbers; false when either is NaN. *)
Definition lessThan (x y : t) : bool :=
  match x, y with
  | NaN, _ | _, NaN => false
  | Infinity a, Infinity b => a && negb b
  | Infinity a, Finite _ _ => a
  | Finite _ _, Infinity b => negb b
  | Finite m1 e1, Finite m2 e2 =>
      match compare_finite m1 e1 m2 e2 with Lt => true | _ => false end
  end.

Definition isFinite (x : t) : bool :=
  match x with Finite _ _ => true | _ => false end.

(** [Number.isInteger] on a Number. *)
Definition isInteger (x : t) : bool :=
  match x with
  | Finite m e => Z.leb 0 e || Z.eqb (m mod 10 ^ (- e))%Z 0
  | _ => false
  end.

(** [Math.floor] on a Number. *)
Definition floor (x : t) : t :=
  match x with
  | Finite m e => if Z.leb 0 e then Finite m e else Finite (m / 10 ^ (- e))%Z 0
  | _ => x
  end.

Definition exponent_part (ex : Z) : JsStr :=
  (if Z.ltb ex 0 then str "-" else str "+")
    ++ map digit_unit (digits (Z.abs_N ex)).

(** The digits [s] of a positive value [s * 10^(n - k)], [k] the number
    of digits, as Number::toString writes them (ECMA-262 6.1.6.1.20,
    steps 6 to 10). *)
Definition format (s : list N) (n : Z) : JsStr :=
  let k := Z.of_nat (length s) in
  if Z.leb k n && Z.leb n 21 then
    map digit_unit s ++ repeat 48%N (Z.to_nat (n - k))
  else if Z.ltb 0 n && Z.leb n 21 then
    map digit_unit (firstn (Z.to_nat n) s)
      ++ str "." ++ map digit_unit (skipn (Z.to_nat n) s)
  else if Z.ltb (-6) n && Z.leb n 0 then
    str "0." ++ repeat 48%N (Z.to_nat (- n)) ++ map digit_unit s
  else
    match s with
    | [] => []
    | [d] => digit_unit d :: str "e" ++ exponent_part (n - 1)
    | d :: more =>
        digit_unit d :: str "." ++ map digit_unit more
          ++ str "e" ++ exponent_part (n - 1)
    end.

(** Number::toString with radix 10: the significant digits are those of
    the mantissa without its trailing zeros. *)
Definition toString (x : t) : JsStr :=
  match x with
  | NaN => str "NaN"
  | Infinity negative => if negative then str "-Infinity" else str "Infinity"
  | Finite m e =>
      if Z.eqb m 0 then str "0" else
      let ds := digits (Z.abs_N m) in
      let s := significand ds in
      (if Z.ltb m 0 then str "-" else [])
      ++ format s (Z.of_nat (length s)
                   + (e + Z.of_nat (length ds - length s)))
  end.

End Number.

(** ** Values

    The values the service handles: primitives, arrays and plain objects.
    An object is the list of its own properties, a well-formed object has no
    repeated key.  JavaScript enumerates integer-like keys first; that
    reordering is not modelled, and the service reads properties by name
    only. *)
#[local] Unset Elimination Schemes.
Inductive JsValue : Type :=
| JsUndefined
| JsNull
| JsBoolean (b : bool)
| JsNumber (n : Number.t)
| JsString (s : JsStr)
| JsArray (items : list JsValue)
| JsObject (props : list (JsStr * JsValue)).
#[local] Set Elimination Schemes.

(** Induction on values, with the property of every element of an array and
    of every property value of an object. *)
Fixpoint JsValue_induction (Q : JsValue -> Prop)
  (Hundefined : Q JsUndefined) (Hnull : Q JsNull)
  (Hboolean : forall b, Q (JsBoolean b))
  (Hnumber : forall n, Q (JsNumber n))
  (Hstring : forall s, Q (JsString s))
  (Harray : forall items, Forall Q items -> Q (JsArray items))
  (Hobject : forall props, Forall (fun kv => Q (snd kv)) props -> Q (JsObject props))
  (v : JsValue) {struct v} : Q v :=
  match v with
  | JsUndefined => Hundefined
  | JsNull => Hnull
  | JsBoolean b => Hboolean b
  | JsNumber n => Hnumber n
  | JsString s => Hstring s
  | JsArray items =>
      Harray items
        ((fix all (l : list JsValue) : Forall Q l :=
            match l with
            | [] => Forall_nil Q
            | x :: l' =>
                Forall_cons x
                  (JsValue_induction Q Hundefined Hnull Hboolean Hnumber
                     Hstring Harray Hobject x)
                  (all l')
            end) items)
  | JsObject props =>
      Hobject props
        ((fix all (l : list (JsStr * JsValue))
            : Forall (fun kv => Q (snd kv)) l :=
            match l with
            | [] => Forall_nil _
            | kv :: l' =>
                Forall_cons kv
                  (match kv as p return Q (snd p) with
                   | (k, x) =>
                       JsValue_induction Q Hundefined Hnull Hboolean Hnumber
                         Hstring Harray Hobject x
                   end)
                  (all l')
            end) props)
  end.

Definition num (z : Z) : JsValue := JsNumber (Number.of_Z z).

(** The [typeof] operator. *)
Definition typeof (v : JsValue) : JsStr :=
  match v with
  | JsUndefined => str "undefined"
  | JsNull => str "object"
  | JsBoolean _ => str "boolean"
  | JsNumber _ => str "number"
  | JsString _ => str "string"
  | JsArray _ => str "object"
  | JsObject _ => str "object"
  end.

Definition is_undefined (v : JsValue) : bool :=
  match v with JsUndefined => true | _ => false end.

Definition is_null (v : JsValue) : bool :=
  match v with JsNull => true | _ => false end.

(** [v === n] for a Number [n]. *)
Definition strict_equals_number (v : JsValue) (n : Number.t) : bool :=
  match v with JsNumber x => Number.equal x n | _ => false end.

(** ToBoolean (ECMA-262 7.1.2). *)
Definition ToBoolean (v : JsValue) : bool :=
  match v with
  | JsUndefined | JsNull => false
  | JsBoolean b => b
  | JsNumber Number.NaN => false
  | JsNumber (Number.Finite m _) => negb (Z.eqb m 0)
  | JsNumber (Number.Infinity _) => true
  | JsString s => match s with [] => false | _ => true end
  | JsArray _ | JsObject _ => true
  end.

Fixpoint join (sep : JsStr) (parts : list JsStr) : JsStr :=
  match parts with
  | [] => []
  | [p] => p
  | p :: more => p ++ sep ++ join sep more
  end.

(** ToString (ECMA-262 7.1.17), the [String(value)] of the source.  An array
    is joined with commas, [null] and [undefined] elements as the empty
    string; a plain object is "[object Object]". *)
Fixpoint ToString (v : JsValue) : JsStr :=
  match v with
  | JsUndefined => str "undefined"
  | JsNull => str "null"
  | JsBoolean b => if b then str "true" else str "false"
  | JsNumber n => Number.toString n
  | JsString s => s
  | JsArray items =>
      join (str ",")
        (map (fun x => match x with
                       | JsUndefined | JsNull => []
                       | _ => ToString x
                       end) items)
  | JsObject _ => str "[object Object]"
  end.

Fixpoint lookup (k : JsStr) (props : list (JsStr * JsValue)) : option JsValue :=
  match props with
  | [] => None
  | (k', v) :: rest => if JsStr_eqb k' k then Some v else lookup k rest
  end.

(** A canonical array index: decimal digits without leading zero. *)
Definition array_index (p : JsStr) : option nat :=
  match p with
  | [] => None
  | c :: rest =>
      if forallb is_digit p
         && (negb (N.eqb c 48) || match rest with [] => true | _ => false end)
      then Some (N.to_nat (digits_value (map digit_value p)))
      else None
  end.

(** [v?.p]: the property [p] of [v], [undefined] when [v] is [null] or
    [undefined] or has no such property. *)
Definition optional_member (v : JsValue) (p : JsStr) : JsValue :=
  match v with
  | JsObject props =>
      match lookup p props with Some x => x | None => JsUndefined end
  | JsArray items =>
      if JsStr_eqb p (str "length") then num (Z.of_nat (length items))
      else match array_index p with
           | Some i => nth i items JsUndefined
           | None => JsUndefined
           end
  | JsString s =>
      if JsStr_eqb p (str "length") then num (Z.of_nat (length s))
      else match array_index p with
           | Some i => match nth_error s i with
                       | Some c => JsString [c]
                       | None => JsUndefined
                       end
           | None => JsUndefined
           end
  | _ => JsUndefined
  end.

(** [obj[k] = v] on the properties of an object: a present key keeps its
    place and takes the new value, a new key is added last. *)
Fixpoint set_prop (props : list (JsStr * JsValue)) (k : JsStr) (v : JsValue)
  : list (JsStr * JsValue) :=
  match props with
  | [] => [(k, v)]
  | (k', v') :: rest =>
      if JsStr_eqb k' k then (k', v) :: rest else (k', v') :: set_prop rest k v
  end.

(** [x ?? d]. *)
Definition nullish_or (x d : JsValue) : JsValue :=
  match x with JsUndefined | JsNull => d | _ => x end.

(** Deep equality: primitives by [===], arrays element by element, objects
    by their key sets and the values under each key. *)
Fixpoint deep_equal (a b : JsValue) : bool :=
  match a, b with
  | JsUndefined, JsUndefined => true
  | JsNull, JsNull => true
  | JsBoolean x, JsBoolean y => Bool.eqb x y
  | JsNumber x, JsNumber y => Number.equal x y
  | JsString x, JsString y => JsStr_eqb x y
  | JsArray xs, JsArray ys =>
      (fix all2 (xs : list JsValue) (ys : list JsValue) : bool :=
         match xs, ys with
         | [], [] => true
         | x :: xs', y :: ys' => deep_equal x y && all2 xs' ys'
         | _, _ => false
         end) xs ys
  | JsObject ps, JsObject qs =>
      Nat.eqb (length ps) (length qs)
      && forallb (fun kv => match lookup (fst kv) qs with
                            | Some y => deep_equal (snd kv) y
                            | None => false
                            end) ps
  | _, _ => false
  end.

Fixpoint distinct (ks : list JsStr) : bool :=
  match ks with
  | [] => true
  | k :: rest => negb (existsb (JsStr_eqb k) rest) && distinct rest
  end.

(** The values JSON text can represent: [null], booleans, finite Numbers,
    strings, and arrays and objects of such values. *)
Fixpoint json_value (v : JsValue) : bool :=
  match v with
  | JsUndefined => false
  | JsNull | JsBoolean _ | JsString _ => true
  | JsNumber n => Number.isFinite n
  | JsArray items => forallb json_value items
  | JsObject props =>
      distinct (map fst props)
      && forallb (fun kv => json_value (snd kv)) props
  end.

(** ** JSON

    [JSON.stringify] and [JSON.parse] after ECMA-262 25.5, on the values
    above and without the optional replacer, indentation and reviver. *)
Module JSON.

Definition cu (c : ascii) : N := N_of_ascii c.

Definition hex_digit (n : N) : N :=
  if N.ltb n 10 then (48 + n)%N else (87 + n)%N.

(** UnicodeEscape: backslash, [u] and four lowercase hexadecimal digits. *)
Definition UnicodeEscape (c : N) : JsStr :=
  [BACKSLASH; cu "u";
   hex_digit ((c / 4096) mod 16)%N; hex_digit ((c / 256) mod 16)%N;
   hex_digit ((c / 16) mod 16)%N; hex_digit (c mod 16)%N].

Definition is_high_surrogate (c : N) : bool := N.leb 55296 c && N.leb c 56319.
Definition is_low_surrogate (c : N) : bool := N.leb 56320 c && N.leb c 57343.

Definition quote_unit (c : N) : JsStr :=
  if N.eqb c 8 then [BACKSLASH; cu "b"]
  else if N.eqb c 9 then [BACKSLASH; cu "t"]
  else if N.eqb c 10 then [BACKSLASH; cu "n"]
  else if N.eqb c 12 then [BACKSLASH; cu "f"]
  else if N.eqb c 13 then [BACKSLASH; cu "r"]
  else if N.eqb c QUOTE then [BACKSLASH; QUOTE]
  else if N.eqb c BACKSLASH then [BACKSLASH; BACKSLASH]
  else if N.ltb c 32 || is_high_surrogate c || is_low_surrogate c
       then UnicodeEscape c
  else [c].

(** The escaped code units of a string: a surrogate pair stands for one
    code point and is copied, a lone surrogate is escaped. *)
Fixpoint quote_units (s : JsStr) : JsStr :=
  match s with
  | [] => []
  | c :: rest =>
      match rest with
      | d :: rest' =>
          if is_high_surrogate c && is_low_surrogate d
          then c :: d :: quote_units rest'
          else quote_unit c ++ quote_units rest
      | [] => quote_unit c
      end
  end.

Definition QuoteJSONString (s : JsStr) : JsStr :=
  QUOTE :: quote_units s ++ [QUOTE].

(** SerializeJSONProperty; [None] is the result [undefined]. *)
Fixpoint SerializeJSONProperty (v : JsValue) : option JsStr :=
  match v with
  | JsUndefined => None
  | JsNull => Some (str "null")
  | JsBoolean b => Some (if b then str "true" else str "false")
  | JsNumber n =>
      Some (if Number.isFinite n then Number.toString n else str "null")
  | JsString s => Some (QuoteJSONString s)
  | JsArray items =>
      Some (cu "[" ::
            join (str ",")
              (map (fun x => match SerializeJSONProperty x with
                             | Some t => t
                             | None => str "null"
                             end) items)
            ++ [cu "]"])
  | JsObject props =>
      Some (cu "{" ::
            join (str ",")
              (flat_map (fun kv => match SerializeJSONProperty (snd kv) with
                                   | Some t =>
                                       [QuoteJSONString (fst kv) ++ cu ":" :: t]
                                   | None => []
                                   end) props)
            ++ [cu "}"])
  end.

Definition stringify (v : JsValue) : option JsStr := SerializeJSONProperty v.

(** *** Parsing *)

Definition is_ws (c : N) : bool :=
  N.eqb c 9 || N.eqb c 10 || N.eqb c 13 || N.eqb c 32.

Fixpoint skip_ws (input : JsStr) : JsStr :=
  match input with
  | c :: rest => if is_ws c then skip_ws rest else input
  | [] => []
  end.

(** The input after the literal [lit], when it starts with it. *)
Fixpoint expect (lit input : JsStr) : option JsStr :=
  match lit, input with
  | [], _ => Some input
  | l :: lit', c :: input' => if N.eqb l c then expect lit' input' else None
  | _ :: _, [] => None
  end.

Definition hex_value (c : N) : option N :=
  if is_digit c then Some (c - 48)%N
  else if N.leb 97 c && N.leb c 102 then Some (c - 87)%N
  else if N.leb 65 c && N.leb c 70 then Some (c - 55)%N
  else None.

Definition unescape (c : N) : option N :=
  if N.eqb c QUOTE then Some QUOTE
  else if N.eqb c BACKSLASH then Some BACKSLASH
  else if N.eqb c (cu "/") then Some (cu "/")
  else if N.eqb c (cu "b") then Some 8%N
  else if N.eqb c (cu "f") then Some 12%N
  else if N.eqb c (cu "n") then Some 10%N
  else if N.eqb c (cu "r") then Some 13%N
  else if N.eqb c (cu "t") then Some 9%N
  else None.

(** The characters of a JSON string, after its opening quote, up to the
    closing quote. *)
Fixpoint parse_string_chars (input : JsStr) : option (JsStr * JsStr) :=
  match input with
  | [] => None
  | c :: rest =>
      if N.eqb c QUOTE then Some ([], rest)
      else if N.eqb c BACKSLASH then
        match rest with
        | [] => None
        | e :: rest1 =>
            if N.eqb e (cu "u") then
              match rest1 with
              | h1 :: h2 :: h3 :: h4 :: rest2 =>
                  match hex_value h1, hex_value h2, hex_value h3, hex_value h4 with
                  | Some a, Some b, Some c', Some d =>
                      match parse_string_chars rest2 with
                      | Some (s, r) =>
                          Some ((((a * 16 + b) * 16 + c') * 16 + d)%N :: s, r)
                      | None => None
                      end
                  | _, _, _, _ => None
                  end
              | _ => None
              end
            else
              match unescape e with
              | Some u =>
                  match parse_string_chars rest1 with
                  | Some (s, r) => Some (u :: s, r)
                  | None => None
                  end
              | None => None
              end
        end
      else if N.ltb c 32 then None
      else
        match parse_string_chars rest with
        | Some (s, r) => Some (c :: s, r)
        | None => None
        end
  end.

(** The longest prefix of decimal digits, as digit values. *)
Fixpoint span_digits (input : JsStr) : list N * JsStr :=
  match input with
  | c :: rest =>
      if is_digit c
      then let (ds, r) := span_digits rest in (digit_value c :: ds, r)
      else ([], input)
  | [] => ([], [])
  end.

(** The integer part of a JSON number: one digit, or several that do not
    start with 0. *)
Definition valid_int (ds : list N) : bool :=
  match ds with
  | [] => false
  | [_] => true
  | d :: _ => negb (N.eqb d 0)
  end.

Definition is_nil {A} (l : list A) : bool :=
  match l with [] => true | _ => false end.

Definition parse_exponent (input : JsStr) : option (Z * JsStr) :=
  match input with
  | c :: rest =>
      if N.eqb c (cu "e") || N.eqb c (cu "E") then
        let (negative, rest1) :=
          match rest with
          | s :: rest' =>
              if N.eqb s (cu "-") then (true, rest')
              else if N.eqb s (cu "+") then (false, rest')
              else (false, rest)
          | [] => (false, rest)
          end in
        let (ds, rest2) := span_digits rest1 in
        if is_nil ds then None
        else
          let x := Z.of_N (digits_value ds) in
          Some (if negative then (- x)%Z else x, rest2)
      else Some (0%Z, input)
  | [] => Some (0%Z, input)
  end.

Definition parse_fraction (input : JsStr) : option (list N * JsStr) :=
  match input with
  | c :: rest =>
      if N.eqb c (cu ".") then
        let (ds, rest1) := span_digits rest in
        if is_nil ds then None else Some (ds, rest1)
      else Some ([], input)
  | [] => Some ([], input)
  end.

(** The digits of a JSON number: the mantissa they denote, and the
    written exponent less the number of fraction digits. *)
Definition parse_decimal (input : JsStr) : option (N * Z * JsStr) :=
  let (int_ds, input2) := span_digits input in
  if valid_int int_ds then
    match parse_fraction input2 with
    | Some (frac_ds, input3) =>
        match parse_exponent input3 with
        | Some (ex, input4) =>
            Some (digits_value (int_ds ++ frac_ds),
                  (ex - Z.of_nat (length frac_ds))%Z, input4)
        | None => None
        end
    | None => None
    end
  else None.

Definition parse_number (input : JsStr) : option (Number.t * JsStr) :=
  let (negative, input1) :=
    match input with
    | c :: rest => if N.eqb c (cu "-") then (true, rest) else (false, input)
    | [] => (false, input)
    end in
  match parse_decimal input1 with
  | Some (m, e, rest) =>
      Some (Number.Finite (if negative then (- Z.of_N m)%Z else Z.of_N m) e, rest)
  | None => None
  end.

Definition define_props (members : list (JsStr * JsValue))
  : list (JsStr * JsValue) :=
  fold_left (fun acc kv => set_prop acc (fst kv) (snd kv)) members [].

Definition with_value {A} (r : option JsStr) (v : A) : option (A * JsStr) :=
  match r with Some rest => Some (v, rest) | None => None end.

(** One JSON value at the head of the input, after optional white space.
    [parse_elements] reads the elements of an array after its bracket,
    [parse_members] the members of an object after its brace. *)
Fixpoint parse_value (fuel : nat) (input : JsStr) {struct fuel}
  : option (JsValue * JsStr) :=
  match fuel with
  | O => None
  | S fuel' =>
      match skip_ws input with
      | [] => None
      | c :: rest =>
          if N.eqb c (cu "n") then with_value (expect (str "ull") rest) JsNull
          else if N.eqb c (cu "t") then
            with_value (expect (str "rue") rest) (JsBoolean true)
          else if N.eqb c (cu "f") then
            with_value (expect (str "alse") rest) (JsBoolean false)
          else if N.eqb c QUOTE then
            match parse_string_chars rest with
            | Some (s, r) => Some (JsString s, r)
            | None => None
            end
          else if N.eqb c (cu "[") then
            match skip_ws rest with
            | [] => None
            | d :: rest' =>
                if N.eqb d (cu "]") then Some (JsArray [], rest')
                else
                  match parse_elements fuel' (d :: rest') with
                  | Some (items, r) => Some (JsArray items, r)
                  | None => None
                  end
            end
          else if N.eqb c (cu "{") then
            match skip_ws rest with
            | [] => None
            | d :: rest' =>
                if N.eqb d (cu "}") then Some (JsObject [], rest')
                else
                  match parse_members fuel' (d :: rest') with
                  | Some (members, r) => Some (JsObject (define_props members), r)
                  | None => None
                  end
            end
          else if N.eqb c (cu "-") || is_digit c then
            match parse_number (c :: rest) with
            | Some (n, r) => Some (JsNumber n, r)
            | None => None
            end
          else None
      end
  end

with parse_elements (fuel : nat) (input : JsStr) {struct fuel}
  : option (list JsValue * JsStr) :=
  match fuel with
  | O => None
  | S fuel' =>
      match parse_value fuel' input with
      | Some (v, rest) =>
          match skip_ws rest with
          | [] => None
          | c :: rest' =>
              if N.eqb c (cu ",") then
                match parse_elements fuel' rest' with
                | Some (vs, r) => Some (v :: vs, r)
                | None => None
                end
              else if N.eqb c (cu "]") then Some ([v], rest')
              else None
          end
      | None => None
      end
  end

with parse_members (fuel : nat) (input : JsStr) {struct fuel}
  : option (list (JsStr * JsValue) * JsStr) :=
  match fuel with
  | O => None
  | S fuel' =>
      match skip_ws input with
      | [] => None
      | q :: rest =>
          if N.eqb q QUOTE then
            match parse_string_chars rest with
            | Some (k, rest1) =>
                match skip_ws rest1 with
                | [] => None
                | colon :: rest2 =>
                    if N.eqb colon (cu ":") then
                      match parse_value fuel' rest2 with
                      | Some (v, rest3) =>
                          match skip_ws rest3 with
                          | [] => None
                          | c :: rest4 =>
                              if N.eqb c (cu ",") then
                                match parse_members fuel' rest4 with
                                | Some (ms, r) => Some ((k, v) :: ms, r)
                                | None => None
                                end
                              else if N.eqb c (cu "}") then Some ([(k, v)], rest4)
                              else None
                          end
                      | None => None
                      end
                    else None
                end
            | None => None
            end
          else None
      end
  end.

(** [JSON.parse(text)]; [None] is a thrown SyntaxError.  Every call of the
    three parsers either consumes input or is followed by one that does,
    so twice the length of the text bounds their nesting: more fuel reads
    nothing more ([parse_fuel_enough] below). *)
Definition parse (text : JsStr) : option JsValue :=
  match parse_value (2 * length text + 2) text with
  | Some (v, rest) => if is_nil (skip_ws rest) then Some v else None
  | None => None
  end.

End JSON.

(** ** Errors and the storage backend *)

(** An [Error] object: its [message] and, for a driver error, its [code]. *)
Record JsError : Type := { code : option JsStr; message : JsStr }.

(** [new Error(msg)]. *)
Definition Error (msg : JsStr) : JsError := {| code := None; message := msg |}.

Record SettingsRow : Type :=
  { settings_key : JsStr; settings_value : JsValue }.

Record ModelsConfigRow : Type :=
  { model_id : JsStr; category : JsStr;
    daily_quota : JsValue; individual_quota : JsValue }.

Record WorkerKeysRow : Type :=
  { api_key : JsStr; description : JsStr;
    safety_enabled : JsValue; created_at : JsStr }.

Record Database : Type :=
  { settings : list SettingsRow;
    models_config : list ModelsConfigRow;
    worker_keys : list WorkerKeysRow }.

(** The SQL statements of the service, with their bound parameters. *)
Inductive Statement : Type :=
| SelectSettingValue (key : JsStr)
| UpsertSetting (key : JsStr) (value : JsValue)
| SelectModelsConfig
| UpsertModelConfig (modelId category : JsStr) (dailyQuota individualQuota : JsValue)
| DeleteModelConfig (modelId : JsStr)
| SelectWorkerKeys
| SelectWorkerKeySafety (apiKey : JsStr)
| InsertWorkerKey (apiKey description : JsStr) (safetyEnabled : JsValue)
| UpdateWorkerKeySafety (safetyEnabled : JsValue) (apiKey : JsStr)
| DeleteWorkerKey (apiKey : JsStr).

Definition SQLITE_CONSTRAINT : JsError :=
  {| code := Some (str "SQLITE_CONSTRAINT");
     message := str "SQLITE_CONSTRAINT: UNIQUE constraint failed: worker_keys.api_key" |}.

Definition has_key {R} (pk : R -> JsStr) (k : JsStr) (r : R) : bool :=
  JsStr_eqb (pk r) k.

Definition without {R} (pk : R -> JsStr) (k : JsStr) (rows : list R) : list R :=
  filter (fun r => negb (has_key pk k r)) rows.

Definition matching {R} (pk : R -> JsStr) (k : JsStr) (rows : list R) : N :=
  N.of_nat (length (filter (has_key pk k) rows)).

Definition model_row_object (r : ModelsConfigRow) : JsValue :=
  JsObject [(str "model_id", JsString (model_id r));
            (str "category", JsString (category r));
            (str "daily_quota", daily_quota r);
            (str "individual_quota", individual_quota r)].

Definition worker_key_row_object (r : WorkerKeysRow) : JsValue :=
  JsObject [(str "api_key", JsString (api_key r));
            (str "description", JsString (description r));
            (str "safety_enabled", safety_enabled r);
            (str "created_at", JsString (created_at r))].

(** ORDER BY created_at DESC; rows of one timestamp keep their order. *)
Fixpoint insert_by_created_at (r : WorkerKeysRow) (rows : list WorkerKeysRow)
  : list WorkerKeysRow :=
  match rows with
  | [] => [r]
  | x :: rest =>
      if string_less (created_at x) (created_at r) then r :: rows
      else x :: insert_by_created_at r rest
  end.

Definition newest_first (rows : list WorkerKeysRow) : list WorkerKeysRow :=
  fold_left (fun sorted r => insert_by_created_at r sorted) rows [].

(** Modelled from the spec: the storage backend ([../db], an SQLite
    database handle) is not part of the sources.  Spec section 6 gives the
    tables [settings(key PK, value)],
    [models_config(model_id PK, category, daily_quota, individual_quota)] and
    [worker_keys(api_key PK, description, safety_enabled, created_at)], with
    upsert by primary key and affected-row counts on update and delete; an
    insert of a present primary key fails with a constraint error
    (section 7, Conflict).  A statement yields the next database, the rows it
    selects and the number of rows it changes. *)
Definition execute (s : Statement) (d : Database) (now : JsStr)
  : JsError + (Database * list JsValue * N) :=
  match s with
  | SelectSettingValue k =>
      inr (d,
           map (fun r => JsObject [(str "value", settings_value r)])
             (filter (has_key settings_key k) (settings d)),
           0%N)
  | UpsertSetting k v =>
      inr ({| settings := without settings_key k (settings d)
                            ++ [{| settings_key := k; settings_value := v |}];
              models_config := models_config d;
              worker_keys := worker_keys d |},
           [], 1%N)
  | SelectModelsConfig =>
      inr (d, map model_row_object (models_config d), 0%N)
  | UpsertModelConfig m c dq iq =>
      inr ({| settings := settings d;
              models_config := without model_id m (models_config d)
                                 ++ [{| model_id := m; category := c;
                                        daily_quota := dq;
                                        individual_quota := iq |}];
              worker_keys := worker_keys d |},
           [], 1%N)
  | DeleteModelConfig m =>
      inr ({| settings := settings d;
              models_config := without model_id m (models_config d);
              worker_keys := worker_keys d |},
           [], matching model_id m (models_config d))
  | SelectWorkerKeys =>
      inr (d, map worker_key_row_object (newest_first (worker_keys d)), 0%N)
  | SelectWorkerKeySafety k =>
      inr (d,
           map (fun r => JsObject [(str "safety_enabled", safety_enabled r)])
             (filter (has_key api_key k) (worker_keys d)),
           0%N)
  | InsertWorkerKey k desc se =>
      if existsb (has_key api_key k) (worker_keys d) then inl SQLITE_CONSTRAINT
      else
        inr ({| settings := settings d;
                models_config := models_config d;
                worker_keys := worker_keys d
                                 ++ [{| api_key := k; description := desc;
                                        safety_enabled := se;
                                        created_at := now |}] |},
             [], 1%N)
  | UpdateWorkerKeySafety se k =>
      inr ({| settings := settings d;
              models_config := models_config d;
              worker_keys :=
                map (fun r => if has_key api_key k r
                              then {| api_key := api_key r;
                                      description := description r;
                                      safety_enabled := se;
                                      created_at := created_at r |}
                              else r) (worker_keys d) |},
           [], matching api_key k (worker_keys d))
  | DeleteWorkerKey k =>
      inr ({| settings := settings d;
              models_config := models_config d;
              worker_keys := without api_key k (worker_keys d) |},
           [], matching api_key k (worker_keys d))
  end.

(** ** The world and asynchronous computations *)

(** What the service does to its collaborators, most recent first. *)
Inductive Event : Type :=
| Executed (s : Statement)
| Synced.

Record World : Type :=
  { db : Database; now : JsStr; trace : list Event }.

Definition record_event (ev : Event) (w : World) : World :=
  {| db := db w; now := now w; trace := ev :: trace w |}.

Definition with_db (d : Database) (w : World) : World :=
  {| db := d; now := now w; trace := trace w |}.

(** What the platform and the collaborators decide: the Number a string
    converts to (StringToNumber, ECMA-262 7.1.4.1.1), and whether a storage
    statement or a sync fails for a reason of its own (disk, network). *)
Record Platform : Type :=
  { StringToNumber : JsStr -> Number.t;
    fault : World -> Event -> option JsError }.

Inductive Outcome (A : Type) : Type :=
| Returned (a : A)
| Thrown (e : JsError).
Arguments Returned {A} a.
Arguments Thrown {A} e.

(** An [async] function body: awaited calls run in sequence, a rejected
    promise is a thrown error. *)
Definition Async (A : Type) : Type := World -> Outcome A * World.

Definition ret {A} (a : A) : Async A := fun w => (Returned a, w).

Definition throw {A} (e : JsError) : Async A := fun w => (Thrown e, w).

Definition bind {A B} (c : Async A) (k : A -> Async B) : Async B :=
  fun w =>
    match c w with
    | (Returned a, w') => k a w'
    | (Thrown e, w') => (Thrown e, w')
    end.

Definition try_catch {A} (body : Async A) (handler : JsError -> Async A)
  : Async A :=
  fun w =>
    match body w with
    | (Returned a, w') => (Returned a, w')
    | (Thrown e, w') => handler e w'
    end.

Notation "x <- c ;; k" := (bind c (fun x => k))
  (at level 61, c at next level, right associativity).
Notation "c ;;; k" := (bind c (fun _ => k))
  (at level 61, right associativity).

(** The result object of [db.run]; [lastID] is never read by the service. *)
Record RunResult : Type := { changes : N }.

(** ** The service

    The functions of [configService.js], in the order of the source.  A
    parameter the source documents as a string (setting key, model id,
    category, API key, description) is a string here; every other parameter
    is any value.  [console.error] is not modelled. *)
Section Service.

Context (P : Platform).

(** ToPrimitive and ToNumber (ECMA-262 7.1.1, 7.1.4). *)
Definition ToPrimitive (v : JsValue) : JsValue :=
  match v with
  | JsArray _ | JsObject _ => JsString (ToString v)
  | _ => v
  end.

Definition ToNumber (v : JsValue) : Number.t :=
  match ToPrimitive v with
  | JsUndefined => Number.NaN
  | JsNull => Number.of_Z 0
  | JsBoolean b => Number.of_Z (if b then 1 else 0)
  | JsNumber n => n
  | JsString s => StringToNumber P s
  | _ => Number.NaN
  end.

(** [a < b] (IsLessThan, ECMA-262 7.2.13). *)
Definition less_than (a b : JsValue) : bool :=
  match ToPrimitive a, ToPrimitive b with
  | JsString x, JsString y => string_less x y
  | _, _ => Number.lessThan (ToNumber a) (ToNumber b)
  end.

(** [Number.isInteger(v)]: false for what is not a Number. *)
Definition Number_isInteger (v : JsValue) : bool :=
  match v with JsNumber n => Number.isInteger n | _ => false end.

(** [Math.floor(v)]. *)
Definition Math_floor (v : JsValue) : JsValue :=
  JsNumber (Number.floor (ToNumber v)).

(** *** Row access layer *)

(** One statement sent to the driver: it fails with the driver's error or
    runs on the database. *)
Definition perform (s : Statement) : Async (list JsValue * N) :=
  fun w =>
    let w1 := record_event (Executed s) w in
    match fault P w (Executed s) with
    | Some err => (Thrown err, w1)
    | None =>
        match execute s (db w) (now w) with
        | inl err => (Thrown err, w1)
        | inr (d, rows, n) => (Returned (rows, n), with_db d w1)
        end
    end.

Definition runDb (sql : Statement) : Async RunResult :=
  r <- perform sql ;; ret {| changes := snd r |}.

Definition getDb (sql : Statement) : Async JsValue :=
  r <- perform sql ;;
  ret (match fst r with row :: _ => row | [] => JsUndefined end).

Definition allDb (sql : Statement) : Async (list JsValue) :=
  r <- perform sql ;; ret (fst r).

(** Modelled from the spec: [syncToGitHub] ([../db]) is not part of the
    sources.  Spec section 6: a no-argument operation that mirrors the
    current store state externally and may fail. *)
Definition syncToGitHub : Async unit :=
  fun w =>
    let w1 := record_event Synced w in
    match fault P w Synced with
    | Some err => (Thrown err, w1)
    | None => (Returned tt, w1)
    end.

(** *** Settings *)

(** An absent [defaultValue] is [undefined] and takes the default [null]. *)
Definition getSetting (key : JsStr) (defaultValue : JsValue) : Async JsValue :=
  let defaultValue := if is_undefined defaultValue then JsNull else defaultValue in
  row <- getDb (SelectSettingValue key) ;;
  if negb (ToBoolean row) then ret defaultValue
  else
    match JSON.parse (ToString (optional_member row (str "value"))) with
    | Some parsed => ret parsed
    | None => ret (optional_member row (str "value"))
    end.

(** [skipSync] is the truth value of the optional third argument, false
    when it is absent. *)
Definition setSetting (key : JsStr) (value : JsValue) (skipSync : bool)
  : Async unit :=
  let valueToStore :=
    if JsStr_eqb (typeof value) (str "object") && negb (is_null value)
    then match JSON.stringify value with
         | Some text => JsString text
         | None => JsUndefined
         end
    else JsString (ToString value) in
  runDb (UpsertSetting key valueToStore) ;;;
  if negb skipSync then syncToGitHub else ret tt.

(** *** Model configuration *)

Definition getModelsConfig : Async JsValue :=
  rows <- allDb SelectModelsConfig ;;
  ret (JsObject
         (fold_left
            (fun config row =>
               set_prop config
                 (ToString (optional_member row (str "model_id")))
                 (JsObject
                    [(str "category", optional_member row (str "category"));
                     (str "dailyQuota",
                      nullish_or (optional_member row (str "daily_quota"))
                        JsUndefined);
                     (str "individualQuota",
                      nullish_or (optional_member row (str "individual_quota"))
                        JsUndefined)]))
            rows [])).

Definition normalize_quota (quota : JsValue) : JsValue :=
  if is_undefined quota || is_null quota then JsNull
  else JsNumber (ToNumber quota).

Definition setModelConfig (modelId category : JsStr)
           (dailyQuota individualQuota : JsValue) : Async unit :=
  let dailyQuotaDb := normalize_quota dailyQuota in
  let individualQuotaDb := normalize_quota individualQuota in
  if (JsStr_eqb category (str "Custom")
      && negb (is_null dailyQuotaDb)
      && negb (Number_isInteger dailyQuotaDb))
     || less_than dailyQuotaDb (num 0)
  then throw (Error (str "Custom model dailyQuota must be a non-negative integer or null."))
  else if ((JsStr_eqb category (str "Pro") || JsStr_eqb category (str "Flash"))
           && negb (is_null individualQuotaDb)
           && negb (Number_isInteger individualQuotaDb))
          || less_than individualQuotaDb (num 0)
  then throw (Error (str "Pro/Flash model individualQuota must be a non-negative integer or null."))
  else
    runDb (UpsertModelConfig modelId category dailyQuotaDb individualQuotaDb) ;;;
    syncToGitHub.

Definition deleteModelConfig (modelId : JsStr) : Async unit :=
  result <- runDb (DeleteModelConfig modelId) ;;
  if N.eqb (changes result) 0
  then throw (Error (str "Model '" ++ modelId ++ str "' not found for deletion."))
  else syncToGitHub.

(** *** Category quotas *)

Definition default_quotas : JsValue :=
  JsObject [(str "proQuota", num 50); (str "flashQuota", num 1500)].

Definition getCategoryQuotas : Async JsValue :=
  quotas <- getSetting (str "category_quotas") default_quotas ;;
  ret (JsObject
         [(str "proQuota",
           if JsStr_eqb (typeof (optional_member quotas (str "proQuota")))
                (str "number")
           then optional_member quotas (str "proQuota") else num 50);
          (str "flashQuota",
           if JsStr_eqb (typeof (optional_member quotas (str "flashQuota")))
                (str "number")
           then optional_member quotas (str "flashQuota") else num 1500)]).

Definition setCategoryQuotas (proQuota flashQuota : JsValue) : Async unit :=
  if negb (JsStr_eqb (typeof proQuota) (str "number"))
     || negb (JsStr_eqb (typeof flashQuota) (str "number"))
     || less_than proQuota (num 0)
     || less_than flashQuota (num 0)
  then throw (Error (str "Quotas must be non-negative numbers."))
  else
    setSetting (str "category_quotas")
      (JsObject [(str "proQuota", Math_floor proQuota);
                 (str "flashQuota", Math_floor flashQuota)])
      false.

(** *** Worker keys *)

Definition getAllWorkerKeys : Async JsValue :=
  rows <- allDb SelectWorkerKeys ;;
  ret (JsArray
         (map (fun row =>
                 JsObject
                   [(str "key", optional_member row (str "api_key"));
                    (str "description",
                     if ToBoolean (optional_member row (str "description"))
                     then optional_member row (str "description")
                     else JsString []);
                    (str "safetyEnabled",
                     JsBoolean
                       (strict_equals_number
                          (optional_member row (str "safety_enabled"))
                          (Number.of_Z 1)));
                    (str "createdAt", optional_member row (str "created_at"))])
              rows)).

Definition getWorkerKeySafetySetting (apiKey : JsStr) : Async bool :=
  row <- getDb (SelectWorkerKeySafety apiKey) ;;
  ret (if ToBoolean row
       then strict_equals_number (optional_member row (str "safety_enabled"))
              (Number.of_Z 1)
       else true).

Definition addWorkerKey (apiKey description : JsStr) : Async unit :=
  try_catch
    (runDb (InsertWorkerKey apiKey description (num 1)) ;;;
     syncToGitHub)
    (fun err =>
       if match code err with
          | Some c => JsStr_eqb c (str "SQLITE_CONSTRAINT")
          | None => false
          end
       then throw (Error (str "Worker key '" ++ apiKey ++ str "' already exists."))
       else throw err).

Definition updateWorkerKeySafety (apiKey : JsStr) (safetyEnabled : JsValue)
  : Async unit :=
  result <- runDb (UpdateWorkerKeySafety
                     (if ToBoolean safetyEnabled then num 1 else num 0) apiKey) ;;
  if N.eqb (changes result) 0
  then throw (Error (str "Worker key '" ++ apiKey
                       ++ str "' not found for updating safety settings."))
  else syncToGitHub.

Definition deleteWorkerKey (apiKey : JsStr) : Async unit :=
  result <- runDb (DeleteWorkerKey apiKey) ;;
  if N.eqb (changes result) 0
  then throw (Error (str "Worker key '" ++ apiKey ++ str "' not found for deletion."))
  else ret tt.

(** *** GitHub configuration *)

Definition getGitHubConfig : Async JsValue :=
  getSetting (str "github_config")
    (JsObject [(str "repo", JsString []); (str "token", JsString []);
               (str "dbPath", JsString (str "./database.db"));
               (str "encryptKey", JsNull)]).

Definition setGitHubConfig (repo token dbPath encryptKey : JsValue) : Async unit :=
  let dbPath := if is_undefined dbPath then JsString (str "./database.db") else dbPath in
  let encryptKey := if is_undefined encryptKey then JsNull else encryptKey in
  setSetting (str "github_config")
    (JsObject [(str "repo", repo); (str "token", token);
               (str "dbPath", dbPath); (str "encryptKey", encryptKey)])
    false.

End Service.

(** ** Vocabulary of the properties *)

Definition empty_database : Database :=
  {| settings := []; models_config := []; worker_keys := [] |}.

(** The world before any operation, at time [t]. *)
Definition initial_world (t : JsStr) : World :=
  {| db := empty_database; now := t; trace := [] |}.

(** A platform on which neither storage nor sync fails on its own. *)
Definition reliable_platform : Platform :=
  {| StringToNumber := fun _ => Number.NaN; fault := fun _ _ => None |}.

(** A platform whose sync collaborator always fails with [err]. *)
Definition failing_sync_platform (err : JsError) : Platform :=
  {| StringToNumber := fun _ => Number.NaN;
     fault := fun _ ev => match ev with Synced => Some err | _ => None end |}.

(** The driver runs every statement (constraint errors apart). *)
Definition storage_reliable (P : Platform) : Prop :=
  forall w s, fault P w (Executed s) = None.

(** The world an operation leaves, and what it returns or throws. *)
Definition world_after {A} (c : Async A) (w : World) : World := snd (c w).
Definition outcome {A} (c : Async A) (w : World) : Outcome A := fst (c w).

(** Whether a table has a row with primary key [k]. *)
Definition has_row {R} (pk : R -> JsStr) (k : JsStr) (rows : list R) : bool :=
  existsb (has_key pk k) rows.

(** The first row of a table with primary key [k]. *)
Definition row_of {R} (pk : R -> JsStr) (k : JsStr) (rows : list R) : option R :=
  find (has_key pk k) rows.

(** A Number is an integer when it equals some integer, and negative when
    it is less than zero. *)
Definition integer (n : Number.t) : Prop :=
  exists z : Z, Number.equal n (Number.of_Z z) = true.

Definition negative (n : Number.t) : Prop :=
  match n with
  | Number.Finite m _ => (m < 0)%Z
  | Number.Infinity neg => neg = true
  | Number.NaN => False
  end.

Definition negative_quota (q : JsValue) : Prop :=
  exists n, q = JsNumber n /\ negative n.

Definition non_integer_quota (q : JsValue) : Prop :=
  q <> JsNull /\ forall n, q = JsNumber n -> ~ integer n.

(** The validation policy of [setModelConfig] in the words of the
    specification, on the normalized quotas. *)
Definition validation_rejects (category : JsStr) (dailyQuotaDb individualQuotaDb : JsValue)
  : Prop :=
  (category = str "Custom" /\ non_integer_quota dailyQuotaDb)
  \/ negative_quota dailyQuotaDb
  \/ ((category = str "Pro" \/ category = str "Flash")
      /\ non_integer_quota individualQuotaDb)
  \/ negative_quota individualQuotaDb.

Definition validation_error (err : JsError) : Prop :=
  err = Error (str "Custom model dailyQuota must be a non-negative integer or null.")
  \/ err = Error (str "Pro/Flash model individualQuota must be a non-negative integer or null.").

(** The arguments of one [setModelConfig] call, and the world after a
    sequence of calls. *)
Record ModelConfigCall : Type :=
  { arg_modelId : JsStr; arg_category : JsStr;
    arg_dailyQuota : JsValue; arg_individualQuota : JsValue }.

Definition after_calls (P : Platform) (calls : list ModelConfigCall) (w : World)
  : World :=
  fold_left
    (fun w c =>
       world_after (setModelConfig P (arg_modelId c) (arg_category c)
                      (arg_dailyQuota c) (arg_individualQuota c)) w)
    calls w.

Definition null_or_nonnegative_integer (q : JsValue) : Prop :=
  q = JsNull
  \/ exists n, q = JsNumber n /\ integer n /\ ~ negative n.

(** What the code guarantees of a stored daily quota: it is not negative,
    and it is an integer under category Custom. *)
Definition stored_daily_quota_ok (r : ModelsConfigRow) : Prop :=
  daily_quota r = JsNull
  \/ exists n, daily_quota r = JsNumber n
               /\ ~ negative n
               /\ (category r = str "Custom" -> integer n).

(** [s] between double quotes, as a key is written in JSON text. *)
Definition quoted (s : JsStr) : JsStr := QUOTE :: s ++ [QUOTE].

(** The error [addWorkerKey] raises for a key that exists. *)
Definition Conflict (apiKey : JsStr) : JsError :=
  Error (str "Worker key '" ++ apiKey ++ str "' already exists.").

(** The test of [addWorkerKey]'s handler: [err.code === 'SQLITE_CONSTRAINT']. *)
Definition is_constraint_error (err : JsError) : bool :=
  match code err with
  | Some c => JsStr_eqb c (str "SQLITE_CONSTRAINT")
  | None => false
  end.

(** The row [addWorkerKey] inserts. *)
Definition new_worker_key (apiKey description t : JsStr) : WorkerKeysRow :=
  {| api_key := apiKey; description := description;
     safety_enabled := num 1; created_at := t |}.

(** The value of a category-quota object. *)
Definition quotas_object (proQuota flashQuota : JsValue) : JsValue :=
  JsObject [(str "proQuota", proQuota); (str "flashQuota", flashQuota)].

Definition is_number (v : JsValue) : bool :=
  JsStr_eqb (typeof v) (str "number").

(** A structured, non-null value: what [typeof] calls an object. *)
Definition structured (v : JsValue) : bool :=
  JsStr_eqb (typeof v) (str "object") && negb (is_null v).

(** What [setSetting] binds as the value column: [valueToStore]. *)
Definition value_to_store (value : JsValue) : JsValue :=
  if structured value
  then match JSON.stringify value with
       | Some text => JsString text
       | None => JsUndefined
       end
  else JsString (ToString value).

(** The text stored by [setCategoryQuotas(NaN, 10)]. *)
Definition nan_quotas_text : JsStr :=
  str "{" ++ quoted (str "proQuota") ++ str ":null,"
    ++ quoted (str "flashQuota") ++ str ":10}".

(** Whether the input starts with a decimal digit. *)
Definition starts_digit (rest : JsStr) : bool :=
  match rest with c :: _ => is_digit c | [] => false end.

(** The result of the string parser with [c] put in front. *)
Definition parsed_after (c : N) (r : option (JsStr * JsStr)) : option (JsStr * JsStr) :=
  match r with
  | Some (s, rest) => Some (c :: s, rest)
  | None => None
  end.

(** The text of a JSON value ([null] where [JSON.stringify] has none). *)
Definition json_text (v : JsValue) : JsStr :=
  match JSON.SerializeJSONProperty v with
  | Some t => t
  | None => str "null"
  end.

(** A bound on the nesting of parser calls a value needs. *)
Fixpoint parse_cost (v : JsValue) : nat :=
  match v with
  | JsArray items => S (list_sum (map (fun x => S (parse_cost x)) items))
  | JsObject props =>
      S (list_sum (map (fun kv => S (parse_cost (snd kv))) props))
  | _ => 1
  end.

(** The text of one member of an object. *)
Definition member_text (kv : JsStr * JsValue) : JsStr :=
  JSON.QuoteJSONString (fst kv) ++ JSON.cu ":" :: json_text (snd kv).

(** What may follow a JSON number: the end of the text, or a code unit that
    cannot continue it. *)
Definition ends_number (rest : JsStr) : bool :=
  match rest with
  | [] => true
  | c :: _ =>
      negb (is_digit c) && negb (N.eqb c (JSON.cu "."))
      && negb (N.eqb c (JSON.cu "e")) && negb (N.eqb c (JSON.cu "E"))
  end.

(** The code units a JSON value can start with. *)
Definition starts_value (c : N) : bool :=
  N.eqb c (JSON.cu "n") || N.eqb c (JSON.cu "t") || N.eqb c (JSON.cu "f")
  || N.eqb c QUOTE || N.eqb c (JSON.cu "[") || N.eqb c (JSON.cu "{")
  || N.eqb c (JSON.cu "-") || is_digit c.

(** The text of [v], followed by anything that ends a number, is read
    back as a value deep-equal to [v]. *)
Definition round_trips (v : JsValue) : Prop :=
  json_value v = true ->
  forall fuel rest,
    (parse_cost v <= fuel)%nat ->
    ends_number rest = true ->
    exists v',
      JSON.parse_value fuel (json_text v ++ rest) = Some (v', rest)
      /\ deep_equal v v' = true.

(** Members read back with the same keys and deep-equal values. *)
Definition same_members (ps qs : list (JsStr * JsValue)) : Prop :=
  Forall2 (fun p q => fst p = fst q /\ deep_equal (snd p) (snd q) = true) ps qs.

(** C4 as the specification states it, in its two halves: a string comes
    back as the same string, and a structured value comes back deep-equal. *)
Definition strings_round_trip_exactly : Prop :=
  forall (P : Platform) key s w,
    storage_reliable P ->
    outcome (getSetting P key JsNull)
      (world_after (setSetting P key (JsString s) false) w)
    = Returned (JsString s).

Definition structured_values_round_trip : Prop :=
  forall (P : Platform) key value w,
    storage_reliable P ->
    structured value = true ->
    exists read,
      outcome (getSetting P key JsNull)
        (world_after (setSetting P key value false) w) = Returned read
      /\ deep_equal value read = true.

(** C3 as the specification states it. *)
Definition stored_daily_quota_is_integer : Prop :=
  forall (P : Platform) calls t,
    Forall (fun r => null_or_nonnegative_integer (daily_quota r))
      (models_config (db (after_calls P calls (initial_world t)))).

(** *** Worlds and platforms of the examples *)

Definition t0 : JsStr := str "2024-01-01 00:00:00".

(** A store with the one worker key K1, its safety column holding [safety]. *)
Definition world_with_key (safety : JsValue) : World :=
  {| db := {| settings := [];
              models_config := [];
              worker_keys := [{| api_key := str "K1"; description := [];
                                 safety_enabled := safety; created_at := t0 |}] |};
     now := t0;
     trace := [] |}.

(** A store with the one setting [key], its value column holding [text]. *)
Definition world_with_setting (key text : JsStr) : World :=
  {| db := {| settings := [{| settings_key := key;
                              settings_value := JsString text |}];
              models_config := [];
              worker_keys := [] |};
     now := t0;
     trace := [] |}.

Definition disk_error : JsError :=
  {| code := Some (str "SQLITE_IOERR"); message := str "SQLITE_IOERR: disk I/O error" |}.

(** A platform whose driver fails every statement with [err]. *)
Definition failing_storage_platform (err : JsError) : Platform :=
  {| StringToNumber := fun _ => Number.NaN;
     fault := fun _ ev => match ev with Executed _ => Some err | Synced => None end |}.

(** Stored category quotas with one field that is not a Number. *)
Definition pro_only_text : JsStr :=
  str "{" ++ quoted (str "proQuota") ++ str ":7,"
    ++ quoted (str "flashQuota") ++ str ":" ++ quoted (str "x") ++ str "}".

Definition flash_only_text : JsStr :=
  str "{" ++ quoted (str "proQuota") ++ str ":" ++ quoted (str "x") ++ str ","
    ++ quoted (str "flashQuota") ++ str ":7}".

Definition fractional_pro_call : ModelConfigCall :=
  {| arg_modelId := str "m"; arg_category := str "Pro";
     arg_dailyQuota := JsNumber (Number.Finite 15 (-1));
     arg_individualQuota := JsNull |}.

(** *** Vocabulary of the further properties *)

(** The own property [k] of an object, when it has one. *)
Definition own_property (v : JsValue) (k : JsStr) : option JsValue :=
  match v with JsObject props => lookup k props | _ => None end.


(** The default [getSetting] returns: [null] when none is passed. *)
Definition default_or_null (defaultValue : JsValue) : JsValue :=
  if is_undefined defaultValue then JsNull else defaultValue.

(** An operation that fails with [err] on its first statement [s]: nothing
    is written and no sync is attempted. *)
Definition fails_at {A} (c : Async A) (w : World) (s : Statement) (err : JsError)
  : Prop :=
  c w = (Thrown err, record_event (Executed s) w).

(** An operation that only reads: one statement [s] is sent and the store
    is what it was. *)
Definition only_reads {A} (c : Async A) (s : Statement) : Prop :=
  forall w,
    db (world_after c w) = db w
    /\ trace (world_after c w) = Executed s :: trace w.

(** The entry [getModelsConfig] reports for a model. *)
Definition model_entry (category : JsStr) (dailyQuota individualQuota : JsValue)
  : JsValue :=
  JsObject [(str "category", JsString category);
            (str "dailyQuota", nullish_or dailyQuota JsUndefined);
            (str "individualQuota", nullish_or individualQuota JsUndefined)].

(** The configuration object built from the rows of [models_config]. *)
Definition models_object (rows : list ModelsConfigRow) : list (JsStr * JsValue) :=
  fold_left
    (fun config r =>
       set_prop config (model_id r)
         (model_entry (category r) (daily_quota r) (individual_quota r)))
    rows [].

(** The last row of a table with primary key [k]. *)
Definition last_row_of {R} (pk : R -> JsStr) (k : JsStr) (rows : list R) : option R :=
  find (has_key pk k) (rev rows).

(** The entry [getAllWorkerKeys] reports for a row. *)
Definition worker_key_entry (r : WorkerKeysRow) : JsValue :=
  JsObject [(str "key", JsString (api_key r));
            (str "description", JsString (description r));
            (str "safetyEnabled",
             JsBoolean (strict_equals_number (safety_enabled r) (Number.of_Z 1)));
            (str "createdAt", JsString (created_at r))].

(** The GitHub configuration object. *)
Definition github_config (repo token dbPath encryptKey : JsValue) : JsValue :=
  JsObject [(str "repo", repo); (str "token", token);
            (str "dbPath", dbPath); (str "encryptKey", encryptKey)].

Definition default_github_config : JsValue :=
  github_config (JsString []) (JsString [])
    (JsString (str "./database.db")) JsNull.

(** The database after an upsert of the setting [key]. *)
Definition with_setting (key : JsStr) (v : JsValue) (d : Database) : Database :=
  {| settings := without settings_key key (settings d)
                   ++ [{| settings_key := key; settings_value := v |}];
     models_config := models_config d;
     worker_keys := worker_keys d |}.

(** A value [undefined] stands for an omitted argument; otherwise JSON
    text can represent it. *)
Definition omitted_or_json (v : JsValue) : bool :=
  is_undefined v || json_value v.

(** A store with the one model [m] of category Pro. *)
Definition world_with_model (m : JsStr) : World :=
  {| db := {| settings := [];
              models_config := [{| model_id := m; category := str "Pro";
                                   daily_quota := JsNull;
                                   individual_quota := num 5 |}];
              worker_keys := [] |};
     now := t0;
     trace := [] |}.



(** What the code guarantees of a stored individual quota: it is not
    negative, and it is an integer under the categories Pro and Flash. *)
Definition stored_individual_quota_ok (r : ModelsConfigRow) : Prop :=
  individual_quota r = JsNull
  \/ exists n, individual_quota r = JsNumber n
               /\ ~ negative n
               /\ (category r = str "Pro" \/ category r = str "Flash"
                   -> integer n).

(** The two validation failures of [setModelConfig], on the normalized
    quotas, and their errors. *)
Definition daily_quota_rejected (category : JsStr) (dailyQuotaDb : JsValue) : Prop :=
  (category = str "Custom" /\ non_integer_quota dailyQuotaDb)
  \/ negative_quota dailyQuotaDb.

Definition individual_quota_rejected (category : JsStr) (individualQuotaDb : JsValue)
  : Prop :=
  ((category = str "Pro" \/ category = str "Flash")
   /\ non_integer_quota individualQuotaDb)
  \/ negative_quota individualQuotaDb.

Definition daily_quota_error : JsError :=
  Error (str "Custom model dailyQuota must be a non-negative integer or null.").

Definition individual_quota_error : JsError :=
  Error (str "Pro/Flash model individualQuota must be a non-negative integer or null.").

(** * Properties *)

(** ** Strings and the asynchronous sequencing *)

Lemma JsStr_eqb_eq : forall a b, JsStr_eqb a b = true <-> a = b.
Proof.
  induction a as [|x a IH]; destruct b as [|y b]; simpl; split; intro H;
    try reflexivity; try discriminate.
  - apply andb_true_iff in H. destruct H as [Hx Hab].
    apply N.eqb_eq in Hx. apply IH in Hab. congruence.
  - injection H as -> ->. rewrite N.eqb_refl. simpl. now apply IH.
Qed.

Lemma JsStr_eqb_refl : forall a, JsStr_eqb a a = true.
Proof. intro a. now apply JsStr_eqb_eq. Qed.

Lemma JsStr_eqb_neq : forall a b, JsStr_eqb a b = false <-> a <> b.
Proof.
  intros a b. split.
  - intros H E. apply JsStr_eqb_eq in E. congruence.
  - intro H. destruct (JsStr_eqb a b) eqn:E; [|reflexivity].
    apply JsStr_eqb_eq in E. contradiction.
Qed.

Lemma filter_find : forall {R} (f : R -> bool) (l : list R),
  find f l = match filter f l with r :: _ => Some r | [] => None end.
Proof.
  intros R f l. induction l as [|r l IH]; simpl; [reflexivity|].
  destruct (f r); [reflexivity|exact IH].
Qed.

Lemma existsb_row_of : forall {R} (pk : R -> JsStr) k rows,
  existsb (has_key pk k) rows = true <-> row_of pk k rows <> None.
Proof.
  intros R pk k rows. unfold row_of.
  induction rows as [|r rows IH]; simpl.
  - split; [discriminate|intro H; now elim H].
  - destruct (has_key pk k r); simpl; [|exact IH].
    split; [discriminate|reflexivity].
Qed.

Lemma existsb_false_row_of : forall {R} (pk : R -> JsStr) k rows,
  existsb (has_key pk k) rows = false <-> row_of pk k rows = None.
Proof.
  intros R pk k rows. pose proof (existsb_row_of pk k rows) as H.
  destruct (existsb (has_key pk k) rows); destruct (row_of pk k rows);
    split; intro E; try reflexivity; try discriminate.
  - exfalso. apply (proj1 H); reflexivity.
  - exfalso. assert (H' : Some r <> None) by discriminate.
    apply H in H'. discriminate.
Qed.

(** ** Numbers: the tests of the code and their meaning *)

Lemma pow10_pos : forall k : Z, (0 <= k)%Z -> (0 < 10 ^ k)%Z.
Proof. intros k Hk. apply Z.pow_pos_nonneg; lia. Qed.

Lemma lessThan_zero_negative : forall n,
  Number.lessThan n (Number.of_Z 0) = true <-> negative n.
Proof.
  intros [|neg|m e]; simpl.
  - split; [discriminate|contradiction].
  - split; intro H; exact H.
  - unfold Number.compare_finite, Number.scale. rewrite Z.mul_0_l.
    assert (Hp : (0 < 10 ^ (e - Z.min e 0))%Z) by (apply pow10_pos; lia).
    destruct (Z.compare_spec (m * 10 ^ (e - Z.min e 0)) 0) as [H|H|H];
      split; intro H'; try reflexivity; try discriminate; nia.
Qed.

Lemma lessThan_zero_not_negative : forall n,
  Number.lessThan n (Number.of_Z 0) = false <-> ~ negative n.
Proof.
  intro n. rewrite <- lessThan_zero_negative.
  destruct (Number.lessThan n (Number.of_Z 0)); split; intro H;
    try reflexivity; try discriminate; try (intro; discriminate).
  exfalso. now apply H.
Qed.

Lemma isInteger_integer : forall n, Number.isInteger n = true <-> integer n.
Proof.
  intros [|neg|m e]; unfold integer; simpl.
  - split; [discriminate|]. intros [z H]. discriminate.
  - split; [discriminate|]. intros [z H]. discriminate.
  - unfold Number.compare_finite, Number.scale.
    destruct (Z.leb_spec 0 e) as [He|He]; simpl.
    + split; [intros _|reflexivity].
      exists (m * 10 ^ e)%Z.
      rewrite Z.min_r by lia. rewrite !Z.sub_0_r. simpl (10 ^ 0)%Z.
      rewrite Z.mul_1_r. now rewrite Z.compare_refl.
    + assert (Hp : (0 < 10 ^ (- e))%Z) by (apply pow10_pos; lia).
      rewrite Z.eqb_eq. rewrite Z.mod_divide by lia. unfold Z.divide.
      split; intros [z Hz]; exists z.
      * rewrite Z.min_l by lia. rewrite Z.sub_diag, ?Z.sub_0_l.
        simpl (10 ^ 0)%Z. rewrite Z.mul_1_r. subst m.
        now rewrite Z.compare_refl.
      * rewrite Z.min_l in Hz by lia.
        rewrite Z.sub_diag, ?Z.sub_0_l in Hz. simpl (10 ^ 0)%Z in Hz.
        rewrite Z.mul_1_r in Hz.
        destruct (Z.compare_spec m (z * 10 ^ (- e))) as [H|H|H];
          [exact H|discriminate|discriminate].
Qed.

Lemma isInteger_not_integer : forall n,
  Number.isInteger n = false <-> ~ integer n.
Proof.
  intro n. rewrite <- isInteger_integer.
  destruct (Number.isInteger n); split; intro H;
    try reflexivity; try discriminate; try (intro; discriminate).
  exfalso. now apply H.
Qed.

(** ** Decimal digits *)

Lemma digits_value_from : forall ds acc,
  fold_left (fun a d => (a * 10 + d)%N) ds acc
  = (acc * 10 ^ N.of_nat (length ds) + digits_value ds)%N.
Proof.
  induction ds as [|d ds IH]; intro acc.
  - unfold digits_value. simpl. lia.
  - change (fold_left (fun a d => (a * 10 + d)%N) (d :: ds) acc)
      with (fold_left (fun a d => (a * 10 + d)%N) ds (acc * 10 + d)%N).
    change (digits_value (d :: ds))
      with (fold_left (fun a d => (a * 10 + d)%N) ds (0 * 10 + d)%N).
    rewrite (IH (acc * 10 + d)%N), (IH (0 * 10 + d)%N).
    replace (N.of_nat (length (d :: ds))) with (N.succ (N.of_nat (length ds)))
      by (simpl length; now rewrite Nat2N.inj_succ).
    rewrite N.pow_succ_r'. ring.
Qed.

Lemma digits_value_app : forall a b,
  digits_value (a ++ b)
  = (digits_value a * 10 ^ N.of_nat (length b) + digits_value b)%N.
Proof.
  intros a b. unfold digits_value at 1. rewrite fold_left_app.
  now rewrite digits_value_from.
Qed.

Lemma digits_value_zeros : forall n, digits_value (repeat 0%N n) = 0%N.
Proof.
  induction n as [|n IH]; [reflexivity|].
  unfold digits_value in *. simpl. exact IH.
Qed.

Lemma digits_value_leading_zeros : forall n ds,
  digits_value (repeat 0%N n ++ ds) = digits_value ds.
Proof.
  intros n ds. rewrite digits_value_app, digits_value_zeros. reflexivity.
Qed.

Lemma digits_value_trailing_zeros : forall ds n,
  digits_value (ds ++ repeat 0%N n) = (digits_value ds * 10 ^ N.of_nat n)%N.
Proof.
  intros ds n. rewrite digits_value_app, digits_value_zeros, repeat_length.
  now rewrite N.add_0_r.
Qed.

(** The digits of [n]: they denote [n], each is below ten, and the first is
    not zero unless [n] is. *)
Lemma digits_fuel_spec : forall fuel n,
  (n < 2 ^ N.of_nat fuel)%N -> fuel <> O ->
  digits_value (digits_fuel fuel n) = n
  /\ Forall (fun d => (d < 10)%N) (digits_fuel fuel n)
  /\ (exists d tl, digits_fuel fuel n = d :: tl /\ (n <> 0%N -> d <> 0%N)).
Proof.
  induction fuel as [|fuel IH]; intros n Hn Hfuel; [now elim Hfuel|].
  simpl digits_fuel. destruct (N.ltb_spec n 10) as [Hlt|Hge].
  - split; [|split].
    + unfold digits_value. simpl. reflexivity.
    + constructor; [exact Hlt|constructor].
    + exists n, []. split; [reflexivity|tauto].
  - rewrite Nat2N.inj_succ, N.pow_succ_r' in Hn.
    assert (Hq : (n / 10 < 2 ^ N.of_nat fuel)%N).
    { apply N.Div0.div_lt_upper_bound. lia. }
    assert (Hq1 : (1 <= n / 10)%N).
    { apply N.div_le_lower_bound; lia. }
    assert (Hfuel' : fuel <> O).
    { intro E. subst fuel. simpl in Hq. lia. }
    destruct (IH (n / 10)%N Hq Hfuel') as [Hv [Hall [d [tl [Hd Hnz]]]]].
    split; [|split].
    + rewrite digits_value_app, Hv. unfold digits_value at 1. simpl.
      pose proof (N.div_mod n 10). lia.
    + apply Forall_app. split; [exact Hall|].
      constructor; [|constructor]. apply N.mod_lt. lia.
    + exists d, (tl ++ [(n mod 10)%N]). rewrite Hd. split; [reflexivity|].
      intros _. apply Hnz. lia.
Qed.

Lemma digits_spec : forall n,
  digits_value (digits n) = n
  /\ Forall (fun d => (d < 10)%N) (digits n)
  /\ (exists d tl, digits n = d :: tl /\ (n <> 0%N -> d <> 0%N)).
Proof.
  intro n. unfold digits. apply digits_fuel_spec; [|discriminate].
  rewrite Nat2N.inj_succ, N2Nat.id.
  destruct (N.eq_dec n 0) as [->|Hn]; [reflexivity|].
  apply N.log2_spec. lia.
Qed.

Lemma drop_zeros_spec : forall l,
  exists t, l = repeat 0%N t ++ drop_zeros l.
Proof.
  induction l as [|d l [t IH]]; simpl.
  - now exists O.
  - destruct (N.eqb_spec d 0) as [->|Hd].
    + exists (S t). simpl. now rewrite <- IH.
    + now exists O.
Qed.

Lemma significand_spec : forall ds,
  ds = significand ds ++ repeat 0%N (length ds - length (significand ds)).
Proof.
  intro ds. unfold significand.
  destruct (drop_zeros_spec (rev ds)) as [t Ht].
  assert (E : ds = rev (drop_zeros (rev ds)) ++ repeat 0%N t).
  { rewrite <- (rev_involutive ds) at 1. rewrite Ht at 1.
    rewrite rev_app_distr. now rewrite rev_repeat. }
  assert (L : (length ds - length (rev (drop_zeros (rev ds))) = t)%nat).
  { rewrite E at 1. rewrite length_app, repeat_length. lia. }
  rewrite L. exact E.
Qed.

(** The significant digits of a positive number: not empty, each below ten,
    the first not zero. *)
Lemma significand_digits : forall n,
  n <> 0%N ->
  (digits_value (significand (digits n))
   * 10 ^ N.of_nat (length (digits n) - length (significand (digits n))))%N = n
  /\ Forall (fun d => (d < 10)%N) (significand (digits n))
  /\ (exists d tl, significand (digits n) = d :: tl /\ d <> 0%N).
Proof.
  intros n Hn. destruct (digits_spec n) as [Hv [Hall [d [tl [Hd Hnz]]]]].
  pose proof (significand_spec (digits n)) as Hs.
  set (s := significand (digits n)) in *.
  set (t := (length (digits n) - length s)%nat) in *.
  assert (Hval : (digits_value s * 10 ^ N.of_nat t)%N = n).
  { rewrite <- digits_value_trailing_zeros, <- Hs. exact Hv. }
  split; [exact Hval|]. split.
  - rewrite Hs in Hall. apply Forall_app in Hall. tauto.
  - destruct s as [|d' tl'].
    + exfalso. unfold digits_value in Hval. simpl in Hval. lia.
    + exists d', tl'. split; [reflexivity|].
      rewrite Hd in Hs. simpl in Hs. injection Hs as -> _. now apply Hnz.
Qed.

(** ** Reading digits back *)

Lemma is_digit_unit : forall d, (d < 10)%N -> is_digit (digit_unit d) = true.
Proof.
  intros d Hd. unfold is_digit, digit_unit.
  apply andb_true_iff. split; apply N.leb_le; lia.
Qed.

Lemma digit_value_unit : forall d, digit_value (digit_unit d) = d.
Proof. intro d. unfold digit_value, digit_unit. lia. Qed.

Lemma span_digits_units : forall ds rest,
  Forall (fun d => (d < 10)%N) ds ->
  starts_digit rest = false ->
  JSON.span_digits (map digit_unit ds ++ rest) = (ds, rest).
Proof.
  intros ds rest Hall Hrest. induction Hall as [|d ds Hd Hall IH]; simpl.
  - destruct rest as [|c rest]; simpl; [reflexivity|].
    simpl in Hrest. now rewrite Hrest.
  - rewrite (is_digit_unit _ Hd), IH. now rewrite digit_value_unit.
Qed.

Lemma ends_number_no_digit : forall rest,
  ends_number rest = true -> starts_digit rest = false.
Proof.
  intros [|c rest]; simpl; [reflexivity|]. intro H.
  destruct (is_digit c); [discriminate|reflexivity].
Qed.

Lemma ends_number_cases : forall rest,
  ends_number rest = true ->
  rest = []
  \/ exists c tl, rest = c :: tl /\ is_digit c = false
                  /\ N.eqb c (JSON.cu ".") = false
                  /\ N.eqb c (JSON.cu "e") = false
                  /\ N.eqb c (JSON.cu "E") = false.
Proof.
  intros [|c tl] H; [now left|right]. exists c, tl. simpl in H.
  apply andb_true_iff in H. destruct H as [H H4].
  apply andb_true_iff in H. destruct H as [H H3].
  apply andb_true_iff in H. destruct H as [H1 H2].
  repeat split; now apply negb_true_iff.
Qed.

Lemma parse_fraction_end : forall rest,
  ends_number rest = true -> JSON.parse_fraction rest = Some ([], rest).
Proof.
  intros rest H.
  destruct (ends_number_cases rest H) as [->|[c [tl [-> [_ [H2 _]]]]]];
    [reflexivity|].
  unfold JSON.parse_fraction. now rewrite H2.
Qed.

Lemma parse_exponent_end : forall rest,
  ends_number rest = true -> JSON.parse_exponent rest = Some (0%Z, rest).
Proof.
  intros rest H.
  destruct (ends_number_cases rest H) as [->|[c [tl [-> [_ [_ [H3 H4]]]]]]];
    [reflexivity|].
  unfold JSON.parse_exponent. now rewrite H3, H4.
Qed.

Lemma parse_fraction_digits : forall ds rest,
  ds <> [] -> Forall (fun d => (d < 10)%N) ds -> starts_digit rest = false ->
  JSON.parse_fraction (JSON.cu "." :: map digit_unit ds ++ rest) = Some (ds, rest).
Proof.
  intros ds rest Hne Hall Hrest. unfold JSON.parse_fraction.
  rewrite N.eqb_refl, (span_digits_units _ _ Hall Hrest).
  destruct ds; [now elim Hne|reflexivity].
Qed.

Lemma parse_exponent_written : forall ex rest,
  starts_digit rest = false ->
  JSON.parse_exponent (JSON.cu "e" :: Number.exponent_part ex ++ rest)
  = Some (ex, rest).
Proof.
  intros ex rest Hrest. unfold JSON.parse_exponent, Number.exponent_part.
  rewrite N.eqb_refl. cbn [orb].
  destruct (digits_spec (Z.abs_N ex)) as [Hv [Hall [d [tl [Hd _]]]]].
  destruct (Z.ltb_spec ex 0) as [Hneg|Hpos].
  - change (str "-") with [JSON.cu "-"]. cbn [app].
    rewrite N.eqb_refl, (span_digits_units _ _ Hall Hrest), Hv.
    rewrite Hd. cbn [JSON.is_nil]. f_equal. f_equal. lia.
  - change (str "+") with [JSON.cu "+"]. cbn [app].
    change (N.eqb (JSON.cu "+") (JSON.cu "-")) with false. cbv iota.
    rewrite N.eqb_refl, (span_digits_units _ _ Hall Hrest), Hv.
    rewrite Hd. cbn [JSON.is_nil]. f_equal. f_equal. lia.
Qed.

Lemma valid_int_nonzero : forall d tl,
  d <> 0%N -> JSON.valid_int (d :: tl) = true.
Proof.
  intros d tl Hd. destruct tl; simpl; [reflexivity|].
  apply negb_true_iff. now apply N.eqb_neq.
Qed.

Lemma parse_decimal_parts : forall input int_ds input2 frac_ds input3 ex rest,
  JSON.span_digits input = (int_ds, input2) ->
  JSON.valid_int int_ds = true ->
  JSON.parse_fraction input2 = Some (frac_ds, input3) ->
  JSON.parse_exponent input3 = Some (ex, rest) ->
  JSON.parse_decimal input
  = Some (digits_value (int_ds ++ frac_ds),
          (ex - Z.of_nat (length frac_ds))%Z, rest).
Proof.
  intros input int_ds input2 frac_ds input3 ex rest H1 H2 H3 H4.
  unfold JSON.parse_decimal. now rewrite H1, H2, H3, H4.
Qed.

Lemma decimal_result_eq : forall (m m' : N) (e e' : Z) (r : JsStr),
  m = m' -> e = e' -> Some (m, e, r) = Some (m', e', r).
Proof. intros. now subst. Qed.

Lemma repeat_zero_units : forall n,
  repeat 48%N n = map digit_unit (repeat 0%N n).
Proof. intro n. now rewrite map_repeat. Qed.

Lemma parse_decimal_exponent_notation : forall d tl n rest,
  Forall (fun d => (d < 10)%N) (d :: tl) ->
  starts_digit rest = false ->
  JSON.parse_decimal
    (match tl with
     | [] => digit_unit d :: str "e" ++ Number.exponent_part (n - 1)
     | _ :: _ =>
         digit_unit d :: str "." ++ map digit_unit tl
           ++ str "e" ++ Number.exponent_part (n - 1)
     end ++ rest)
  = Some (digits_value (d :: tl), (n - Z.of_nat (length (d :: tl)))%Z, rest).
Proof.
  intros d tl n rest Hall Hnd.
  assert (Hd : Forall (fun d => (d < 10)%N) [d])
    by (constructor; [now apply Forall_inv in Hall|constructor]).
  apply Forall_inv_tail in Hall.
  destruct tl as [|d2 more].
  - change (str "e") with [JSON.cu "e"]. cbn [app].
    rewrite (parse_decimal_parts _ [d]
               (JSON.cu "e" :: Number.exponent_part (n - 1) ++ rest) []
               (JSON.cu "e" :: Number.exponent_part (n - 1) ++ rest)
               (n - 1)%Z rest).
    + apply decimal_result_eq; [reflexivity|simpl length; lia].
    + now apply (span_digits_units [d]).
    + reflexivity.
    + reflexivity.
    + now apply parse_exponent_written.
  - change (str "e") with [JSON.cu "e"]. change (str ".") with [JSON.cu "."].
    cbn [app]. rewrite <- !app_assoc. cbn [app].
    rewrite (parse_decimal_parts _ [d]
               (JSON.cu "." :: map digit_unit (d2 :: more)
                  ++ JSON.cu "e" :: Number.exponent_part (n - 1) ++ rest)
               (d2 :: more)
               (JSON.cu "e" :: Number.exponent_part (n - 1) ++ rest)
               (n - 1)%Z rest).
    + apply decimal_result_eq; [reflexivity|simpl length; lia].
    + now apply (span_digits_units [d]).
    + reflexivity.
    + apply parse_fraction_digits; [discriminate|exact Hall|reflexivity].
    + now apply parse_exponent_written.
Qed.

(** The digits [Number::toString] writes are read back as the same value:
    as the mantissa [s * 10^j] with the exponent lowered by [j]. *)
Lemma parse_decimal_format : forall s n rest,
  Forall (fun d => (d < 10)%N) s ->
  (exists d tl, s = d :: tl /\ d <> 0%N) ->
  ends_number rest = true ->
  exists mant ex j,
    JSON.parse_decimal (Number.format s n ++ rest) = Some (mant, ex, rest)
    /\ (0 <= j)%Z
    /\ Z.of_N mant = (Z.of_N (digits_value s) * 10 ^ j)%Z
    /\ (ex + j = n - Z.of_nat (length s))%Z.
Proof.
  intros s n rest Hall [d [tl [Hs Hd]]] Hrest. subst s.
  pose proof (ends_number_no_digit _ Hrest) as Hnd.
  assert (Hexp :
    exists mant ex j,
      JSON.parse_decimal
        (match tl with
         | [] => digit_unit d :: str "e" ++ Number.exponent_part (n - 1)
         | _ :: _ =>
             digit_unit d :: str "." ++ map digit_unit tl
               ++ str "e" ++ Number.exponent_part (n - 1)
         end ++ rest) = Some (mant, ex, rest)
      /\ (0 <= j)%Z
      /\ Z.of_N mant = (Z.of_N (digits_value (d :: tl)) * 10 ^ j)%Z
      /\ (ex + j = n - Z.of_nat (length (d :: tl)))%Z).
  { exists (digits_value (d :: tl)), (n - Z.of_nat (length (d :: tl)))%Z, 0%Z.
    split; [now apply parse_decimal_exponent_notation|].
    split; [lia|]. split; [simpl (10 ^ 0)%Z; lia|lia]. }
  set (s := d :: tl) in *.
  unfold Number.format.
  destruct (Z.leb_spec (Z.of_nat (length s)) n) as [Hkn|Hkn];
    destruct (Z.leb_spec n 21) as [H21|H21]; cbn [andb].
  - (* digits and zeros *)
    set (t := Z.to_nat (n - Z.of_nat (length s))).
    exists (digits_value (s ++ repeat 0%N t)), 0%Z, (Z.of_nat t).
    split; [|split; [lia|split]].
    + rewrite repeat_zero_units, <- map_app.
      rewrite (parse_decimal_parts _ (s ++ repeat 0%N t) rest [] rest 0%Z rest).
      * now rewrite app_nil_r.
      * apply span_digits_units; [|exact Hnd].
        apply Forall_app. split; [exact Hall|].
        apply Forall_forall. intros x Hx. apply repeat_spec in Hx. subst x. lia.
      * now apply valid_int_nonzero.
      * now apply parse_fraction_end.
      * now apply parse_exponent_end.
    + rewrite digits_value_trailing_zeros, N2Z.inj_mul, N2Z.inj_pow.
      now rewrite nat_N_Z.
    + unfold t. lia.
  - (* exponent notation, large *)
    rewrite andb_false_r.
    destruct (Z.ltb_spec (-6) n) as [H6|H6]; destruct (Z.leb_spec n 0) as [H0|H0];
      cbn [andb]; try lia; exact Hexp.
  - (* digits around the point *)
    destruct (Z.ltb_spec 0 n) as [H0|H0]; cbn [andb].
    + set (i := Z.to_nat n).
      exists (digits_value s), (n - Z.of_nat (length s))%Z, 0%Z.
      split; [|split; [lia|split; [simpl (10 ^ 0)%Z; lia|lia]]].
      change (str ".") with [JSON.cu "."]. rewrite <- !app_assoc. cbn [app].
      assert (Hsplit : firstn i s ++ skipn i s = s) by apply firstn_skipn.
      assert (Hlen : length (skipn i s) = (length s - i)%nat) by apply length_skipn.
      assert (Hall' : Forall (fun d => (d < 10)%N) (firstn i s)
                      /\ Forall (fun d => (d < 10)%N) (skipn i s)).
      { apply Forall_app. now rewrite Hsplit. }
      rewrite (parse_decimal_parts _ (firstn i s)
                 (JSON.cu "." :: map digit_unit (skipn i s) ++ rest)
                 (skipn i s) rest 0%Z rest).
      * rewrite Hsplit, Hlen. apply decimal_result_eq; [reflexivity|unfold i; lia].
      * apply span_digits_units; [tauto|reflexivity].
      * unfold s. destruct i as [|i'] eqn:Ei; [unfold i in Ei; lia|].
        simpl. now apply valid_int_nonzero.
      * apply parse_fraction_digits; [|tauto|exact Hnd].
        intro E. rewrite E in Hlen.
        change (length (@nil N)) with O in Hlen. unfold i in Hlen. lia.
      * now apply parse_exponent_end.
    + destruct (Z.ltb_spec (-6) n) as [H6|H6]; destruct (Z.leb_spec n 0) as [H0'|H0'];
        cbn [andb]; try lia; try exact Hexp.
      (* zero, point, zeros and digits *)
      set (z := Z.to_nat (- n)).
      exists (digits_value s), (n - Z.of_nat (length s))%Z, 0%Z.
      split; [|split; [lia|split; [simpl (10 ^ 0)%Z; lia|lia]]].
      change (str "0.") with [digit_unit 0; JSON.cu "."].
      rewrite repeat_zero_units, <- map_app. cbn [app].
      rewrite (parse_decimal_parts _ [0%N]
                 (JSON.cu "." :: map digit_unit (repeat 0%N z ++ s) ++ rest)
                 (repeat 0%N z ++ s) rest 0%Z rest).
      * change ([0%N] ++ repeat 0%N z ++ s) with (repeat 0%N (S z) ++ s).
        rewrite digits_value_leading_zeros, length_app, repeat_length.
        apply decimal_result_eq; [reflexivity|unfold z; lia].
      * apply (span_digits_units [0%N]); [|reflexivity].
        constructor; [lia|constructor].
      * reflexivity.
      * apply parse_fraction_digits; [| |exact Hnd].
        -- unfold s. destruct (repeat 0%N z); discriminate.
        -- apply Forall_app. split; [|exact Hall].
           apply Forall_forall. intros x Hx. apply repeat_spec in Hx.
           subst x. lia.
      * now apply parse_exponent_end.
  - (* exponent notation *)
    rewrite andb_false_r.
    destruct (Z.ltb_spec (-6) n) as [H6|H6]; destruct (Z.leb_spec n 0) as [H0|H0];
      cbn [andb]; try lia; exact Hexp.
Qed.

Lemma equal_scaled : forall a t j e,
  (0 <= t)%Z -> (0 <= j)%Z ->
  Number.equal (Number.Finite (a * 10 ^ t) e)
               (Number.Finite (a * 10 ^ j) (e + t - j)) = true.
Proof.
  intros a t j e Ht Hj. unfold Number.equal, Number.compare_finite, Number.scale.
  set (e0 := Z.min e (e + t - j)).
  assert (He0 : (e0 <= e /\ e0 <= e + t - j)%Z) by (unfold e0; lia).
  rewrite <- !Z.mul_assoc, <- !Z.pow_add_r by lia.
  replace (j + (e + t - j - e0))%Z with (t + (e - e0))%Z by lia.
  now rewrite Z.compare_refl.
Qed.

Lemma is_digit_not_minus : forall c,
  is_digit c = true -> N.eqb c (JSON.cu "-") = false.
Proof.
  intros c H. unfold is_digit in H. apply andb_true_iff in H.
  destruct H as [H _]. apply N.leb_le in H. apply N.eqb_neq.
  change (JSON.cu "-") with 45%N. lia.
Qed.

Lemma format_starts_digit : forall d tl n,
  (d < 10)%N ->
  exists c r, Number.format (d :: tl) n = c :: r /\ is_digit c = true.
Proof.
  intros d tl n Hd. pose proof (is_digit_unit d Hd) as Hdu.
  unfold Number.format.
  destruct (Z.leb (Z.of_nat (length (d :: tl))) n && Z.leb n 21).
  { simpl. eauto. }
  destruct (Z.ltb_spec 0 n) as [H0|H0]; cbn [andb].
  - destruct (Z.leb n 21).
    + destruct (Z.to_nat n) as [|i] eqn:Ei; [lia|]. simpl. eauto.
    + destruct (Z.ltb (-6) n && Z.leb n 0).
      * simpl. eexists. eexists. split; reflexivity.
      * destruct tl; simpl; eauto.
  - destruct (Z.ltb (-6) n && Z.leb n 0).
    + simpl. eexists. eexists. split; reflexivity.
    + destruct tl; simpl; eauto.
Qed.

Lemma parse_number_negative : forall input,
  JSON.parse_number (JSON.cu "-" :: input)
  = match JSON.parse_decimal input with
    | Some (m, e, rest) => Some (Number.Finite (- Z.of_N m) e, rest)
    | None => None
    end.
Proof. reflexivity. Qed.

Lemma parse_number_positive : forall c input,
  is_digit c = true ->
  JSON.parse_number (c :: input)
  = match JSON.parse_decimal (c :: input) with
    | Some (m, e, rest) => Some (Number.Finite (Z.of_N m) e, rest)
    | None => None
    end.
Proof.
  intros c input H. unfold JSON.parse_number.
  now rewrite (is_digit_not_minus _ H).
Qed.

(** A finite Number written by [Number::toString] is read back by the JSON
    number parser as an equal Number. *)
Lemma parse_number_toString : forall m e rest,
  ends_number rest = true ->
  exists m' e',
    JSON.parse_number (Number.toString (Number.Finite m e) ++ rest)
    = Some (Number.Finite m' e', rest)
    /\ Number.equal (Number.Finite m e) (Number.Finite m' e') = true.
Proof.
  intros m e rest Hrest. unfold Number.toString.
  destruct (Z.eqb_spec m 0) as [->|Hm].
  - exists 0%Z, 0%Z. split.
    + change (str "0") with [digit_unit 0]. cbn [app].
      rewrite parse_number_positive by reflexivity.
      rewrite (parse_decimal_parts _ [0%N] rest [] rest 0%Z rest);
        [reflexivity| |reflexivity| |].
      * apply (span_digits_units [0%N]);
          [constructor; [lia|constructor]|now apply ends_number_no_digit].
      * now apply parse_fraction_end.
      * now apply parse_exponent_end.
    + unfold Number.equal, Number.compare_finite, Number.scale.
      now rewrite !Z.mul_0_l.
  - assert (Hn : Z.abs_N m <> 0%N) by lia.
    destruct (significand_digits (Z.abs_N m) Hn) as [Hval [Hall Hhead]].
    set (ds := digits (Z.abs_N m)) in *.
    set (s := significand ds) in *.
    set (t := (length ds - length s)%nat) in *.
    destruct (parse_decimal_format s
                (Z.of_nat (length s) + (e + Z.of_nat t)) rest Hall Hhead Hrest)
      as [mant [ex [j [Hparse [Hj [Hmant Hex]]]]]].
    assert (Habs : (Z.of_N (digits_value s) * 10 ^ Z.of_nat t)%Z = Z.abs m).
    { rewrite <- N2Z.inj_abs_N, <- Hval, N2Z.inj_mul, N2Z.inj_pow.
      now rewrite nat_N_Z. }
    assert (Hex' : ex = (e + Z.of_nat t - j)%Z) by lia.
    clear Hex. revert Hparse.
    generalize (Z.of_nat (length s) + (e + Z.of_nat t))%Z. intros n Hparse.
    destruct (Z.ltb_spec m 0) as [Hneg|Hpos].
    + exists (- Z.of_N mant)%Z, ex. split.
      * change (str "-") with [JSON.cu "-"]. cbn [app].
        now rewrite parse_number_negative, Hparse.
      * replace m with ((- Z.of_N (digits_value s)) * 10 ^ Z.of_nat t)%Z by lia.
        rewrite Hmant, Hex', <- Z.mul_opp_l.
        apply equal_scaled; lia.
    + exists (Z.of_N mant), ex. split.
      * cbn [app]. destruct Hhead as [d [tl [Hs Hd]]].
        assert (Hd10 : (d < 10)%N)
          by (rewrite Hs in Hall; now apply Forall_inv in Hall).
        destruct (format_starts_digit d tl n Hd10) as [c [r [Hfmt Hc]]].
        rewrite Hs in Hparse. rewrite Hs. rewrite Hfmt in *. cbn [app] in *.
        now rewrite (parse_number_positive _ _ Hc), Hparse.
      * replace m with (Z.of_N (digits_value s) * 10 ^ Z.of_nat t)%Z by lia.
        rewrite Hmant, Hex'.
        apply equal_scaled; lia.
Qed.

(** ** JSON strings *)

Lemma hex_value_digit : forall n,
  (n < 16)%N -> JSON.hex_value (JSON.hex_digit n) = Some n.
Proof.
  intros [|p] Hn; [reflexivity|].
  do 4 (destruct p as [p|p|]; try reflexivity); exfalso; lia.
Qed.

Lemma hex_digits_value : forall c,
  (c < 65536)%N ->
  ((((c / 4096) mod 16 * 16 + (c / 256) mod 16) * 16 + (c / 16) mod 16) * 16
   + c mod 16)%N = c.
Proof.
  intros c Hc.
  pose proof (N.div_mod c 16). pose proof (N.div_mod (c / 16) 16).
  pose proof (N.div_mod (c / 16 / 16) 16).
  pose proof (N.mod_lt c 16). pose proof (N.mod_lt (c / 16) 16).
  pose proof (N.mod_lt (c / 16 / 16) 16).
  assert (E1 : (c / 256 = c / 16 / 16)%N) by (now rewrite N.Div0.div_div).
  assert (E2 : (c / 4096 = c / 16 / 16 / 16)%N) by (now rewrite !N.Div0.div_div).
  assert (H16 : (c / 16 / 16 / 16 < 16)%N).
  { rewrite <- E2. apply N.Div0.div_lt_upper_bound. lia. }
  rewrite E1, E2. rewrite (N.mod_small (c / 16 / 16 / 16) 16) by exact H16.
  lia.
Qed.

Lemma parse_unicode_escape : forall c tail,
  (c < 65536)%N ->
  JSON.parse_string_chars (JSON.UnicodeEscape c ++ tail)
  = parsed_after c (JSON.parse_string_chars tail).
Proof.
  intros c tail Hc. unfold JSON.UnicodeEscape. cbn [app].
  cbn [JSON.parse_string_chars].
  change (N.eqb BACKSLASH QUOTE) with false.
  change (N.eqb BACKSLASH BACKSLASH) with true.
  change (N.eqb (JSON.cu "u") (JSON.cu "u")) with true. cbv iota.
  rewrite !hex_value_digit by (apply N.mod_lt; lia).
  rewrite (hex_digits_value c Hc).
  unfold parsed_after. destruct (JSON.parse_string_chars tail) as [[s r]|];
    reflexivity.
Qed.

Lemma parse_literal_unit : forall c tail,
  (32 <= c)%N -> c <> QUOTE -> c <> BACKSLASH ->
  JSON.parse_string_chars (c :: tail)
  = parsed_after c (JSON.parse_string_chars tail).
Proof.
  intros c tail H32 Hq Hb. cbn [JSON.parse_string_chars].
  apply N.eqb_neq in Hq, Hb. rewrite Hq, Hb.
  assert (Hlt : N.ltb c 32 = false) by (apply N.ltb_ge; lia).
  rewrite Hlt. unfold parsed_after.
  destruct (JSON.parse_string_chars tail) as [[s r]|]; reflexivity.
Qed.

Lemma parse_quote_unit : forall c tail,
  JSON.parse_string_chars (JSON.quote_unit c ++ tail)
  = parsed_after c (JSON.parse_string_chars tail).
Proof.
  intros c tail. unfold JSON.quote_unit.
  destruct (N.eqb_spec c 8) as [->|H8];
    [unfold parsed_after; simpl;
     destruct (JSON.parse_string_chars tail) as [[s r]|]; reflexivity|].
  destruct (N.eqb_spec c 9) as [->|H9];
    [unfold parsed_after; simpl;
     destruct (JSON.parse_string_chars tail) as [[s r]|]; reflexivity|].
  destruct (N.eqb_spec c 10) as [->|H10];
    [unfold parsed_after; simpl;
     destruct (JSON.parse_string_chars tail) as [[s r]|]; reflexivity|].
  destruct (N.eqb_spec c 12) as [->|H12];
    [unfold parsed_after; simpl;
     destruct (JSON.parse_string_chars tail) as [[s r]|]; reflexivity|].
  destruct (N.eqb_spec c 13) as [->|H13];
    [unfold parsed_after; simpl;
     destruct (JSON.parse_string_chars tail) as [[s r]|]; reflexivity|].
  destruct (N.eqb_spec c QUOTE) as [->|Hq];
    [unfold parsed_after; simpl;
     destruct (JSON.parse_string_chars tail) as [[s r]|]; reflexivity|].
  destruct (N.eqb_spec c BACKSLASH) as [->|Hb];
    [unfold parsed_after; simpl;
     destruct (JSON.parse_string_chars tail) as [[s r]|]; reflexivity|].
  destruct (N.ltb_spec c 32) as [H32|H32]; cbn [orb].
  - apply parse_unicode_escape. lia.
  - destruct (JSON.is_high_surrogate c) eqn:Hh; cbn [orb].
    + apply parse_unicode_escape. unfold JSON.is_high_surrogate in Hh.
      apply andb_true_iff in Hh. destruct Hh as [_ Hh]. apply N.leb_le in Hh. lia.
    + destruct (JSON.is_low_surrogate c) eqn:Hl.
      * apply parse_unicode_escape. unfold JSON.is_low_surrogate in Hl.
        apply andb_true_iff in Hl. destruct Hl as [_ Hl]. apply N.leb_le in Hl. lia.
      * cbn [app]. now apply parse_literal_unit.
Qed.

Lemma surrogate_literal : forall c,
  JSON.is_high_surrogate c = true \/ JSON.is_low_surrogate c = true ->
  (32 <= c)%N /\ c <> QUOTE /\ c <> BACKSLASH.
Proof.
  intros c [H|H]; unfold JSON.is_high_surrogate, JSON.is_low_surrogate in H;
    apply andb_true_iff in H; destruct H as [H _]; apply N.leb_le in H;
    unfold QUOTE, BACKSLASH; lia.
Qed.

Lemma quote_units_pair : forall c d r,
  JSON.quote_units (c :: d :: r)
  = if JSON.is_high_surrogate c && JSON.is_low_surrogate d
    then c :: d :: JSON.quote_units r
    else JSON.quote_unit c ++ JSON.quote_units (d :: r).
Proof. reflexivity. Qed.

(** The quoted text of a string is read back as the string. *)
Lemma parse_quote_units : forall s rest,
  JSON.parse_string_chars (JSON.quote_units s ++ QUOTE :: rest) = Some (s, rest).
Proof.
  intros s rest.
  assert (H : forall n s, (length s <= n)%nat ->
              JSON.parse_string_chars (JSON.quote_units s ++ QUOTE :: rest)
              = Some (s, rest)).
  { clear s. induction n as [|n IH]; intros s Hlen.
    - destruct s; [reflexivity|simpl in Hlen; lia].
    - destruct s as [|c [|d r]].
      + reflexivity.
      + cbn [JSON.quote_units]. rewrite parse_quote_unit.
        reflexivity.
      + rewrite quote_units_pair.
        destruct (JSON.is_high_surrogate c && JSON.is_low_surrogate d) eqn:Hp.
        * apply andb_true_iff in Hp. destruct Hp as [Hc Hd].
          destruct (surrogate_literal c (or_introl Hc)) as [C1 [C2 C3]].
          destruct (surrogate_literal d (or_intror Hd)) as [D1 [D2 D3]].
          cbn [app].
          rewrite (parse_literal_unit c _ C1 C2 C3).
          rewrite (parse_literal_unit d _ D1 D2 D3).
          rewrite IH by (simpl in Hlen |- *; lia). reflexivity.
        * rewrite <- app_assoc, parse_quote_unit.
          rewrite IH by (simpl in Hlen |- *; lia). reflexivity. }
  apply (H (length s)). lia.
Qed.

(** ** JSON values *)

Lemma json_text_array : forall items,
  json_text (JsArray items)
  = JSON.cu "[" :: join (str ",") (map json_text items) ++ [JSON.cu "]"].
Proof. reflexivity. Qed.

Lemma serialize_defined : forall v,
  json_value v = true ->
  JSON.SerializeJSONProperty v = Some (json_text v).
Proof. intros v H. unfold json_text. destruct v; try reflexivity. discriminate. Qed.

Lemma json_text_object : forall props,
  forallb (fun kv => json_value (snd kv)) props = true ->
  json_text (JsObject props)
  = JSON.cu "{" :: join (str ",") (map member_text props) ++ [JSON.cu "}"].
Proof.
  intros props H. unfold json_text. cbn [JSON.SerializeJSONProperty].
  f_equal. f_equal. f_equal.
  induction props as [|[k x] props IH]; [reflexivity|].
  cbn [forallb snd] in H. apply andb_true_iff in H. destruct H as [Hx Hps].
  cbn [flat_map map snd fst]. rewrite (serialize_defined x Hx).
  cbn [app]. now rewrite (IH Hps).
Qed.

Lemma deep_equal_array_cons : forall x xs y ys,
  deep_equal (JsArray (x :: xs)) (JsArray (y :: ys))
  = deep_equal x y && deep_equal (JsArray xs) (JsArray ys).
Proof. reflexivity. Qed.

Lemma deep_equal_object : forall ps qs,
  deep_equal (JsObject ps) (JsObject qs)
  = Nat.eqb (length ps) (length qs)
    && forallb (fun kv => match lookup (fst kv) qs with
                          | Some y => deep_equal (snd kv) y
                          | None => false
                          end) ps.
Proof. reflexivity. Qed.

(** *** The first code unit of a value *)

Lemma starts_value_cases : forall c,
  starts_value c = true ->
  (c = 110 \/ c = 116 \/ c = 102 \/ c = 34 \/ c = 91 \/ c = 123 \/ c = 45
   \/ (48 <= c /\ c <= 57))%N.
Proof.
  intros c H. unfold starts_value in H.
  repeat (apply orb_true_iff in H; destruct H as [H|H]);
    try (apply N.eqb_eq in H; subst c; tauto).
  unfold is_digit in H. apply andb_true_iff in H. destruct H as [H1 H2].
  apply N.leb_le in H1, H2. tauto.
Qed.

Lemma starts_value_not_ws : forall c, starts_value c = true -> JSON.is_ws c = false.
Proof.
  intros c H. apply starts_value_cases in H. unfold JSON.is_ws.
  assert (E1 : N.eqb c 9 = false) by (apply N.eqb_neq; lia).
  assert (E2 : N.eqb c 10 = false) by (apply N.eqb_neq; lia).
  assert (E3 : N.eqb c 13 = false) by (apply N.eqb_neq; lia).
  assert (E4 : N.eqb c 32 = false) by (apply N.eqb_neq; lia).
  now rewrite E1, E2, E3, E4.
Qed.

Lemma starts_value_not_closing : forall c,
  starts_value c = true ->
  N.eqb c (JSON.cu "]") = false /\ N.eqb c (JSON.cu "}") = false.
Proof.
  intros c H. apply starts_value_cases in H.
  change (JSON.cu "]") with 93%N. change (JSON.cu "}") with 125%N.
  split; apply N.eqb_neq; lia.
Qed.

Lemma toString_head : forall m e,
  exists c r,
    Number.toString (Number.Finite m e) = c :: r
    /\ N.eqb c (JSON.cu "-") || is_digit c = true.
Proof.
  intros m e. unfold Number.toString.
  destruct (Z.eqb_spec m 0) as [->|Hm].
  - eexists. eexists. split; reflexivity.
  - destruct (Z.ltb_spec m 0) as [Hneg|Hpos].
    + eexists. eexists. split; reflexivity.
    + assert (Hn : Z.abs_N m <> 0%N) by lia.
      destruct (significand_digits (Z.abs_N m) Hn) as [_ [Hall [d [tl [Hs _]]]]].
      rewrite Hs in Hall. apply Forall_inv in Hall. rewrite Hs.
      destruct (format_starts_digit d tl
                  (Z.of_nat (length (d :: tl))
                   + (e + Z.of_nat (length (digits (Z.abs_N m)) - length (d :: tl))))
                  Hall) as [c [r [Hfmt Hc]]].
      rewrite Hfmt. exists c, r. split; [reflexivity|].
      rewrite Hc. apply orb_true_r.
Qed.

Lemma json_text_head : forall v,
  json_value v = true ->
  exists c r, json_text v = c :: r /\ starts_value c = true.
Proof.
  intros v H. destruct v as [| |b|n|s|items|props]; try discriminate.
  - eexists. eexists. split; reflexivity.
  - destruct b; eexists; eexists; split; reflexivity.
  - destruct n as [|neg|m e]; try discriminate.
    destruct (toString_head m e) as [c [r [Ht Hc]]].
    exists c, r. split; [exact Ht|]. unfold starts_value.
    rewrite <- !orb_assoc. rewrite Hc. now rewrite !orb_true_r.
  - eexists. eexists. split; reflexivity.
  - eexists. eexists. split; reflexivity.
  - eexists. eexists. split; reflexivity.
Qed.

(** *** The parser on the first code unit *)

Lemma parse_value_literals : forall f rest,
  JSON.parse_value (S f) (str "null" ++ rest) = Some (JsNull, rest)
  /\ JSON.parse_value (S f) (str "true" ++ rest) = Some (JsBoolean true, rest)
  /\ JSON.parse_value (S f) (str "false" ++ rest) = Some (JsBoolean false, rest).
Proof. intros f rest. repeat split; reflexivity. Qed.

Lemma parse_value_string : forall f input,
  JSON.parse_value (S f) (QUOTE :: input)
  = match JSON.parse_string_chars input with
    | Some (s, r) => Some (JsString s, r)
    | None => None
    end.
Proof. reflexivity. Qed.

Lemma parse_value_array : forall f input,
  JSON.parse_value (S f) (JSON.cu "[" :: input)
  = match JSON.skip_ws input with
    | [] => None
    | d :: rest' =>
        if N.eqb d (JSON.cu "]") then Some (JsArray [], rest')
        else
          match JSON.parse_elements f (d :: rest') with
          | Some (items, r) => Some (JsArray items, r)
          | None => None
          end
    end.
Proof. reflexivity. Qed.

Lemma parse_value_object : forall f input,
  JSON.parse_value (S f) (JSON.cu "{" :: input)
  = match JSON.skip_ws input with
    | [] => None
    | d :: rest' =>
        if N.eqb d (JSON.cu "}") then Some (JsObject [], rest')
        else
          match JSON.parse_members f (d :: rest') with
          | Some (members, r) => Some (JsObject (JSON.define_props members), r)
          | None => None
          end
    end.
Proof. reflexivity. Qed.

Lemma parse_value_number : forall f c input,
  N.eqb c (JSON.cu "-") || is_digit c = true ->
  JSON.parse_value (S f) (c :: input)
  = match JSON.parse_number (c :: input) with
    | Some (n, r) => Some (JsNumber n, r)
    | None => None
    end.
Proof.
  intros f c input H.
  assert (Hc : (c = 45 \/ (48 <= c /\ c <= 57))%N).
  { apply orb_true_iff in H. destruct H as [H|H].
    - apply N.eqb_eq in H. now left.
    - unfold is_digit in H. apply andb_true_iff in H. destruct H as [H1 H2].
      apply N.leb_le in H1, H2. now right. }
  assert (Hws : JSON.is_ws c = false).
  { unfold JSON.is_ws.
    assert (E1 : N.eqb c 9 = false) by (apply N.eqb_neq; lia).
    assert (E2 : N.eqb c 10 = false) by (apply N.eqb_neq; lia).
    assert (E3 : N.eqb c 13 = false) by (apply N.eqb_neq; lia).
    assert (E4 : N.eqb c 32 = false) by (apply N.eqb_neq; lia).
    now rewrite E1, E2, E3, E4. }
  assert (En : N.eqb c (JSON.cu "n") = false)
    by (change (JSON.cu "n") with 110%N; apply N.eqb_neq; lia).
  assert (Et : N.eqb c (JSON.cu "t") = false)
    by (change (JSON.cu "t") with 116%N; apply N.eqb_neq; lia).
  assert (Ef : N.eqb c (JSON.cu "f") = false)
    by (change (JSON.cu "f") with 102%N; apply N.eqb_neq; lia).
  assert (Eq : N.eqb c QUOTE = false)
    by (unfold QUOTE; apply N.eqb_neq; lia).
  assert (Ea : N.eqb c (JSON.cu "[") = false)
    by (change (JSON.cu "[") with 91%N; apply N.eqb_neq; lia).
  assert (Eo : N.eqb c (JSON.cu "{") = false)
    by (change (JSON.cu "{") with 123%N; apply N.eqb_neq; lia).
  cbn [JSON.parse_value JSON.skip_ws]. rewrite Hws.
  now rewrite En, Et, Ef, Eq, Ea, Eo, H.
Qed.

Lemma parse_elements_step : forall f input,
  JSON.parse_elements (S f) input
  = match JSON.parse_value f input with
    | Some (v, rest) =>
        match JSON.skip_ws rest with
        | [] => None
        | c :: rest' =>
            if N.eqb c (JSON.cu ",") then
              match JSON.parse_elements f rest' with
              | Some (vs, r) => Some (v :: vs, r)
              | None => None
              end
            else if N.eqb c (JSON.cu "]") then Some ([v], rest')
            else None
        end
    | None => None
    end.
Proof. reflexivity. Qed.

Lemma parse_members_step : forall f input tail,
  JSON.parse_string_chars input = Some tail ->
  JSON.parse_members (S f) (QUOTE :: input)
  = match JSON.skip_ws (snd tail) with
    | [] => None
    | colon :: rest2 =>
        if N.eqb colon (JSON.cu ":") then
          match JSON.parse_value f rest2 with
          | Some (v, rest3) =>
              match JSON.skip_ws rest3 with
              | [] => None
              | c :: rest4 =>
                  if N.eqb c (JSON.cu ",") then
                    match JSON.parse_members f rest4 with
                    | Some (ms, r) => Some ((fst tail, v) :: ms, r)
                    | None => None
                    end
                  else if N.eqb c (JSON.cu "}") then Some ([(fst tail, v)], rest4)
                  else None
              end
          | None => None
          end
        else None
    end.
Proof.
  intros f input [k rest1] H. cbn [JSON.parse_members JSON.skip_ws].
  change (JSON.is_ws QUOTE) with false. change (N.eqb QUOTE QUOTE) with true.
  cbv iota. rewrite H. reflexivity.
Qed.

Lemma skip_ws_head : forall c input,
  JSON.is_ws c = false -> JSON.skip_ws (c :: input) = c :: input.
Proof. intros c input H. cbn [JSON.skip_ws]. now rewrite H. Qed.

Lemma join_cons : forall (sep p q : JsStr) (more : list JsStr),
  join sep (p :: q :: more) = p ++ sep ++ join sep (q :: more).
Proof. reflexivity. Qed.

(** *** Arrays and objects *)

Lemma parse_elements_text : forall items,
  Forall round_trips items ->
  forallb json_value items = true ->
  items <> [] ->
  forall fuel rest,
    (list_sum (map (fun x => S (parse_cost x)) items) <= fuel)%nat ->
    exists items',
      JSON.parse_elements fuel
        (join (str ",") (map json_text items) ++ JSON.cu "]" :: rest)
      = Some (items', rest)
      /\ deep_equal (JsArray items) (JsArray items') = true.
Proof.
  induction items as [|x xs IH]; intros Hall Hjson Hne fuel rest Hfuel;
    [now elim Hne|].
  cbn [forallb] in Hjson. apply andb_true_iff in Hjson.
  destruct Hjson as [Hx Hxs].
  pose proof (Forall_inv Hall) as Px. pose proof (Forall_inv_tail Hall) as Pxs.
  cbn [map list_sum] in Hfuel.
  destruct fuel as [|f]; [simpl in Hfuel; lia|].
  rewrite parse_elements_step.
  destruct xs as [|y ys].
  - cbn [map join].
    destruct (Px Hx f (JSON.cu "]" :: rest)) as [x' [Hparse Heq]];
      [simpl in Hfuel; lia|reflexivity|].
    rewrite Hparse. exists [x']. split; [reflexivity|].
    rewrite deep_equal_array_cons, Heq. reflexivity.
  - cbn [map]. rewrite join_cons. rewrite <- !app_assoc.
    change (str "," ++ join (str ",") (json_text y :: map json_text ys)
              ++ JSON.cu "]" :: rest)
      with (JSON.cu "," :: join (str ",") (map json_text (y :: ys))
              ++ JSON.cu "]" :: rest).
    destruct (Px Hx f (JSON.cu "," :: join (str ",") (map json_text (y :: ys))
                         ++ JSON.cu "]" :: rest))
      as [x' [Hparse Heq]]; [simpl in Hfuel |- *; lia|reflexivity|].
    rewrite Hparse.
    destruct (IH Pxs Hxs ltac:(discriminate) f rest) as [xs' [Hrest Heqs]];
      [simpl in Hfuel |- *; lia|].
    rewrite (skip_ws_head (JSON.cu ",")) by reflexivity. rewrite N.eqb_refl.
    rewrite Hrest. exists (x' :: xs'). split; [reflexivity|].
    rewrite deep_equal_array_cons, Heq. exact Heqs.
Qed.

Lemma member_text_quote : forall k x tail,
  member_text (k, x) ++ tail
  = QUOTE :: JSON.quote_units k ++ QUOTE :: JSON.cu ":" :: json_text x ++ tail.
Proof.
  intros k x tail. unfold member_text, JSON.QuoteJSONString. cbn [fst snd app].
  rewrite <- !app_assoc. reflexivity.
Qed.

Lemma parse_members_text : forall props,
  Forall (fun kv => round_trips (snd kv)) props ->
  forallb (fun kv => json_value (snd kv)) props = true ->
  props <> [] ->
  forall fuel rest,
    (list_sum (map (fun kv => S (parse_cost (snd kv))) props) <= fuel)%nat ->
    exists members,
      JSON.parse_members fuel
        (join (str ",") (map member_text props) ++ JSON.cu "}" :: rest)
      = Some (members, rest)
      /\ same_members props members.
Proof.
  induction props as [|[k x] ps IH]; intros Hall Hjson Hne fuel rest Hfuel;
    [now elim Hne|].
  cbn [forallb snd] in Hjson. apply andb_true_iff in Hjson.
  destruct Hjson as [Hx Hps].
  pose proof (Forall_inv Hall) as Px. cbn [snd] in Px.
  pose proof (Forall_inv_tail Hall) as Pps.
  cbn [map list_sum snd] in Hfuel.
  destruct fuel as [|f]; [simpl in Hfuel; lia|].
  destruct ps as [|q qs].
  - cbn [map join]. rewrite member_text_quote.
    rewrite (parse_members_step f _ (k, JSON.cu ":" :: json_text x
                                          ++ JSON.cu "}" :: rest))
      by apply parse_quote_units.
    cbn [snd fst].
    rewrite (skip_ws_head (JSON.cu ":")) by reflexivity. rewrite N.eqb_refl.
    destruct (Px Hx f (JSON.cu "}" :: rest)) as [x' [Hparse Heq]];
      [simpl in Hfuel; lia|reflexivity|].
    rewrite Hparse. exists [(k, x')]. split; [reflexivity|].
    constructor; [now split|constructor].
  - cbn [map]. rewrite join_cons. rewrite <- !app_assoc.
    rewrite member_text_quote.
    change (str "," ++ join (str ",") (member_text q :: map member_text qs)
              ++ JSON.cu "}" :: rest)
      with (JSON.cu "," :: join (str ",") (map member_text (q :: qs))
              ++ JSON.cu "}" :: rest).
    rewrite (parse_members_step f _
               (k, JSON.cu ":" :: json_text x
                     ++ JSON.cu "," :: join (str ",") (map member_text (q :: qs))
                     ++ JSON.cu "}" :: rest))
      by apply parse_quote_units.
    cbn [snd fst].
    rewrite (skip_ws_head (JSON.cu ":")) by reflexivity. rewrite N.eqb_refl.
    destruct (Px Hx f (JSON.cu "," :: join (str ",") (map member_text (q :: qs))
                         ++ JSON.cu "}" :: rest))
      as [x' [Hparse Heq]]; [simpl in Hfuel |- *; lia|reflexivity|].
    rewrite Hparse.
    destruct (IH Pps Hps ltac:(discriminate) f rest) as [ms [Hrest Hms]];
      [simpl in Hfuel |- *; lia|].
    rewrite (skip_ws_head (JSON.cu ",")) by reflexivity. rewrite N.eqb_refl.
    rewrite Hrest. exists ((k, x') :: ms). split; [reflexivity|].
    constructor; [now split|exact Hms].
Qed.

(** *** Keys *)

Lemma distinct_NoDup : forall ks, distinct ks = true -> NoDup ks.
Proof.
  induction ks as [|k ks IH]; intro H; [constructor|].
  cbn [distinct] in H. apply andb_true_iff in H. destruct H as [Hk Hks].
  constructor; [|now apply IH].
  intro Hin. apply negb_true_iff in Hk.
  assert (E : existsb (JsStr_eqb k) ks = true).
  { apply existsb_exists. exists k. split; [exact Hin|apply JsStr_eqb_refl]. }
  congruence.
Qed.

Lemma set_prop_fresh : forall props k v,
  ~ In k (map fst props) -> set_prop props k v = props ++ [(k, v)].
Proof.
  induction props as [|[k' v'] props IH]; intros k v Hk; [reflexivity|].
  cbn [set_prop]. cbn [map fst In] in Hk.
  assert (E : JsStr_eqb k' k = false) by (apply JsStr_eqb_neq; tauto).
  rewrite E. cbn [app]. f_equal. apply IH. tauto.
Qed.

Lemma define_props_from : forall members acc,
  NoDup (map fst (acc ++ members)) ->
  fold_left (fun acc kv => set_prop acc (fst kv) (snd kv)) members acc
  = acc ++ members.
Proof.
  induction members as [|[k v] members IH]; intros acc Hnd.
  - now rewrite app_nil_r.
  - cbn [fold_left fst snd]. rewrite set_prop_fresh.
    + rewrite IH; rewrite <- app_assoc; [reflexivity|exact Hnd].
    + rewrite map_app in Hnd. cbn [map fst] in Hnd.
      apply NoDup_remove_2 in Hnd. intro Hin. apply Hnd.
      apply in_or_app. now left.
Qed.

Lemma define_props_distinct : forall members,
  distinct (map fst members) = true -> JSON.define_props members = members.
Proof.
  intros members H. unfold JSON.define_props.
  now rewrite (define_props_from members [] (distinct_NoDup _ H)).
Qed.

Lemma lookup_NoDup_In : forall props k y,
  NoDup (map fst props) -> In (k, y) props -> lookup k props = Some y.
Proof.
  induction props as [|[k' v'] props IH]; intros k y Hnd Hin; [contradiction|].
  cbn [map fst] in Hnd. cbn [lookup]. destruct Hin as [E|Hin].
  - injection E as -> ->. now rewrite JsStr_eqb_refl.
  - assert (Hne : JsStr_eqb k' k = false).
    { apply JsStr_eqb_neq. intros ->. apply NoDup_cons_iff in Hnd.
      apply (proj1 Hnd). apply in_map_iff. exists (k, y). now split. }
    rewrite Hne. apply IH; [|exact Hin]. now apply NoDup_cons_iff in Hnd.
Qed.

Lemma same_members_keys : forall ps qs,
  same_members ps qs -> map fst ps = map fst qs.
Proof.
  intros ps qs H. induction H as [|p q ps qs [Hk _] _ IH]; [reflexivity|].
  cbn [map]. now rewrite Hk, IH.
Qed.

Lemma same_members_In : forall ps qs,
  same_members ps qs ->
  forall p, In p ps ->
  exists y, In (fst p, y) qs /\ deep_equal (snd p) y = true.
Proof.
  intros ps qs H. induction H as [|p q ps qs [Hk He] _ IH]; intros p0 Hin;
    [contradiction|].
  destruct Hin as [->|Hin].
  - exists (snd q). split; [|exact He]. left. rewrite Hk. now destruct q.
  - destruct (IH p0 Hin) as [y [Hy Hd]]. exists y. split; [now right|exact Hd].
Qed.

Lemma deep_equal_members : forall ps qs,
  same_members ps qs ->
  distinct (map fst ps) = true ->
  deep_equal (JsObject ps) (JsObject qs) = true.
Proof.
  intros ps qs H Hd. rewrite deep_equal_object. apply andb_true_iff. split.
  - apply Nat.eqb_eq. apply (Forall2_length H).
  - apply forallb_forall. intros p Hin.
    destruct (same_members_In ps qs H p Hin) as [y [Hy He]].
    rewrite (lookup_NoDup_In qs (fst p) y); [exact He| |exact Hy].
    rewrite <- (same_members_keys ps qs H). now apply distinct_NoDup.
Qed.

Lemma join_head : forall (sep : JsStr) (c : N) (r : JsStr) (more : list JsStr),
  exists r', join sep (@cons JsStr (c :: r) more) = c :: r'.
Proof.
  intros sep c r more. destruct more as [|q more].
  - now exists r.
  - rewrite join_cons. now exists (r ++ sep ++ join sep (q :: more)).
Qed.

(** *** The round trip *)

Theorem json_round_trips : forall v, round_trips v.
Proof.
  apply JsValue_induction; unfold round_trips.
  - discriminate.
  - intros _ fuel rest Hfuel _. destruct fuel as [|f]; [simpl in Hfuel; lia|].
    exists JsNull. split; [apply parse_value_literals|reflexivity].
  - intros b _ fuel rest Hfuel _. destruct fuel as [|f]; [simpl in Hfuel; lia|].
    exists (JsBoolean b). split; [|now destruct b].
    destruct b; apply parse_value_literals.
  - intros [|neg|m e] Hjson fuel rest Hfuel Hrest; try discriminate.
    destruct fuel as [|f]; [simpl in Hfuel; lia|].
    change (json_text (JsNumber (Number.Finite m e)))
      with (Number.toString (Number.Finite m e)).
    destruct (toString_head m e) as [c [r [Ht Hc]]].
    destruct (parse_number_toString m e rest Hrest) as [m' [e' [Hparse Heq]]].
    rewrite Ht in *. cbn [app] in *.
    rewrite (parse_value_number f c _ Hc), Hparse.
    exists (JsNumber (Number.Finite m' e')). split; [reflexivity|exact Heq].
  - intros s _ fuel rest Hfuel _. destruct fuel as [|f]; [simpl in Hfuel; lia|].
    change (json_text (JsString s)) with (QUOTE :: JSON.quote_units s ++ [QUOTE]).
    cbn [app]. rewrite <- app_assoc. cbn [app].
    rewrite parse_value_string, parse_quote_units.
    exists (JsString s). split; [reflexivity|]. apply JsStr_eqb_refl.
  - intros items IH Hjson fuel rest Hfuel _. cbn [json_value] in Hjson.
    cbn [parse_cost] in Hfuel. destruct fuel as [|f]; [lia|].
    rewrite json_text_array. cbn [app]. rewrite <- app_assoc. cbn [app].
    rewrite parse_value_array.
    destruct items as [|x xs].
    + cbn [map join app].
      rewrite (skip_ws_head (JSON.cu "]")) by reflexivity. rewrite N.eqb_refl.
      exists (JsArray []). split; reflexivity.
    + assert (Hx : json_value x = true)
        by (cbn [forallb] in Hjson; now apply andb_true_iff in Hjson).
      destruct (json_text_head x Hx) as [c [r [Ht Hc]]].
      destruct (parse_elements_text (x :: xs) IH Hjson ltac:(discriminate) f rest)
        as [items' [Hparse Heq]]; [lia|].
      revert Hparse. cbn [map]. rewrite Ht.
      destruct (join_head (str ",") c r (map json_text xs)) as [r' ->].
      cbn [app]. intro Hparse.
      rewrite (skip_ws_head c) by now apply starts_value_not_ws.
      rewrite (proj1 (starts_value_not_closing c Hc)), Hparse.
      exists (JsArray items'). split; [reflexivity|exact Heq].
  - intros props IH Hjson fuel rest Hfuel _. cbn [json_value] in Hjson.
    apply andb_true_iff in Hjson. destruct Hjson as [Hkeys Hvalues].
    cbn [parse_cost] in Hfuel. destruct fuel as [|f]; [lia|].
    rewrite (json_text_object props Hvalues).
    cbn [app]. rewrite <- app_assoc. cbn [app].
    rewrite parse_value_object.
    destruct props as [|[k x] ps].
    + cbn [map join app].
      rewrite (skip_ws_head (JSON.cu "}")) by reflexivity. rewrite N.eqb_refl.
      exists (JsObject []). split; reflexivity.
    + destruct (parse_members_text ((k, x) :: ps) IH Hvalues ltac:(discriminate)
                  f rest) as [members [Hparse Hsame]]; [lia|].
      revert Hparse. cbn [map].
      change (member_text (k, x))
        with (QUOTE :: (JSON.quote_units k ++ [QUOTE])
                ++ JSON.cu ":" :: json_text x).
      destruct (join_head (str ",") QUOTE
                  ((JSON.quote_units k ++ [QUOTE]) ++ JSON.cu ":" :: json_text x)
                  (map member_text ps)) as [r' ->].
      cbn [app]. intro Hparse.
      rewrite (skip_ws_head QUOTE) by reflexivity.
      change (N.eqb QUOTE (JSON.cu "}")) with false. cbv iota.
      rewrite Hparse.
      exists (JsObject (JSON.define_props members)). split; [reflexivity|].
      rewrite define_props_distinct
        by (rewrite <- (same_members_keys _ _ Hsame); exact Hkeys).
      now apply deep_equal_members.
Qed.

(** *** Fuel *)

Lemma list_sum_cons : forall a l, list_sum (a :: l) = (a + list_sum l)%nat.
Proof. reflexivity. Qed.

Lemma length_join_elements : forall items,
  Forall (fun x => json_value x = true ->
                   (parse_cost x <= length (json_text x))%nat) items ->
  forallb json_value items = true ->
  (list_sum (map (fun x => S (parse_cost x)) items)
   <= S (length (join (str ",") (map json_text items))))%nat.
Proof.
  induction items as [|x xs IH]; intros Hall Hjson; [simpl; lia|].
  cbn [forallb] in Hjson. apply andb_true_iff in Hjson.
  destruct Hjson as [Hx Hxs].
  pose proof (Forall_inv Hall Hx) as Cx.
  pose proof (IH (Forall_inv_tail Hall) Hxs) as Cxs.
  cbn [map]. rewrite list_sum_cons. destruct xs as [|y ys].
  - cbn [map join]. change (list_sum []) with O. lia.
  - cbn [map] in *. rewrite join_cons, !length_app.
    change (length (str ",")) with 1%nat. lia.
Qed.

Lemma length_member_text : forall kv,
  (length (json_text (snd kv)) <= length (member_text kv))%nat.
Proof.
  intro kv. unfold member_text. rewrite length_app. simpl. lia.
Qed.

Lemma length_join_members : forall props,
  Forall (fun kv => json_value (snd kv) = true ->
                    (parse_cost (snd kv) <= length (json_text (snd kv)))%nat) props ->
  forallb (fun kv => json_value (snd kv)) props = true ->
  (list_sum (map (fun kv => S (parse_cost (snd kv))) props)
   <= S (length (join (str ",") (map member_text props))))%nat.
Proof.
  induction props as [|p ps IH]; intros Hall Hjson; [simpl; lia|].
  cbn [forallb] in Hjson. apply andb_true_iff in Hjson.
  destruct Hjson as [Hp Hps].
  pose proof (Forall_inv Hall Hp) as Cp.
  pose proof (IH (Forall_inv_tail Hall) Hps) as Cps.
  pose proof (length_member_text p) as Lp.
  cbn [map]. rewrite list_sum_cons. destruct ps as [|q qs].
  - cbn [map join]. change (list_sum []) with O. lia.
  - cbn [map] in *. rewrite join_cons, !length_app.
    change (length (str ",")) with 1%nat. lia.
Qed.

Lemma parse_cost_le_text : forall v,
  json_value v = true -> (parse_cost v <= length (json_text v))%nat.
Proof.
  apply (JsValue_induction
           (fun v => json_value v = true ->
                     (parse_cost v <= length (json_text v))%nat)).
  - discriminate.
  - intros _. simpl. lia.
  - intros b H. destruct (json_text_head _ H) as [c [r [-> _]]]. simpl. lia.
  - intros n H. destruct (json_text_head _ H) as [c [r [-> _]]]. simpl. lia.
  - intros s H. destruct (json_text_head _ H) as [c [r [-> _]]]. simpl. lia.
  - intros items IH H. cbn [json_value] in H.
    pose proof (length_join_elements items IH H) as L.
    rewrite json_text_array. cbn [parse_cost length].
    rewrite length_app. simpl length. lia.
  - intros props IH H. cbn [json_value] in H.
    apply andb_true_iff in H. destruct H as [_ H].
    pose proof (length_join_members props IH H) as L.
    rewrite (json_text_object props H). cbn [parse_cost length].
    rewrite length_app. simpl length. lia.
Qed.

(** *** The fuel of [JSON.parse] is enough for every text *)

Lemma skip_ws_length : forall input,
  (length (JSON.skip_ws input) <= length input)%nat.
Proof.
  induction input as [|c input IH]; simpl; [lia|].
  destruct (JSON.is_ws c); simpl; lia.
Qed.

Lemma skip_ws_cons_length : forall input c rest,
  JSON.skip_ws input = c :: rest -> (S (length rest) <= length input)%nat.
Proof.
  intros input c rest H. pose proof (skip_ws_length input) as L.
  rewrite H in L. exact L.
Qed.

Lemma expect_length : forall lit input rest,
  JSON.expect lit input = Some rest -> (length rest <= length input)%nat.
Proof.
  induction lit as [|l lit IH]; intros input rest H.
  - destruct input; injection H as <-; lia.
  - destruct input as [|c input]; [discriminate|]. simpl in H.
    destruct (N.eqb l c); [|discriminate]. apply IH in H. simpl. lia.
Qed.

Lemma parse_string_chars_length : forall input s rest,
  JSON.parse_string_chars input = Some (s, rest) ->
  (length rest <= length input)%nat.
Proof.
  intro input.
  assert (H : forall n input, (length input <= n)%nat ->
              forall s rest, JSON.parse_string_chars input = Some (s, rest) ->
              (length rest <= length input)%nat).
  { clear input. induction n as [|n IH]; intros input Hn s rest Hp.
    - destruct input; [discriminate|simpl in Hn; lia].
    - destruct input as [|c input]; [discriminate|].
      cbn [JSON.parse_string_chars] in Hp. simpl in Hn.
      destruct (N.eqb c QUOTE); [injection Hp as _ <-; simpl; lia|].
      destruct (N.eqb c BACKSLASH).
      + destruct input as [|e input]; [discriminate|]. simpl in Hn.
        destruct (N.eqb e (JSON.cu "u")).
        * destruct input as [|h1 [|h2 [|h3 [|h4 input]]]]; try discriminate.
          simpl in Hn.
          destruct (JSON.hex_value h1); [|discriminate].
          destruct (JSON.hex_value h2); [|discriminate].
          destruct (JSON.hex_value h3); [|discriminate].
          destruct (JSON.hex_value h4); [|discriminate].
          destruct (JSON.parse_string_chars input) as [[s' r']|] eqn:E;
            [|discriminate].
          injection Hp as _ <-. apply IH in E; [simpl; lia|lia].
        * destruct (JSON.unescape e); [|discriminate].
          destruct (JSON.parse_string_chars input) as [[s' r']|] eqn:E;
            [|discriminate].
          injection Hp as _ <-. apply IH in E; [simpl; lia|lia].
      + destruct (N.ltb c 32); [discriminate|].
        destruct (JSON.parse_string_chars input) as [[s' r']|] eqn:E;
          [|discriminate].
        injection Hp as _ <-. apply IH in E; [simpl; lia|lia]. }
  apply (H (length input)). lia.
Qed.

Lemma span_digits_length : forall input ds rest,
  JSON.span_digits input = (ds, rest) -> (length rest <= length input)%nat.
Proof.
  induction input as [|c input IH]; intros ds rest H; simpl in H.
  - injection H as _ <-. simpl. lia.
  - destruct (is_digit c).
    + destruct (JSON.span_digits input) as [ds' r'] eqn:E.
      injection H as _ <-. specialize (IH _ _ eq_refl). simpl. lia.
    + injection H as _ <-. lia.
Qed.

Lemma parse_fraction_length : forall input ds rest,
  JSON.parse_fraction input = Some (ds, rest) ->
  (length rest <= length input)%nat.
Proof.
  intros [|c input] ds rest H; unfold JSON.parse_fraction in H.
  - injection H as _ <-. lia.
  - destruct (N.eqb c (JSON.cu ".")).
    + destruct (JSON.span_digits input) as [ds' r'] eqn:E.
      destruct (JSON.is_nil ds'); [discriminate|]. injection H as _ <-.
      apply span_digits_length in E. simpl. lia.
    + injection H as _ <-. lia.
Qed.

Lemma parse_exponent_length : forall input ex rest,
  JSON.parse_exponent input = Some (ex, rest) ->
  (length rest <= length input)%nat.
Proof.
  intros [|c input] ex rest H; unfold JSON.parse_exponent in H.
  - injection H as _ <-. lia.
  - destruct (N.eqb c (JSON.cu "e") || N.eqb c (JSON.cu "E")).
    + assert (L : forall neg rest1,
                (length rest1 <= length input)%nat ->
                (let (ds, rest2) := JSON.span_digits rest1 in
                 if JSON.is_nil ds then None
                 else Some (if (neg : bool)
                            then (- Z.of_N (digits_value ds))%Z
                            else Z.of_N (digits_value ds), rest2))
                = Some (ex, rest) ->
                (length rest <= length (c :: input))%nat).
      { intros neg rest1 L1 H1.
        destruct (JSON.span_digits rest1) as [ds r2] eqn:E.
        destruct (JSON.is_nil ds); [discriminate|]. injection H1 as _ <-.
        apply span_digits_length in E. simpl. lia. }
      destruct input as [|sg input']; [now apply (L false [])|].
      destruct (N.eqb sg (JSON.cu "-"));
        [apply (L true input'); [simpl; lia|exact H]|].
      destruct (N.eqb sg (JSON.cu "+"));
        [apply (L false input'); [simpl; lia|exact H]|].
      apply (L false (sg :: input')); [lia|exact H].
    + injection H as _ <-. lia.
Qed.

Lemma parse_number_length : forall input n rest,
  JSON.parse_number input = Some (n, rest) ->
  (length rest <= length input)%nat.
Proof.
  intros input n rest H. unfold JSON.parse_number in H.
  assert (L : forall input1 m e,
              JSON.parse_decimal input1 = Some (m, e, rest) ->
              (length rest <= length input1)%nat).
  { intros input1 m e Hd. unfold JSON.parse_decimal in Hd.
    destruct (JSON.span_digits input1) as [ids i2] eqn:E1.
    destruct (JSON.valid_int ids); [|discriminate].
    destruct (JSON.parse_fraction i2) as [[fds i3]|] eqn:E2; [|discriminate].
    destruct (JSON.parse_exponent i3) as [[ex i4]|] eqn:E3; [|discriminate].
    injection Hd as _ _ <-.
    apply span_digits_length in E1. apply parse_fraction_length in E2.
    apply parse_exponent_length in E3. lia. }
  destruct input as [|c input'].
  - destruct (JSON.parse_decimal []) as [[[m e] r]|] eqn:E; [|discriminate].
    injection H as _ <-. now apply L in E.
  - destruct (N.eqb c (JSON.cu "-")).
    + destruct (JSON.parse_decimal input') as [[[m e] r]|] eqn:E; [|discriminate].
      injection H as _ <-. apply L in E. simpl. lia.
    + destruct (JSON.parse_decimal (c :: input')) as [[[m e] r]|] eqn:E;
        [|discriminate].
      injection H as _ <-. now apply L in E.
Qed.

Lemma parse_value_step : forall f input,
  JSON.parse_value (S f) input
  = match JSON.skip_ws input with
    | [] => None
    | c :: rest =>
        if N.eqb c (JSON.cu "n") then
          JSON.with_value (JSON.expect (str "ull") rest) JsNull
        else if N.eqb c (JSON.cu "t") then
          JSON.with_value (JSON.expect (str "rue") rest) (JsBoolean true)
        else if N.eqb c (JSON.cu "f") then
          JSON.with_value (JSON.expect (str "alse") rest) (JsBoolean false)
        else if N.eqb c QUOTE then
          match JSON.parse_string_chars rest with
          | Some (s, r) => Some (JsString s, r)
          | None => None
          end
        else if N.eqb c (JSON.cu "[") then
          match JSON.skip_ws rest with
          | [] => None
          | d :: rest' =>
              if N.eqb d (JSON.cu "]") then Some (JsArray [], rest')
              else
                match JSON.parse_elements f (d :: rest') with
                | Some (items, r) => Some (JsArray items, r)
                | None => None
                end
          end
        else if N.eqb c (JSON.cu "{") then
          match JSON.skip_ws rest with
          | [] => None
          | d :: rest' =>
              if N.eqb d (JSON.cu "}") then Some (JsObject [], rest')
              else
                match JSON.parse_members f (d :: rest') with
                | Some (members, r) =>
                    Some (JsObject (JSON.define_props members), r)
                | None => None
                end
          end
        else if N.eqb c (JSON.cu "-") || is_digit c then
          match JSON.parse_number (c :: rest) with
          | Some (n, r) => Some (JsNumber n, r)
          | None => None
          end
        else None
    end.
Proof. reflexivity. Qed.

Lemma parse_members_unfold : forall f input,
  JSON.parse_members (S f) input
  = match JSON.skip_ws input with
    | [] => None
    | q :: rest =>
        if N.eqb q QUOTE then
          match JSON.parse_string_chars rest with
          | Some (k, rest1) =>
              match JSON.skip_ws rest1 with
              | [] => None
              | colon :: rest2 =>
                  if N.eqb colon (JSON.cu ":") then
                    match JSON.parse_value f rest2 with
                    | Some (v, rest3) =>
                        match JSON.skip_ws rest3 with
                        | [] => None
                        | c :: rest4 =>
                            if N.eqb c (JSON.cu ",") then
                              match JSON.parse_members f rest4 with
                              | Some (ms, r) => Some ((k, v) :: ms, r)
                              | None => None
                              end
                            else if N.eqb c (JSON.cu "}")
                                 then Some ([(k, v)], rest4)
                            else None
                        end
                    | None => None
                    end
                  else None
              end
          | None => None
          end
        else None
    end.
Proof. reflexivity. Qed.

(** What a parser leaves is no longer than what it was given. *)
Lemma parsers_consume : forall f,
  (forall input v rest,
     JSON.parse_value f input = Some (v, rest) ->
     (length rest <= length input)%nat)
  /\ (forall input vs rest,
        JSON.parse_elements f input = Some (vs, rest) ->
        (length rest <= length input)%nat)
  /\ (forall input ms rest,
        JSON.parse_members f input = Some (ms, rest) ->
        (length rest <= length input)%nat).
Proof.
  induction f as [|f [IHv [IHe IHm]]]; [repeat split; discriminate|].
  split; [|split].
  - intros input v rest H. rewrite parse_value_step in H.
    destruct (JSON.skip_ws input) as [|c r0] eqn:E0; [discriminate|].
    apply skip_ws_cons_length in E0.
    assert (Lw : forall (x : JsValue) lit,
              JSON.with_value (JSON.expect lit r0) x = Some (v, rest) ->
              (length rest <= length input)%nat).
    { intros x lit Hw. unfold JSON.with_value in Hw.
      destruct (JSON.expect lit r0) as [r|] eqn:E; [|discriminate].
      injection Hw as _ <-. apply expect_length in E. lia. }
    destruct (N.eqb c (JSON.cu "n")); [now apply Lw in H|].
    destruct (N.eqb c (JSON.cu "t")); [now apply Lw in H|].
    destruct (N.eqb c (JSON.cu "f")); [now apply Lw in H|].
    destruct (N.eqb c QUOTE).
    { destruct (JSON.parse_string_chars r0) as [[s r]|] eqn:E; [|discriminate].
      injection H as _ <-. apply parse_string_chars_length in E. lia. }
    destruct (N.eqb c (JSON.cu "[")).
    { destruct (JSON.skip_ws r0) as [|d r1] eqn:E1; [discriminate|].
      apply skip_ws_cons_length in E1.
      destruct (N.eqb d (JSON.cu "]")); [injection H as _ <-; lia|].
      destruct (JSON.parse_elements f (d :: r1)) as [[items r]|] eqn:E;
        [|discriminate].
      injection H as _ <-. apply IHe in E. simpl in E. lia. }
    destruct (N.eqb c (JSON.cu "{")).
    { destruct (JSON.skip_ws r0) as [|d r1] eqn:E1; [discriminate|].
      apply skip_ws_cons_length in E1.
      destruct (N.eqb d (JSON.cu "}")); [injection H as _ <-; lia|].
      destruct (JSON.parse_members f (d :: r1)) as [[members r]|] eqn:E;
        [|discriminate].
      injection H as _ <-. apply IHm in E. simpl in E. lia. }
    destruct (N.eqb c (JSON.cu "-") || is_digit c); [|discriminate].
    destruct (JSON.parse_number (c :: r0)) as [[n r]|] eqn:E; [|discriminate].
    injection H as _ <-. apply parse_number_length in E. simpl in E. lia.
  - intros input vs rest H. rewrite parse_elements_step in H.
    destruct (JSON.parse_value f input) as [[v r0]|] eqn:E0; [|discriminate].
    apply IHv in E0.
    destruct (JSON.skip_ws r0) as [|c r1] eqn:E1; [discriminate|].
    apply skip_ws_cons_length in E1.
    destruct (N.eqb c (JSON.cu ",")).
    + destruct (JSON.parse_elements f r1) as [[vs' r]|] eqn:E; [|discriminate].
      injection H as _ <-. apply IHe in E. lia.
    + destruct (N.eqb c (JSON.cu "]")); [|discriminate].
      injection H as _ <-. lia.
  - intros input ms rest H. rewrite parse_members_unfold in H.
    destruct (JSON.skip_ws input) as [|q r0] eqn:E0; [discriminate|].
    apply skip_ws_cons_length in E0.
    destruct (N.eqb q QUOTE); [|discriminate].
    destruct (JSON.parse_string_chars r0) as [[k r1]|] eqn:E1; [|discriminate].
    apply parse_string_chars_length in E1.
    destruct (JSON.skip_ws r1) as [|colon r2] eqn:E2; [discriminate|].
    apply skip_ws_cons_length in E2.
    destruct (N.eqb colon (JSON.cu ":")); [|discriminate].
    destruct (JSON.parse_value f r2) as [[v r3]|] eqn:E3; [|discriminate].
    apply IHv in E3.
    destruct (JSON.skip_ws r3) as [|c r4] eqn:E4; [discriminate|].
    apply skip_ws_cons_length in E4.
    destruct (N.eqb c (JSON.cu ",")).
    + destruct (JSON.parse_members f r4) as [[ms' r]|] eqn:E; [|discriminate].
      injection H as _ <-. apply IHm in E. lia.
    + destruct (N.eqb c (JSON.cu "}")); [|discriminate].
      injection H as _ <-. lia.
Qed.

(** More fuel reads the same value. *)
Lemma parsers_monotone : forall f,
  (forall input r,
     JSON.parse_value f input = Some r -> JSON.parse_value (S f) input = Some r)
  /\ (forall input r,
        JSON.parse_elements f input = Some r ->
        JSON.parse_elements (S f) input = Some r)
  /\ (forall input r,
        JSON.parse_members f input = Some r ->
        JSON.parse_members (S f) input = Some r).
Proof.
  induction f as [|f [IHv [IHe IHm]]]; [repeat split; discriminate|].
  split; [|split].
  - intros input r H. rewrite parse_value_step in H. rewrite parse_value_step.
    destruct (JSON.skip_ws input) as [|c r0]; [discriminate|].
    destruct (N.eqb c (JSON.cu "n")); [exact H|].
    destruct (N.eqb c (JSON.cu "t")); [exact H|].
    destruct (N.eqb c (JSON.cu "f")); [exact H|].
    destruct (N.eqb c QUOTE); [exact H|].
    destruct (N.eqb c (JSON.cu "[")).
    { destruct (JSON.skip_ws r0) as [|d r1]; [discriminate|].
      destruct (N.eqb d (JSON.cu "]")); [exact H|].
      destruct (JSON.parse_elements f (d :: r1)) as [x|] eqn:E; [|discriminate].
      now rewrite (IHe _ _ E). }
    destruct (N.eqb c (JSON.cu "{")); [|exact H].
    destruct (JSON.skip_ws r0) as [|d r1]; [discriminate|].
    destruct (N.eqb d (JSON.cu "}")); [exact H|].
    destruct (JSON.parse_members f (d :: r1)) as [x|] eqn:E; [|discriminate].
    now rewrite (IHm _ _ E).
  - intros input r H. rewrite parse_elements_step in H.
    rewrite parse_elements_step.
    destruct (JSON.parse_value f input) as [[v r0]|] eqn:E0; [|discriminate].
    rewrite (IHv _ _ E0).
    destruct (JSON.skip_ws r0) as [|c r1]; [discriminate|].
    destruct (N.eqb c (JSON.cu ",")); [|exact H].
    destruct (JSON.parse_elements f r1) as [x|] eqn:E; [|discriminate].
    now rewrite (IHe _ _ E).
  - intros input r H. rewrite parse_members_unfold in H.
    rewrite parse_members_unfold.
    destruct (JSON.skip_ws input) as [|q r0]; [discriminate|].
    destruct (N.eqb q QUOTE); [|discriminate].
    destruct (JSON.parse_string_chars r0) as [[k r1]|]; [|discriminate].
    destruct (JSON.skip_ws r1) as [|colon r2]; [discriminate|].
    destruct (N.eqb colon (JSON.cu ":")); [|discriminate].
    destruct (JSON.parse_value f r2) as [[v r3]|] eqn:E3; [|discriminate].
    rewrite (IHv _ _ E3).
    destruct (JSON.skip_ws r3) as [|c r4]; [discriminate|].
    destruct (N.eqb c (JSON.cu ",")); [|exact H].
    destruct (JSON.parse_members f r4) as [x|] eqn:E; [|discriminate].
    now rewrite (IHm _ _ E).
Qed.

(** Past twice the length of the input, more fuel changes nothing. *)
Lemma parsers_stable : forall f,
  (forall input,
     (2 * length input + 2 <= f)%nat ->
     JSON.parse_value (S f) input = JSON.parse_value f input)
  /\ (forall input,
        (2 * length input + 3 <= f)%nat ->
        JSON.parse_elements (S f) input = JSON.parse_elements f input)
  /\ (forall input,
        (2 * length input + 3 <= f)%nat ->
        JSON.parse_members (S f) input = JSON.parse_members f input).
Proof.
  induction f as [|f [IHv [IHe IHm]]]; [repeat split; intros; lia|].
  split; [|split].
  - intros input Hf. rewrite !parse_value_step.
    destruct (JSON.skip_ws input) as [|c r0] eqn:E0; [reflexivity|].
    apply skip_ws_cons_length in E0.
    destruct (JSON.skip_ws r0) as [|d r1] eqn:E1; [reflexivity|].
    apply skip_ws_cons_length in E1.
    rewrite (IHe (d :: r1)) by (simpl; lia).
    rewrite (IHm (d :: r1)) by (simpl; lia).
    reflexivity.
  - intros input Hf. rewrite !parse_elements_step.
    rewrite (IHv input) by lia.
    destruct (JSON.parse_value f input) as [[v r0]|] eqn:E0; [|reflexivity].
    apply (proj1 (parsers_consume f)) in E0.
    destruct (JSON.skip_ws r0) as [|c r1] eqn:E1; [reflexivity|].
    apply skip_ws_cons_length in E1.
    rewrite (IHe r1) by lia. reflexivity.
  - intros input Hf. rewrite !parse_members_unfold.
    destruct (JSON.skip_ws input) as [|q r0] eqn:E0; [reflexivity|].
    apply skip_ws_cons_length in E0.
    destruct (N.eqb q QUOTE); [|reflexivity].
    destruct (JSON.parse_string_chars r0) as [[k r1]|] eqn:E1; [|reflexivity].
    apply parse_string_chars_length in E1.
    destruct (JSON.skip_ws r1) as [|colon r2] eqn:E2; [reflexivity|].
    apply skip_ws_cons_length in E2.
    destruct (N.eqb colon (JSON.cu ":")); [|reflexivity].
    rewrite (IHv r2) by lia.
    destruct (JSON.parse_value f r2) as [[v r3]|] eqn:E3; [|reflexivity].
    apply (proj1 (parsers_consume f)) in E3.
    destruct (JSON.skip_ws r3) as [|c r4] eqn:E4; [reflexivity|].
    apply skip_ws_cons_length in E4.
    rewrite (IHm r4) by lia. reflexivity.
Qed.

(** A value read with any fuel is read with the fuel of [JSON.parse]: a
    [None] of [JSON.parse] is a text that is not JSON, never a lack of fuel. *)
Theorem parse_fuel_enough : forall text f r,
  JSON.parse_value f text = Some r ->
  JSON.parse_value (2 * length text + 2) text = Some r.
Proof.
  intros text f r H.
  destruct (Nat.le_gt_cases f (2 * length text + 2)) as [Hle|Hgt].
  - induction Hle as [|m Hle IH]; [exact H|].
    now apply (proj1 (parsers_monotone m)).
  - assert (E : forall k,
               JSON.parse_value (k + (2 * length text + 2)) text
               = JSON.parse_value (2 * length text + 2) text).
    { induction k as [|k IH]; [reflexivity|].
      cbn [Nat.add]. rewrite (proj1 (parsers_stable _)) by lia. exact IH. }
    rewrite <- (E (f - (2 * length text + 2))%nat).
    replace (f - (2 * length text + 2) + (2 * length text + 2))%nat with f by lia.
    exact H.
Qed.

Corollary parse_none_for_every_fuel : forall text,
  JSON.parse text = None ->
  forall f v rest,
    JSON.parse_value f text = Some (v, rest) ->
    JSON.is_nil (JSON.skip_ws rest) = false.
Proof.
  intros text H f v rest Hf. apply parse_fuel_enough in Hf.
  unfold JSON.parse in H. rewrite Hf in H.
  destruct (JSON.is_nil (JSON.skip_ws rest)); [discriminate|reflexivity].
Qed.

(** [JSON.parse] reads the text of a JSON value back as a value deep-equal
    to it. *)
Theorem parse_json_text : forall v,
  json_value v = true ->
  exists v', JSON.parse (json_text v) = Some v' /\ deep_equal v v' = true.
Proof.
  intros v H. pose proof (parse_cost_le_text v H) as Hcost.
  destruct (json_round_trips v H (2 * length (json_text v) + 2) [])
    as [v' [Hparse Heq]]; [lia|reflexivity|].
  rewrite app_nil_r in Hparse. exists v'. split; [|exact Heq].
  unfold JSON.parse. now rewrite Hparse.
Qed.

Section ServiceProperties.

Context (P : Platform).

(** A statement the driver runs without fault. *)
Lemma perform_run : forall s w d rows n,
  fault P w (Executed s) = None ->
  execute s (db w) (now w) = inr (d, rows, n) ->
  perform P s w = (Returned (rows, n), with_db d (record_event (Executed s) w)).
Proof.
  intros s w d rows n Hf He. unfold perform. rewrite Hf, He. reflexivity.
Qed.

Lemma perform_fault : forall s w err,
  fault P w (Executed s) = Some err ->
  perform P s w = (Thrown err, record_event (Executed s) w).
Proof. intros s w err Hf. unfold perform. now rewrite Hf. Qed.

Lemma perform_trace : forall s w,
  trace (snd (perform P s w)) = Executed s :: trace w.
Proof.
  intros s w. unfold perform.
  destruct (fault P w (Executed s)); [reflexivity|].
  destruct (execute s (db w) (now w)) as [err|[[d rows] n]]; reflexivity.
Qed.

(** What [getDb] finds for a worker key. *)
Lemma getDb_safety : forall apiKey w,
  fault P w (Executed (SelectWorkerKeySafety apiKey)) = None ->
  getDb P (SelectWorkerKeySafety apiKey) w
  = (Returned
       match row_of api_key apiKey (worker_keys (db w)) with
       | Some r => JsObject [(str "safety_enabled", safety_enabled r)]
       | None => JsUndefined
       end,
     record_event (Executed (SelectWorkerKeySafety apiKey)) w).
Proof.
  intros apiKey w Hf. unfold getDb, bind.
  rewrite (perform_run _ w _ _ _ Hf eq_refl). unfold ret, row_of. simpl fst.
  rewrite filter_find.
  destruct (filter (has_key api_key apiKey) (worker_keys (db w))); reflexivity.
Qed.

Lemma getWorkerKeySafetySetting_eq : forall apiKey w,
  fault P w (Executed (SelectWorkerKeySafety apiKey)) = None ->
  getWorkerKeySafetySetting P apiKey w
  = (Returned
       match row_of api_key apiKey (worker_keys (db w)) with
       | Some r => strict_equals_number (safety_enabled r) (Number.of_Z 1)
       | None => true
       end,
     record_event (Executed (SelectWorkerKeySafety apiKey)) w).
Proof.
  intros apiKey w Hf. unfold getWorkerKeySafetySetting, bind.
  rewrite (getDb_safety _ _ Hf).
  destruct (row_of api_key apiKey (worker_keys (db w))); reflexivity.
Qed.

Lemma runDb_run : forall s w d rows n,
  fault P w (Executed s) = None ->
  execute s (db w) (now w) = inr (d, rows, n) ->
  runDb P s w
  = (Returned {| changes := n |}, with_db d (record_event (Executed s) w)).
Proof.
  intros s w d rows n Hf He. unfold runDb, bind.
  now rewrite (perform_run _ w _ _ _ Hf He).
Qed.

Lemma runDb_fault : forall s w err,
  fault P w (Executed s) = Some err ->
  runDb P s w = (Thrown err, record_event (Executed s) w).
Proof.
  intros s w err Hf. unfold runDb, bind. now rewrite (perform_fault _ _ _ Hf).
Qed.

Lemma runDb_trace : forall s w,
  trace (snd (runDb P s w)) = Executed s :: trace w.
Proof.
  intros s w. unfold runDb, bind. pose proof (perform_trace s w) as H.
  destruct (perform P s w) as [[r|err] w']; exact H.
Qed.

Lemma syncToGitHub_db : forall w, db (snd (syncToGitHub P w)) = db w.
Proof.
  intro w. unfold syncToGitHub. destruct (fault P w Synced); reflexivity.
Qed.

Lemma syncToGitHub_trace : forall w,
  trace (snd (syncToGitHub P w)) = Synced :: trace w.
Proof.
  intro w. unfold syncToGitHub. destruct (fault P w Synced); reflexivity.
Qed.

(** The write of a mutation followed by the sync: the trace grows. *)
Lemma write_then_sync_trace : forall s w,
  trace (snd ((runDb P s ;;; syncToGitHub P) w)) <> trace w.
Proof.
  intros s w. unfold bind. pose proof (runDb_trace s w) as Hr.
  destruct (runDb P s w) as [[r|err] w1]; simpl in *.
  - rewrite syncToGitHub_trace, Hr. intro H.
    apply (f_equal (@length Event)) in H. simpl in H. lia.
  - rewrite Hr. intro H.
    apply (f_equal (@length Event)) in H. simpl in H. lia.
Qed.

(** *** Worker keys *)

Lemma find_updated_safety : forall apiKey se rows,
  find (has_key api_key apiKey)
    (map (fun r => if has_key api_key apiKey r
                   then {| api_key := api_key r;
                           description := description r;
                           safety_enabled := se;
                           created_at := created_at r |}
                   else r) rows)
  = match find (has_key api_key apiKey) rows with
    | Some r => Some {| api_key := api_key r;
                        description := description r;
                        safety_enabled := se;
                        created_at := created_at r |}
    | None => None
    end.
Proof.
  intros apiKey se rows. induction rows as [|r rows IH]; simpl; [reflexivity|].
  destruct (has_key api_key apiKey r) eqn:E; simpl.
  - unfold has_key in *. simpl. now rewrite E.
  - now rewrite E.
Qed.

Lemma matching_zero_find : forall {R} (pk : R -> JsStr) k rows,
  matching pk k rows <> 0%N -> find (has_key pk k) rows <> None.
Proof.
  intros R pk k rows H. rewrite filter_find. unfold matching in H.
  destruct (filter (has_key pk k) rows); [now elim H|discriminate].
Qed.

(** C7: [getWorkerKeySafetySetting] returns true for an API key without a
    stored row, and false after [updateWorkerKeySafety(apiKey, false)] has
    succeeded. *)
Theorem worker_key_safety_default_and_update : forall apiKey w,
  (forall w', fault P w' (Executed (SelectWorkerKeySafety apiKey)) = None) ->
  (row_of api_key apiKey (worker_keys (db w)) = None ->
   outcome (getWorkerKeySafetySetting P apiKey) w = Returned true)
  /\ (outcome (updateWorkerKeySafety P apiKey (JsBoolean false)) w = Returned tt ->
      outcome (getWorkerKeySafetySetting P apiKey)
        (world_after (updateWorkerKeySafety P apiKey (JsBoolean false)) w)
      = Returned false).
Proof.
  intros apiKey w Hsel. unfold outcome, world_after. split.
  - intro Hrow. rewrite (getWorkerKeySafetySetting_eq _ _ (Hsel w)).
    now rewrite Hrow.
  - rewrite getWorkerKeySafetySetting_eq by apply Hsel. simpl fst.
    unfold updateWorkerKeySafety, bind. cbn [ToBoolean].
    destruct (fault P w (Executed (UpdateWorkerKeySafety (num 0) apiKey)))
      as [err|] eqn:Hf.
    + rewrite (runDb_fault _ _ _ Hf). discriminate.
    + rewrite (runDb_run _ w _ _ _ Hf eq_refl). cbn [changes].
      destruct (N.eqb_spec (matching api_key apiKey (worker_keys (db w))) 0)
        as [Hz|Hz]; [discriminate|].
      intros _. rewrite syncToGitHub_db. simpl. unfold row_of.
      rewrite find_updated_safety.
      pose proof (matching_zero_find api_key apiKey _ Hz) as Hfind.
      destruct (find (has_key api_key apiKey) (worker_keys (db w)));
        [reflexivity|now elim Hfind].
Qed.

(** C10: when a row exists for the API key, [getWorkerKeySafetySetting]
    returns whether its stored [safety_enabled] is the number 1: false for
    anything else, such as 0 or [null]; the default true has no part in it
    and is left to the case of no row. *)
Theorem worker_key_safety_of_stored_row : forall apiKey w row,
  fault P w (Executed (SelectWorkerKeySafety apiKey)) = None ->
  row_of api_key apiKey (worker_keys (db w)) = Some row ->
  outcome (getWorkerKeySafetySetting P apiKey) w
  = Returned (strict_equals_number (safety_enabled row) (Number.of_Z 1))
  /\ (strict_equals_number (safety_enabled row) (Number.of_Z 1) = false ->
      outcome (getWorkerKeySafetySetting P apiKey) w = Returned false).
Proof.
  intros apiKey w row Hf Hrow. unfold outcome.
  rewrite (getWorkerKeySafetySetting_eq _ _ Hf), Hrow. split; [reflexivity|].
  now intros ->.
Qed.

(** *** Model configuration *)

Lemma normalize_quota_cases : forall q,
  normalize_quota P q = JsNull
  \/ exists n, normalize_quota P q = JsNumber n.
Proof.
  intro q. unfold normalize_quota.
  destruct (is_undefined q || is_null q); [now left|right; eauto].
Qed.

Lemma less_than_zero_null : less_than P JsNull (num 0) = false.
Proof. reflexivity. Qed.

Lemma less_than_zero_number : forall n,
  less_than P (JsNumber n) (num 0) = Number.lessThan n (Number.of_Z 0).
Proof. reflexivity. Qed.

Lemma less_than_zero_negative_quota : forall q,
  less_than P (normalize_quota P q) (num 0) = true
  <-> negative_quota (normalize_quota P q).
Proof.
  intro q. unfold negative_quota.
  destruct (normalize_quota_cases q) as [E|[n E]]; rewrite E.
  - rewrite less_than_zero_null. split; [discriminate|].
    intros [n [H _]]. discriminate.
  - rewrite less_than_zero_number, lessThan_zero_negative. split.
    + intro H. exists n. now split.
    + intros [n' [H Hn]]. now injection H as ->.
Qed.

Lemma not_integer_test : forall q,
  negb (is_null q) && negb (Number_isInteger q) = true <-> non_integer_quota q.
Proof.
  intro q. unfold non_integer_quota. destruct q; simpl;
    try (split; [intros _; split; [discriminate|intros n0 H; discriminate]
                |reflexivity]).
  - split; [discriminate|]. intros [H _]. now elim H.
  - rewrite negb_true_iff, isInteger_not_integer. split.
    + intro H. split; [discriminate|]. intros n0 E. now injection E as <-.
    + intros [_ H]. now apply H.
Qed.

Lemma daily_quota_test : forall category q,
  JsStr_eqb category (str "Custom") && negb (is_null q)
    && negb (Number_isInteger q) = true
  <-> category = str "Custom" /\ non_integer_quota q.
Proof.
  intros category q.
  rewrite <- andb_assoc, andb_true_iff, JsStr_eqb_eq, not_integer_test.
  reflexivity.
Qed.

Lemma individual_quota_test : forall category q,
  (JsStr_eqb category (str "Pro") || JsStr_eqb category (str "Flash"))
    && negb (is_null q) && negb (Number_isInteger q) = true
  <-> (category = str "Pro" \/ category = str "Flash") /\ non_integer_quota q.
Proof.
  intros category q.
  rewrite <- andb_assoc, andb_true_iff, orb_true_iff, !JsStr_eqb_eq,
    not_integer_test.
  reflexivity.
Qed.

(** C2: [setModelConfig] raises a validation error, before any storage
    access, exactly when the policy rejects the normalized quotas: a
    non-integer daily quota under Custom, a non-integer individual quota
    under Pro or Flash, or a negative quota under any category. *)
Theorem setModelConfig_validation_exact :
  forall modelId category dailyQuota individualQuota w,
    validation_rejects category (normalize_quota P dailyQuota)
      (normalize_quota P individualQuota)
    <-> exists err,
          validation_error err
          /\ setModelConfig P modelId category dailyQuota individualQuota w
             = (Thrown err, w).
Proof.
  intros modelId category dailyQuota individualQuota w.
  unfold validation_rejects, setModelConfig.
  pose proof (daily_quota_test category (normalize_quota P dailyQuota)) as Hd.
  pose proof (less_than_zero_negative_quota dailyQuota) as Hdn.
  pose proof (individual_quota_test category (normalize_quota P individualQuota)) as Hi.
  pose proof (less_than_zero_negative_quota individualQuota) as Hin.
  destruct (JsStr_eqb category (str "Custom")
            && negb (is_null (normalize_quota P dailyQuota))
            && negb (Number_isInteger (normalize_quota P dailyQuota))) eqn:E1;
  destruct (less_than P (normalize_quota P dailyQuota) (num 0)) eqn:E2;
  cbn [orb];
  try (split;
       [intros _; eexists; split; [left; reflexivity|reflexivity]
       |intros _; tauto]).
  destruct ((JsStr_eqb category (str "Pro") || JsStr_eqb category (str "Flash"))
            && negb (is_null (normalize_quota P individualQuota))
            && negb (Number_isInteger (normalize_quota P individualQuota))) eqn:E3;
  destruct (less_than P (normalize_quota P individualQuota) (num 0)) eqn:E4;
  cbn [orb];
  try (split;
       [intros _; eexists; split; [right; reflexivity|reflexivity]
       |intros _; tauto]).
  split.
  - intros [H|[H|[H|H]]].
    + apply Hd in H. discriminate.
    + apply Hdn in H. discriminate.
    + apply Hi in H. discriminate.
    + apply Hin in H. discriminate.
  - intros [err [_ H]]. exfalso.
    apply (write_then_sync_trace
             (UpsertModelConfig modelId category
                (normalize_quota P dailyQuota)
                (normalize_quota P individualQuota)) w).
    now rewrite H.
Qed.

(** What the write followed by the sync throws was raised by the storage
    statement or by the sync. *)
Lemma write_then_sync_thrown : forall s w err,
  outcome (runDb P s ;;; syncToGitHub P) w = Thrown err ->
  fault P w (Executed s) = Some err
  \/ execute s (db w) (now w) = inl err
  \/ exists w1, fault P w1 Synced = Some err.
Proof.
  intros s w err. unfold outcome, bind, runDb, bind, perform.
  destruct (fault P w (Executed s)) as [e|].
  - simpl. intro H. injection H as ->. now left.
  - destruct (execute s (db w) (now w)) as [e|[[d rows] n]].
    + simpl. intro H. injection H as ->. right. now left.
    + unfold ret, syncToGitHub.
      match goal with
      | |- context [fault P ?w1 Synced] =>
          destruct (fault P w1 Synced) as [e|] eqn:E
      end.
      * simpl. intro H. injection H as ->. right. right. eauto.
      * discriminate.
Qed.

(** C9: with both quotas [null] or [undefined], [setModelConfig] passes
    validation under every category string: it goes on to the storage
    write, and whatever it throws was raised by the driver or by the sync. *)
Theorem setModelConfig_null_quotas_pass_validation :
  forall modelId category dailyQuota individualQuota w,
    (dailyQuota = JsNull \/ dailyQuota = JsUndefined) ->
    (individualQuota = JsNull \/ individualQuota = JsUndefined) ->
    setModelConfig P modelId category dailyQuota individualQuota w
    = (runDb P (UpsertModelConfig modelId category JsNull JsNull) ;;;
       syncToGitHub P) w
    /\ trace (world_after
                (setModelConfig P modelId category dailyQuota individualQuota) w)
       <> trace w
    /\ (forall err,
          outcome (setModelConfig P modelId category dailyQuota individualQuota) w
          = Thrown err ->
          fault P w (Executed (UpsertModelConfig modelId category JsNull JsNull))
          = Some err
          \/ exists w1, fault P w1 Synced = Some err).
Proof.
  intros modelId category dailyQuota individualQuota w Hd Hi.
  assert (E : setModelConfig P modelId category dailyQuota individualQuota w
              = (runDb P (UpsertModelConfig modelId category JsNull JsNull) ;;;
                 syncToGitHub P) w).
  { unfold setModelConfig.
    assert (Ed : normalize_quota P dailyQuota = JsNull)
      by (destruct Hd; subst; reflexivity).
    assert (Ei : normalize_quota P individualQuota = JsNull)
      by (destruct Hi; subst; reflexivity).
    rewrite Ed, Ei. cbn [is_null negb]. rewrite !andb_false_r.
    rewrite less_than_zero_null. reflexivity. }
  split; [exact E|]. split.
  - unfold world_after. rewrite E. apply write_then_sync_trace.
  - intros err H. unfold outcome in H. rewrite E in H.
    destruct (write_then_sync_thrown _ _ _ H) as [Hf|[He|Hs]].
    + now left.
    + discriminate.
    + now right.
Qed.

Lemma normalized_quota_ok : forall category q,
  (JsStr_eqb category (str "Custom")
   && negb (is_null (normalize_quota P q))
   && negb (Number_isInteger (normalize_quota P q)))
  || less_than P (normalize_quota P q) (num 0) = false ->
  normalize_quota P q = JsNull
  \/ exists n, normalize_quota P q = JsNumber n
               /\ ~ negative n
               /\ (category = str "Custom" -> integer n).
Proof.
  intros category q H. apply orb_false_iff in H. destruct H as [Hint Hneg].
  destruct (normalize_quota_cases q) as [E|[n E]]; [now left|right].
  rewrite E in *. exists n. split; [reflexivity|]. split.
  - rewrite less_than_zero_number in Hneg.
    now apply lessThan_zero_not_negative.
  - intro Hc. apply JsStr_eqb_eq in Hc. rewrite Hc in Hint. simpl in Hint.
    apply negb_false_iff in Hint. now apply isInteger_integer.
Qed.

(** One call of [setModelConfig] keeps what holds of every stored daily
    quota. *)
Lemma setModelConfig_keeps_daily_quota_ok :
  forall modelId category dailyQuota individualQuota w,
    Forall stored_daily_quota_ok (models_config (db w)) ->
    Forall stored_daily_quota_ok
      (models_config
         (db (world_after
                (setModelConfig P modelId category dailyQuota individualQuota) w))).
Proof.
  intros modelId category dailyQuota individualQuota w Hw.
  unfold world_after, setModelConfig.
  destruct ((JsStr_eqb category (str "Custom")
             && negb (is_null (normalize_quota P dailyQuota))
             && negb (Number_isInteger (normalize_quota P dailyQuota)))
            || less_than P (normalize_quota P dailyQuota) (num 0)) eqn:E1;
    [exact Hw|].
  destruct (((JsStr_eqb category (str "Pro") || JsStr_eqb category (str "Flash"))
             && negb (is_null (normalize_quota P individualQuota))
             && negb (Number_isInteger (normalize_quota P individualQuota)))
            || less_than P (normalize_quota P individualQuota) (num 0));
    [exact Hw|].
  unfold bind.
  destruct (fault P w
              (Executed (UpsertModelConfig modelId category
                           (normalize_quota P dailyQuota)
                           (normalize_quota P individualQuota))))
    as [err|] eqn:Hf.
  - rewrite (runDb_fault _ _ _ Hf). exact Hw.
  - rewrite (runDb_run _ w _ _ _ Hf eq_refl). rewrite syncToGitHub_db. simpl.
    apply Forall_app. split.
    + unfold without. rewrite Forall_forall in *. intros r Hr.
      apply filter_In in Hr. now apply Hw.
    + constructor; [|constructor]. unfold stored_daily_quota_ok. simpl.
      now apply normalized_quota_ok.
Qed.

(** C3, as the code has it: after any sequence of [setModelConfig] calls,
    with any category strings and any quota arguments, every stored
    [dailyQuota] is [null] or a Number that is not negative, and it is an
    integer when the category is Custom. *)
Theorem stored_daily_quota_invariant : forall calls t,
  Forall stored_daily_quota_ok
    (models_config (db (after_calls P calls (initial_world t)))).
Proof.
  intros calls t. unfold after_calls.
  assert (H0 : Forall stored_daily_quota_ok (models_config (db (initial_world t))))
    by constructor.
  revert H0. generalize (initial_world t).
  induction calls as [|c calls IH]; intros w Hw; simpl; [exact Hw|].
  apply IH. now apply setModelConfig_keeps_daily_quota_ok.
Qed.

(** *** Write, then sync *)

Lemma write_then_sync_returned : forall s w w',
  (runDb P s ;;; syncToGitHub P) w = (Returned tt, w') ->
  trace w' = Synced :: Executed s :: trace w.
Proof.
  intros s w w'. unfold bind. pose proof (runDb_trace s w) as Hr.
  destruct (runDb P s w) as [[r|err] w1]; simpl in Hr; [|discriminate].
  intro H. rewrite <- Hr, <- syncToGitHub_trace. now rewrite H.
Qed.

Lemma write_then_sync_failure : forall s w r w1 err,
  runDb P s w = (Returned r, w1) ->
  fault P w1 Synced = Some err ->
  (runDb P s ;;; syncToGitHub P) w = (Thrown err, record_event Synced w1).
Proof.
  intros s w r w1 err Hr Hf. unfold bind. rewrite Hr.
  unfold syncToGitHub. now rewrite Hf.
Qed.

Lemma setSetting_syncs : forall key value w w',
  setSetting P key value false w = (Returned tt, w') ->
  exists s, trace w' = Synced :: Executed s :: trace w.
Proof.
  intros key value w w' H. unfold setSetting in H. cbn [negb] in H. eexists. apply (write_then_sync_returned _ _ _ H).
Qed.

Lemma setModelConfig_syncs : forall modelId category dq iq w w',
  setModelConfig P modelId category dq iq w = (Returned tt, w') ->
  exists s, trace w' = Synced :: Executed s :: trace w.
Proof.
  intros modelId category dq iq w w' H. unfold setModelConfig in H.
  destruct (_ || less_than P (normalize_quota P dq) (num 0)); [discriminate|].
  destruct (_ || less_than P (normalize_quota P iq) (num 0)); [discriminate|].
  eexists. apply (write_then_sync_returned _ _ _ H).
Qed.

Lemma checked_write_syncs : forall s msg w w',
  (result <- runDb P s ;;
   if N.eqb (changes result) 0 then throw (Error msg) else syncToGitHub P) w
  = (Returned tt, w') ->
  trace w' = Synced :: Executed s :: trace w.
Proof.
  intros s msg w w'. unfold bind. pose proof (runDb_trace s w) as Hr.
  destruct (runDb P s w) as [[r|err] w1]; simpl in Hr; [|discriminate].
  destruct (N.eqb (changes r) 0); [discriminate|].
  intro H. rewrite <- Hr, <- syncToGitHub_trace. now rewrite H.
Qed.

Lemma deleteModelConfig_syncs : forall modelId w w',
  deleteModelConfig P modelId w = (Returned tt, w') ->
  exists s, trace w' = Synced :: Executed s :: trace w.
Proof.
  intros modelId w w' H. eexists. apply (checked_write_syncs _ _ _ _ H).
Qed.

Lemma updateWorkerKeySafety_syncs : forall apiKey safetyEnabled w w',
  updateWorkerKeySafety P apiKey safetyEnabled w = (Returned tt, w') ->
  exists s, trace w' = Synced :: Executed s :: trace w.
Proof.
  intros apiKey safetyEnabled w w' H. eexists.
  apply (checked_write_syncs _ _ _ _ H).
Qed.

Lemma setCategoryQuotas_syncs : forall proQuota flashQuota w w',
  setCategoryQuotas P proQuota flashQuota w = (Returned tt, w') ->
  exists s, trace w' = Synced :: Executed s :: trace w.
Proof.
  intros proQuota flashQuota w w' H. unfold setCategoryQuotas in H.
  destruct (_ || less_than P flashQuota (num 0)); [discriminate|].
  now apply setSetting_syncs in H.
Qed.

Lemma setGitHubConfig_syncs : forall repo token dbPath encryptKey w w',
  setGitHubConfig P repo token dbPath encryptKey w = (Returned tt, w') ->
  exists s, trace w' = Synced :: Executed s :: trace w.
Proof.
  intros repo token dbPath encryptKey w w' H. unfold setGitHubConfig in H.
  now apply setSetting_syncs in H.
Qed.

Lemma addWorkerKey_syncs : forall apiKey description w w',
  addWorkerKey P apiKey description w = (Returned tt, w') ->
  exists s, trace w' = Synced :: Executed s :: trace w.
Proof.
  intros apiKey description w w'. unfold addWorkerKey, try_catch.
  destruct ((runDb P (InsertWorkerKey apiKey description (num 1)) ;;;
             syncToGitHub P) w) as [[[]|err] w1] eqn:E.
  - intro H. injection H as <-. eexists.
    apply (write_then_sync_returned _ _ _ E).
  - destruct (match code err with
              | Some c => JsStr_eqb c (str "SQLITE_CONSTRAINT")
              | None => false
              end); discriminate.
Qed.

(** A failure of the sync after the write is the failure of the mutation. *)
Lemma setSetting_sync_failure : forall key value w r w1 err,
  runDb P (UpsertSetting key
             (if structured value
              then match JSON.stringify value with
                   | Some text => JsString text
                   | None => JsUndefined
                   end
              else JsString (ToString value))) w = (Returned r, w1) ->
  fault P w1 Synced = Some err ->
  outcome (setSetting P key value false) w = Thrown err.
Proof.
  intros key value w r w1 err Hr Hf. unfold outcome, setSetting.
  cbn [negb]. fold (structured value).
  now rewrite (write_then_sync_failure _ _ _ _ _ Hr Hf).
Qed.

(** C1, where the code departs from it: [deleteWorkerKey] deletes the row
    and returns without invoking the sync, which every other mutation
    invokes after its write. *)
Theorem deleteWorkerKey_returns_without_sync : forall apiKey w,
  fault P w (Executed (DeleteWorkerKey apiKey)) = None ->
  has_row api_key apiKey (worker_keys (db w)) = true ->
  deleteWorkerKey P apiKey w
  = (Returned tt,
     {| db := {| settings := settings (db w);
                 models_config := models_config (db w);
                 worker_keys := without api_key apiKey (worker_keys (db w)) |};
        now := now w;
        trace := Executed (DeleteWorkerKey apiKey) :: trace w |}).
Proof.
  intros apiKey w Hf Hrow. apply existsb_row_of in Hrow.
  unfold deleteWorkerKey, bind.
  rewrite (runDb_run _ w _ _ _ Hf eq_refl). cbn [changes].
  destruct (N.eqb_spec (matching api_key apiKey (worker_keys (db w))) 0)
    as [Hz|Hz]; [|reflexivity].
  exfalso. apply Hrow. unfold row_of. rewrite filter_find.
  unfold matching in Hz.
  destruct (filter (has_key api_key apiKey) (worker_keys (db w)));
    [reflexivity|discriminate].
Qed.

Lemma deleteWorkerKey_trace : forall apiKey w,
  trace (world_after (deleteWorkerKey P apiKey) w)
  = Executed (DeleteWorkerKey apiKey) :: trace w.
Proof.
  intros apiKey w. unfold world_after, deleteWorkerKey, bind.
  pose proof (runDb_trace (DeleteWorkerKey apiKey) w) as Hr.
  destruct (runDb P (DeleteWorkerKey apiKey) w) as [[r|err] w1]; [|exact Hr].
  destruct (N.eqb (changes r) 0); exact Hr.
Qed.

(** *** Adding a worker key *)

Lemma perform_error : forall s w err,
  fault P w (Executed s) = None ->
  execute s (db w) (now w) = inl err ->
  perform P s w = (Thrown err, record_event (Executed s) w).
Proof. intros s w err Hf He. unfold perform. now rewrite Hf, He. Qed.

Lemma find_appended : forall {R} (pk : R -> JsStr) k rows r,
  row_of pk k rows = None -> pk r = k ->
  row_of pk k (rows ++ [r]) = Some r
  /\ matching pk k (rows ++ [r]) = 1%N.
Proof.
  intros R pk k rows r Hnone Hk. unfold row_of, matching in *.
  rewrite filter_find in *. rewrite filter_app. simpl.
  unfold has_key at 2 4. rewrite Hk, JsStr_eqb_refl.
  destruct (filter (has_key pk k) rows); [split; reflexivity|discriminate].
Qed.

Lemma addWorkerKey_duplicate : forall apiKey description w,
  fault P w (Executed (InsertWorkerKey apiKey description (num 1))) = None ->
  row_of api_key apiKey (worker_keys (db w)) <> None ->
  addWorkerKey P apiKey description w
  = (Thrown (Conflict apiKey),
     record_event (Executed (InsertWorkerKey apiKey description (num 1))) w).
Proof.
  intros apiKey description w Hf Hrow. apply existsb_row_of in Hrow.
  unfold addWorkerKey, try_catch, bind, runDb, bind.
  rewrite (perform_error _ w SQLITE_CONSTRAINT Hf).
  - reflexivity.
  - simpl. now rewrite Hrow.
Qed.

Lemma addWorkerKey_returned : forall apiKey description w,
  outcome (addWorkerKey P apiKey description) w = Returned tt ->
  row_of api_key apiKey (worker_keys (db w)) = None
  /\ worker_keys (db (world_after (addWorkerKey P apiKey description) w))
     = worker_keys (db w) ++ [new_worker_key apiKey description (now w)].
Proof.
  intros apiKey description w. unfold outcome, world_after.
  unfold addWorkerKey, try_catch, bind, runDb, bind, perform.
  destruct (fault P w (Executed (InsertWorkerKey apiKey description (num 1))))
    as [err|].
  - destruct (match code err with
              | Some c => JsStr_eqb c (str "SQLITE_CONSTRAINT")
              | None => false
              end); discriminate.
  - simpl execute.
    destruct (existsb (has_key api_key apiKey) (worker_keys (db w))) eqn:E.
    + discriminate.
    + apply existsb_false_row_of in E. unfold ret.
      match goal with
      | |- context [syncToGitHub P ?w1] =>
          pose proof (syncToGitHub_db w1) as Hdb;
          destruct (syncToGitHub P w1) as [[[]|err] w2]
      end.
      * intros _. split; [exact E|]. simpl in *. now rewrite Hdb.
      * destruct (match code err with
                  | Some c => JsStr_eqb c (str "SQLITE_CONSTRAINT")
                  | None => false
                  end); discriminate.
Qed.

(** C6: [addWorkerKey] fails with the Conflict error when the key exists
    and leaves the store as it was; any other storage error is re-raised
    unchanged; on success the key is stored once, with safety enabled; a
    second insert of the same key fails and the store still holds exactly
    one row for it. *)
Theorem addWorkerKey_conflict_and_success : forall apiKey description w,
  (fault P w (Executed (InsertWorkerKey apiKey description (num 1))) = None ->
   has_row api_key apiKey (worker_keys (db w)) = true ->
   outcome (addWorkerKey P apiKey description) w = Thrown (Conflict apiKey)
   /\ db (world_after (addWorkerKey P apiKey description) w) = db w)
  /\ (forall err,
        fault P w (Executed (InsertWorkerKey apiKey description (num 1))) = Some err ->
        is_constraint_error err = false ->
        outcome (addWorkerKey P apiKey description) w = Thrown err)
  /\ (outcome (addWorkerKey P apiKey description) w = Returned tt ->
      let w1 := world_after (addWorkerKey P apiKey description) w in
      row_of api_key apiKey (worker_keys (db w1))
      = Some (new_worker_key apiKey description (now w))
      /\ matching api_key apiKey (worker_keys (db w1)) = 1%N
      /\ (fault P w1 (Executed (InsertWorkerKey apiKey description (num 1))) = None ->
          let w2 := world_after (addWorkerKey P apiKey description) w1 in
          outcome (addWorkerKey P apiKey description) w1 = Thrown (Conflict apiKey)
          /\ matching api_key apiKey (worker_keys (db w2)) = 1%N)).
Proof.
  intros apiKey description w. split; [|split].
  - intros Hf Hrow. apply existsb_row_of in Hrow. unfold outcome, world_after.
    now rewrite (addWorkerKey_duplicate _ _ _ Hf Hrow).
  - intros err Hf Hc. unfold outcome, addWorkerKey, try_catch, bind.
    rewrite (runDb_fault _ _ _ Hf). fold (is_constraint_error err).
    now rewrite Hc.
  - intros Hret w1. destruct (addWorkerKey_returned _ _ _ Hret) as [Hnone Hw1].
    fold w1 in Hw1.
    destruct (find_appended api_key apiKey (worker_keys (db w))
                (new_worker_key apiKey description (now w)) Hnone eq_refl)
      as [Hrow Hcount].
    rewrite Hw1. split; [exact Hrow|]. split; [exact Hcount|].
    intros Hf w2.
    assert (Hex : row_of api_key apiKey (worker_keys (db w1)) <> None)
      by (rewrite Hw1, Hrow; discriminate).
    unfold outcome, w2, world_after.
    rewrite (addWorkerKey_duplicate _ _ _ Hf Hex). simpl.
    split; [reflexivity|]. now rewrite Hw1.
Qed.

(** *** Settings *)

Lemma getDb_setting : forall key w,
  fault P w (Executed (SelectSettingValue key)) = None ->
  getDb P (SelectSettingValue key) w
  = (Returned
       match row_of settings_key key (settings (db w)) with
       | Some r => JsObject [(str "value", settings_value r)]
       | None => JsUndefined
       end,
     record_event (Executed (SelectSettingValue key)) w).
Proof.
  intros key w Hf. unfold getDb, bind.
  rewrite (perform_run _ w _ _ _ Hf eq_refl). unfold ret, row_of. simpl fst.
  rewrite filter_find.
  destruct (filter (has_key settings_key key) (settings (db w))); reflexivity.
Qed.

Lemma getSetting_absent : forall key defaultValue w,
  fault P w (Executed (SelectSettingValue key)) = None ->
  row_of settings_key key (settings (db w)) = None ->
  outcome (getSetting P key defaultValue) w
  = Returned (if is_undefined defaultValue then JsNull else defaultValue).
Proof.
  intros key defaultValue w Hf Hrow. unfold outcome, getSetting, bind.
  rewrite (getDb_setting _ _ Hf), Hrow. reflexivity.
Qed.

Lemma getSetting_present : forall key defaultValue w r,
  fault P w (Executed (SelectSettingValue key)) = None ->
  row_of settings_key key (settings (db w)) = Some r ->
  outcome (getSetting P key defaultValue) w
  = Returned match JSON.parse (ToString (settings_value r)) with
             | Some parsed => parsed
             | None => settings_value r
             end.
Proof.
  intros key defaultValue w r Hf Hrow. unfold outcome, getSetting, bind.
  rewrite (getDb_setting _ _ Hf), Hrow.
  change (optional_member (JsObject [(str "value", settings_value r)]) (str "value"))
    with (settings_value r).
  cbn [ToBoolean negb].
  destruct (JSON.parse (ToString (settings_value r))); reflexivity.
Qed.

Lemma find_upserted : forall {R} (pk : R -> JsStr) k rows r,
  pk r = k -> row_of pk k (without pk k rows ++ [r]) = Some r.
Proof.
  intros R pk k rows r Hk. unfold row_of, without.
  induction rows as [|x rows IH]; simpl.
  - unfold has_key. now rewrite Hk, JsStr_eqb_refl.
  - destruct (has_key pk k x) eqn:E; simpl; [exact IH|].
    now rewrite E.
Qed.

Lemma setSetting_stored : forall key value skipSync w,
  fault P w (Executed (UpsertSetting key (value_to_store value))) = None ->
  row_of settings_key key
    (settings (db (world_after (setSetting P key value skipSync) w)))
  = Some {| settings_key := key; settings_value := value_to_store value |}.
Proof.
  intros key value skipSync w Hf. unfold world_after, setSetting.
  fold (structured value). fold (value_to_store value). unfold bind.
  rewrite (runDb_run _ w _ _ _ Hf eq_refl).
  assert (E : forall w1,
             db (snd ((if negb skipSync then syncToGitHub P else ret tt) w1))
             = db w1).
  { intro w1. destruct skipSync; simpl; [reflexivity|apply syncToGitHub_db]. }
  rewrite E. simpl. now apply find_upserted.
Qed.

(** What [getSetting] yields after [setSetting]: the stored text parsed
    as JSON, or the stored text itself when it is not JSON. *)
Lemma setSetting_getSetting : forall key value skipSync w,
  storage_reliable P ->
  outcome (getSetting P key JsNull)
    (world_after (setSetting P key value skipSync) w)
  = Returned match JSON.parse (ToString (value_to_store value)) with
             | Some parsed => parsed
             | None => value_to_store value
             end.
Proof.
  intros key value skipSync w HP.
  rewrite (getSetting_present _ _ _ _ (HP _ _)
             (setSetting_stored key value skipSync w (HP _ _))).
  reflexivity.
Qed.

(** *** Category quotas *)

(** C8: without a stored category-quota setting [getCategoryQuotas]
    returns 50 and 1500; when the stored value has one Number field and
    the other field is not a Number, the Number is kept and only the
    other field takes its default. *)
Theorem getCategoryQuotas_field_defaults : forall w,
  fault P w (Executed (SelectSettingValue (str "category_quotas"))) = None ->
  (row_of settings_key (str "category_quotas") (settings (db w)) = None ->
   outcome (getCategoryQuotas P) w = Returned (quotas_object (num 50) (num 1500)))
  /\ (forall r stored,
        row_of settings_key (str "category_quotas") (settings (db w)) = Some r ->
        JSON.parse (ToString (settings_value r)) = Some stored ->
        (forall p,
           optional_member stored (str "proQuota") = JsNumber p ->
           is_number (optional_member stored (str "flashQuota")) = false ->
           outcome (getCategoryQuotas P) w
           = Returned (quotas_object (JsNumber p) (num 1500)))
        /\ (forall f,
              is_number (optional_member stored (str "proQuota")) = false ->
              optional_member stored (str "flashQuota") = JsNumber f ->
              outcome (getCategoryQuotas P) w
              = Returned (quotas_object (num 50) (JsNumber f)))).
Proof.
  intros w Hf. split.
  - intro Hrow.
    pose proof (getSetting_absent (str "category_quotas") default_quotas w Hf Hrow)
      as Hget.
    unfold outcome in *. unfold getCategoryQuotas, bind.
    destruct (getSetting P (str "category_quotas") default_quotas w)
      as [o w1]. simpl in Hget. subst o. reflexivity.
  - intros r stored Hrow Hparse.
    pose proof (getSetting_present (str "category_quotas") default_quotas w r Hf Hrow)
      as Hget.
    rewrite Hparse in Hget.
    unfold outcome in *. unfold getCategoryQuotas, bind.
    destruct (getSetting P (str "category_quotas") default_quotas w)
      as [o w1]. simpl in Hget. subst o. unfold ret. cbn [fst].
    unfold is_number. split.
    + intros p Hp Hfl. now rewrite Hp, Hfl.
    + intros f Hpr Hfl. now rewrite Hfl, Hpr.
Qed.

(** C5, where the code departs from it: NaN is a Number and is not less
    than zero, so [setCategoryQuotas(NaN, 10)] passes the validation,
    succeeds, and stores [null] for the Pro quota. *)
Theorem setCategoryQuotas_accepts_NaN : forall w,
  fault P w (Executed (UpsertSetting (str "category_quotas")
                         (JsString nan_quotas_text))) = None ->
  (forall w', fault P w' Synced = None) ->
  outcome (setCategoryQuotas P (JsNumber Number.NaN) (num 10)) w = Returned tt
  /\ row_of settings_key (str "category_quotas")
       (settings (db (world_after
                        (setCategoryQuotas P (JsNumber Number.NaN) (num 10)) w)))
     = Some {| settings_key := str "category_quotas";
               settings_value := JsString nan_quotas_text |}.
Proof.
  intros w Hf Hsync.
  assert (E : setCategoryQuotas P (JsNumber Number.NaN) (num 10)
              = setSetting P (str "category_quotas")
                  (quotas_object (JsNumber Number.NaN) (num 10)) false)
    by reflexivity.
  rewrite E. split.
  - unfold outcome, setSetting, bind.
    change (runDb P _ w)
      with (runDb P (UpsertSetting (str "category_quotas")
                       (JsString nan_quotas_text)) w).
    rewrite (runDb_run _ w _ _ _ Hf eq_refl). cbn [negb].
    unfold syncToGitHub. now rewrite Hsync.
  - apply (setSetting_stored (str "category_quotas")
             (quotas_object (JsNumber Number.NaN) (num 10)) false w Hf).
Qed.

(** What the validation of [setCategoryQuotas] does reject, with the
    store left as it was. *)
Lemma setCategoryQuotas_rejects : forall proQuota flashQuota w,
  is_number proQuota = false \/ is_number flashQuota = false
  \/ negative_quota proQuota \/ negative_quota flashQuota ->
  setCategoryQuotas P proQuota flashQuota w
  = (Thrown (Error (str "Quotas must be non-negative numbers.")), w).
Proof.
  intros proQuota flashQuota w H. unfold setCategoryQuotas.
  fold (is_number proQuota). fold (is_number flashQuota).
  assert (E : negb (is_number proQuota) || negb (is_number flashQuota)
              || less_than P proQuota (num 0)
              || less_than P flashQuota (num 0) = true).
  { destruct H as [H|[H|[[n [-> H]]|[n [-> H]]]]].
    - now rewrite H.
    - rewrite H. simpl. now rewrite orb_true_r.
    - rewrite less_than_zero_number.
      apply lessThan_zero_negative in H. rewrite H.
      now rewrite orb_true_r.
    - rewrite less_than_zero_number.
      apply lessThan_zero_negative in H. rewrite H.
      now rewrite !orb_true_r. }
  now rewrite E.
Qed.

(** Finite quotas that are not negative are stored floored. *)
Lemma setCategoryQuotas_stores_floor : forall m1 e1 m2 e2,
  (0 <= m1)%Z -> (0 <= m2)%Z ->
  setCategoryQuotas P (JsNumber (Number.Finite m1 e1)) (JsNumber (Number.Finite m2 e2))
  = setSetting P (str "category_quotas")
      (quotas_object (JsNumber (Number.floor (Number.Finite m1 e1)))
                     (JsNumber (Number.floor (Number.Finite m2 e2))))
      false.
Proof.
  intros m1 e1 m2 e2 H1 H2. unfold setCategoryQuotas.
  rewrite !less_than_zero_number.
  assert (N1 : Number.lessThan (Number.Finite m1 e1) (Number.of_Z 0) = false)
    by (apply lessThan_zero_not_negative; simpl; lia).
  assert (N2 : Number.lessThan (Number.Finite m2 e2) (Number.of_Z 0) = false)
    by (apply lessThan_zero_not_negative; simpl; lia).
  rewrite N1, N2. reflexivity.
Qed.

(** *** Settings: write, then read *)

(** C4, as the code has it: after [setSetting(k, v)], [getSetting(k, null)]
    returns a value deep-equal to [v] when [v] is a structured value that
    JSON text can represent; and returns the same string when [v] is a
    string that is not itself JSON text. *)
Theorem setSetting_getSetting_round_trip : forall key value skipSync w,
  storage_reliable P ->
  (structured value = true -> json_value value = true ->
   exists read,
     outcome (getSetting P key JsNull)
       (world_after (setSetting P key value skipSync) w) = Returned read
     /\ deep_equal value read = true)
  /\ (forall s,
        value = JsString s -> JSON.parse s = None ->
        outcome (getSetting P key JsNull)
          (world_after (setSetting P key value skipSync) w)
        = Returned (JsString s)).
Proof.
  intros key value skipSync w HP.
  rewrite (setSetting_getSetting key value skipSync w HP). split.
  - intros Hs Hj. unfold value_to_store, JSON.stringify.
    rewrite Hs, (serialize_defined value Hj). cbn [ToString].
    destruct (parse_json_text value Hj) as [read [Hparse Heq]].
    rewrite Hparse. now exists read.
  - intros s -> Hparse. unfold value_to_store.
    change (structured (JsString s)) with false. cbn [ToString].
    now rewrite Hparse.
Qed.

(** *** Reading a setting *)

Lemma getSetting_eq : forall key defaultValue w,
  fault P w (Executed (SelectSettingValue key)) = None ->
  getSetting P key defaultValue w
  = (Returned
       match row_of settings_key key (settings (db w)) with
       | None => default_or_null defaultValue
       | Some r =>
           match JSON.parse (ToString (settings_value r)) with
           | Some parsed => parsed
           | None => settings_value r
           end
       end,
     record_event (Executed (SelectSettingValue key)) w).
Proof.
  intros key defaultValue w Hf. unfold getSetting, bind.
  rewrite (getDb_setting _ _ Hf).
  destruct (row_of settings_key key (settings (db w))) as [r|]; [|reflexivity].
  change (optional_member (JsObject [(str "value", settings_value r)]) (str "value"))
    with (settings_value r).
  cbn [ToBoolean negb].
  destruct (JSON.parse (ToString (settings_value r))); reflexivity.
Qed.

(** X1: when the driver runs the query, [getSetting] returns and never
    throws: the default ([null] when none is given) for a key without a
    row, and the stored text as it is when the text is not JSON; the store
    is left as it was and no sync is invoked. *)
Theorem getSetting_returns_default_or_raw_text : forall key defaultValue w,
  fault P w (Executed (SelectSettingValue key)) = None ->
  exists v,
    getSetting P key defaultValue w
    = (Returned v, record_event (Executed (SelectSettingValue key)) w)
    /\ (row_of settings_key key (settings (db w)) = None ->
        v = default_or_null defaultValue)
    /\ (forall r,
          row_of settings_key key (settings (db w)) = Some r ->
          JSON.parse (ToString (settings_value r)) = None ->
          v = settings_value r).
Proof.
  intros key defaultValue w Hf. rewrite (getSetting_eq _ _ _ Hf).
  eexists. split; [reflexivity|]. split.
  - intros ->. reflexivity.
  - intros r -> ->. reflexivity.
Qed.

(** *** Writing a setting *)

Lemma setSetting_db : forall key value skipSync w,
  fault P w (Executed (UpsertSetting key (value_to_store value))) = None ->
  db (world_after (setSetting P key value skipSync) w)
  = with_setting key (value_to_store value) (db w).
Proof.
  intros key value skipSync w Hf. unfold world_after, setSetting.
  fold (structured value). fold (value_to_store value). unfold bind.
  rewrite (runDb_run _ w _ _ _ Hf eq_refl).
  destruct skipSync; cbn [negb]; [reflexivity|]. now rewrite syncToGitHub_db.
Qed.

(** X2: with [skipSync] set, [setSetting] writes the row and returns
    without invoking the sync, whatever the sync would have done: the
    only event is the storage statement. *)
Theorem setSetting_skipSync_never_syncs : forall key value w,
  fault P w (Executed (UpsertSetting key (value_to_store value))) = None ->
  setSetting P key value true w
  = (Returned tt,
     {| db := with_setting key (value_to_store value) (db w);
        now := now w;
        trace := Executed (UpsertSetting key (value_to_store value)) :: trace w |}).
Proof.
  intros key value w Hf. unfold setSetting.
  fold (structured value). fold (value_to_store value). unfold bind.
  now rewrite (runDb_run _ w _ _ _ Hf eq_refl).
Qed.

Lemma parse_finite_number : forall n,
  Number.isFinite n = true ->
  exists n',
    JSON.parse (Number.toString n) = Some (JsNumber n')
    /\ Number.equal n n' = true.
Proof.
  intros n Hn.
  destruct (parse_json_text (JsNumber n) Hn) as [v' [Hparse Heq]].
  unfold json_text in Hparse. cbn [JSON.SerializeJSONProperty] in Hparse.
  rewrite Hn in Hparse.
  destruct v' as [| | |n'| | |]; try discriminate.
  exists n'. split; [exact Hparse|exact Heq].
Qed.

(** X3: a primitive that is not a string is stored as [String(value)] and
    read back through [JSON.parse]: a finite Number comes back as an equal
    Number, a boolean and [null] as themselves, while [undefined] and NaN
    come back as the strings "undefined" and "NaN". *)
Theorem setSetting_getSetting_primitives : forall key skipSync w,
  storage_reliable P ->
  (forall n,
     Number.isFinite n = true ->
     exists n',
       outcome (getSetting P key JsNull)
         (world_after (setSetting P key (JsNumber n) skipSync) w)
       = Returned (JsNumber n')
       /\ Number.equal n n' = true)
  /\ (forall b,
        outcome (getSetting P key JsNull)
          (world_after (setSetting P key (JsBoolean b) skipSync) w)
        = Returned (JsBoolean b))
  /\ outcome (getSetting P key JsNull)
       (world_after (setSetting P key JsNull skipSync) w)
     = Returned JsNull
  /\ outcome (getSetting P key JsNull)
       (world_after (setSetting P key JsUndefined skipSync) w)
     = Returned (JsString (str "undefined"))
  /\ outcome (getSetting P key JsNull)
       (world_after (setSetting P key (JsNumber Number.NaN) skipSync) w)
     = Returned (JsString (str "NaN")).
Proof.
  intros key skipSync w HP. repeat split.
  - intros n Hn. rewrite (setSetting_getSetting key _ skipSync w HP).
    destruct (parse_finite_number n Hn) as [n' [Hparse Heq]].
    exists n'. split; [|exact Heq].
    change (value_to_store (JsNumber n)) with (JsString (Number.toString n)).
    cbn [ToString]. now rewrite Hparse.
  - intro b. rewrite (setSetting_getSetting key _ skipSync w HP).
    now destruct b.
  - now rewrite (setSetting_getSetting key _ skipSync w HP).
  - now rewrite (setSetting_getSetting key _ skipSync w HP).
  - now rewrite (setSetting_getSetting key _ skipSync w HP).
Qed.

Lemma find_upserted_other : forall {R} (pk : R -> JsStr) k other rows r,
  pk r = k -> other <> k ->
  row_of pk other (without pk k rows ++ [r]) = row_of pk other rows.
Proof.
  intros R pk k other rows r Hk Hne. unfold row_of, without.
  induction rows as [|x rows IH]; simpl.
  - unfold has_key. rewrite Hk.
    assert (E : JsStr_eqb k other = false)
      by (apply JsStr_eqb_neq; congruence).
    now rewrite E.
  - destruct (has_key pk k x) eqn:Ek; simpl.
    + unfold has_key in Ek. apply JsStr_eqb_eq in Ek.
      assert (E : has_key pk other x = false).
      { unfold has_key. apply JsStr_eqb_neq. congruence. }
      now rewrite E.
    + destruct (has_key pk other x); [reflexivity|exact IH].
Qed.

(** X4: writing the setting [key] does not change what [getSetting]
    returns for any other key. *)
Theorem setSetting_leaves_other_keys : forall key other value skipSync defaultValue w,
  storage_reliable P ->
  other <> key ->
  outcome (getSetting P other defaultValue)
    (world_after (setSetting P key value skipSync) w)
  = outcome (getSetting P other defaultValue) w.
Proof.
  intros key other value skipSync defaultValue w HP Hne. unfold outcome.
  rewrite !getSetting_eq by apply HP. cbn [fst].
  rewrite (setSetting_db key value skipSync w (HP _ _)).
  cbn [with_setting settings].
  now rewrite (find_upserted_other settings_key key other (settings (db w))
                 {| settings_key := key; settings_value := value_to_store value |}
                 eq_refl Hne).
Qed.

(** *** Model configuration: write, read, delete *)

Lemma fold_left_map_rows : forall {A B C} (f : A -> B -> A) (g : C -> B) l a,
  fold_left f (map g l) a = fold_left (fun a x => f a (g x)) l a.
Proof.
  intros A B C f g l. induction l as [|x l IH]; intro a; [reflexivity|].
  simpl. apply IH.
Qed.

Lemma getModelsConfig_eq : forall w,
  fault P w (Executed SelectModelsConfig) = None ->
  getModelsConfig P w
  = (Returned (JsObject (models_object (models_config (db w)))),
     record_event (Executed SelectModelsConfig) w).
Proof.
  intros w Hf. unfold getModelsConfig, allDb, bind.
  rewrite (perform_run _ w _ _ _ Hf eq_refl). unfold ret. cbn [fst].
  rewrite fold_left_map_rows. reflexivity.
Qed.

Lemma lookup_set_prop : forall props k k' v,
  lookup k' (set_prop props k v)
  = if JsStr_eqb k k' then Some v else lookup k' props.
Proof.
  induction props as [|[k0 v0] props IH]; intros k k' v; [reflexivity|].
  cbn [set_prop]. destruct (JsStr_eqb k0 k) eqn:E0.
  - apply JsStr_eqb_eq in E0. subst k0. cbn [lookup].
    now destruct (JsStr_eqb k k').
  - cbn [lookup]. rewrite IH. destruct (JsStr_eqb k0 k') eqn:E1; [|reflexivity].
    apply JsStr_eqb_eq in E1. subst k'.
    assert (E : JsStr_eqb k k0 = false).
    { apply JsStr_eqb_neq. apply JsStr_eqb_neq in E0. congruence. }
    now rewrite E.
Qed.

Lemma lookup_models_object : forall rows k,
  lookup k (models_object rows)
  = match last_row_of model_id k rows with
    | Some r =>
        Some (model_entry (category r) (daily_quota r) (individual_quota r))
    | None => None
    end.
Proof.
  intros rows k. unfold models_object, last_row_of.
  induction rows as [|r rows IH] using rev_ind; [reflexivity|].
  rewrite fold_left_app, rev_unit. cbn [fold_left find].
  rewrite lookup_set_prop. unfold has_key at 1.
  destruct (JsStr_eqb (model_id r) k); [reflexivity|exact IH].
Qed.

Lemma find_without_same : forall {R} (pk : R -> JsStr) k l,
  find (has_key pk k) (filter (fun r => negb (has_key pk k r)) l) = None.
Proof.
  intros R pk k l. induction l as [|x l IH]; [reflexivity|].
  simpl. destruct (has_key pk k x) eqn:E; simpl; [exact IH|].
  now rewrite E.
Qed.

Lemma find_without_other : forall {R} (pk : R -> JsStr) k other l,
  other <> k ->
  find (has_key pk other) (filter (fun r => negb (has_key pk k r)) l)
  = find (has_key pk other) l.
Proof.
  intros R pk k other l Hne. induction l as [|x l IH]; [reflexivity|].
  simpl. destruct (has_key pk k x) eqn:Ek; simpl.
  - unfold has_key in Ek. apply JsStr_eqb_eq in Ek.
    assert (E : has_key pk other x = false).
    { unfold has_key. apply JsStr_eqb_neq. congruence. }
    now rewrite E.
  - destruct (has_key pk other x); [reflexivity|exact IH].
Qed.

Lemma last_row_of_without : forall {R} (pk : R -> JsStr) k rows,
  last_row_of pk k (without pk k rows) = None.
Proof.
  intros R pk k rows. unfold last_row_of, without.
  rewrite <- filter_rev. apply find_without_same.
Qed.

Lemma last_row_of_without_other : forall {R} (pk : R -> JsStr) k other rows,
  other <> k ->
  last_row_of pk other (without pk k rows) = last_row_of pk other rows.
Proof.
  intros R pk k other rows Hne. unfold last_row_of, without.
  rewrite <- filter_rev. now apply find_without_other.
Qed.




Lemma without_absent : forall {R} (pk : R -> JsStr) k rows,
  has_row pk k rows = false ->
  without pk k rows = rows /\ matching pk k rows = 0%N.
Proof.
  intros R pk k rows. unfold has_row, without, matching.
  induction rows as [|x rows IH]; simpl; [now split|].
  destruct (has_key pk k x); simpl; [discriminate|].
  intro H. destruct (IH H) as [E1 E2]. split; [now rewrite E1|exact E2].
Qed.

(** A delete or update that changes no row: the not-found error, nothing
    written and no sync. *)
Lemma checked_write_not_found : forall s msg (k : Async unit) w rows,
  fault P w (Executed s) = None ->
  execute s (db w) (now w) = inr (db w, rows, 0%N) ->
  fails_at
    (result <- runDb P s ;;
     if N.eqb (changes result) 0 then throw (Error msg) else k)
    w s (Error msg).
Proof.
  intros s msg k w rows Hf He. unfold fails_at, bind.
  rewrite (runDb_run _ w _ _ _ Hf He). reflexivity.
Qed.

Lemma database_eta : forall d,
  {| settings := settings d; models_config := models_config d;
     worker_keys := worker_keys d |} = d.
Proof. now destruct d. Qed.

(** X6: [deleteModelConfig] of a model that has no row fails with the
    not-found error naming the model; nothing is deleted and the sync is
    not invoked. *)
Theorem deleteModelConfig_not_found : forall modelId w,
  fault P w (Executed (DeleteModelConfig modelId)) = None ->
  has_row model_id modelId (models_config (db w)) = false ->
  fails_at (deleteModelConfig P modelId) w (DeleteModelConfig modelId)
    (Error (str "Model '" ++ modelId ++ str "' not found for deletion.")).
Proof.
  intros modelId w Hf Hrow. destruct (without_absent _ _ _ Hrow) as [E1 E2].
  apply (checked_write_not_found _ _ _ _ [] Hf).
  cbn [execute]. now rewrite E1, E2, database_eta.
Qed.

Lemma checked_write_returned : forall s msg (k : Async unit) w,
  (forall w1, db (snd (k w1)) = db w1) ->
  outcome
    (result <- runDb P s ;;
     if N.eqb (changes result) 0 then throw (Error msg) else k) w
  = Returned tt ->
  exists d rows n,
    execute s (db w) (now w) = inr (d, rows, n)
    /\ n <> 0%N
    /\ db (world_after
             (result <- runDb P s ;;
              if N.eqb (changes result) 0 then throw (Error msg) else k) w)
       = d.
Proof.
  intros s msg k w Hk. unfold outcome, world_after, bind, runDb, bind, perform.
  destruct (fault P w (Executed s)); [discriminate|].
  destruct (execute s (db w) (now w)) as [err|[[d rows] n]]; [discriminate|].
  unfold ret. cbn [changes snd].
  destruct (N.eqb_spec n 0) as [Hz|Hz]; [discriminate|].
  intros _. exists d, rows, n. split; [reflexivity|]. split; [exact Hz|].
  now rewrite Hk.
Qed.

(** X7: after a successful [deleteModelConfig], [getModelsConfig] has no
    entry for the model, and the entry of every other model is what it
    was. *)
Theorem deleteModelConfig_removes_entry : forall modelId w,
  storage_reliable P ->
  outcome (deleteModelConfig P modelId) w = Returned tt ->
  exists before config,
    outcome (getModelsConfig P) w = Returned before
    /\ outcome (getModelsConfig P) (world_after (deleteModelConfig P modelId) w)
       = Returned config
    /\ own_property config modelId = None
    /\ forall other,
         other <> modelId ->
         own_property config other = own_property before other.
Proof.
  intros modelId w HP Hret.
  destruct (checked_write_returned _ _ _ _ syncToGitHub_db Hret)
    as [d [rows [n [He [_ Hdb]]]]].
  fold (deleteModelConfig P modelId) in Hdb.
  cbn [execute] in He. injection He as <- _ _.
  unfold outcome. rewrite !getModelsConfig_eq by apply HP. cbn [fst].
  rewrite Hdb. do 2 eexists. split; [reflexivity|]. split; [reflexivity|].
  cbn [own_property models_config]. split.
  - now rewrite lookup_models_object, last_row_of_without.
  - intros other Hne. rewrite !lookup_models_object.
    now rewrite (last_row_of_without_other model_id modelId other _ Hne).
Qed.

(** *** Model configuration: the stored individual quota *)

Lemma normalized_individual_quota_ok : forall category q,
  ((JsStr_eqb category (str "Pro") || JsStr_eqb category (str "Flash"))
   && negb (is_null (normalize_quota P q))
   && negb (Number_isInteger (normalize_quota P q)))
  || less_than P (normalize_quota P q) (num 0) = false ->
  normalize_quota P q = JsNull
  \/ exists n, normalize_quota P q = JsNumber n
               /\ ~ negative n
               /\ (category = str "Pro" \/ category = str "Flash" -> integer n).
Proof.
  intros category q H. apply orb_false_iff in H. destruct H as [Hint Hneg].
  destruct (normalize_quota_cases q) as [E|[n E]]; [now left|right].
  rewrite E in *. exists n. split; [reflexivity|]. split.
  - rewrite less_than_zero_number in Hneg.
    now apply lessThan_zero_not_negative.
  - intro Hc.
    assert (Ec : JsStr_eqb category (str "Pro")
                 || JsStr_eqb category (str "Flash") = true)
      by (destruct Hc as [->| ->]; reflexivity).
    rewrite Ec in Hint. simpl in Hint.
    apply negb_false_iff in Hint. now apply isInteger_integer.
Qed.

Lemma setModelConfig_keeps_individual_quota_ok :
  forall modelId category dailyQuota individualQuota w,
    Forall stored_individual_quota_ok (models_config (db w)) ->
    Forall stored_individual_quota_ok
      (models_config
         (db (world_after
                (setModelConfig P modelId category dailyQuota individualQuota) w))).
Proof.
  intros modelId category dailyQuota individualQuota w Hw.
  unfold world_after, setModelConfig.
  destruct (_ || less_than P (normalize_quota P dailyQuota) (num 0));
    [exact Hw|].
  destruct (((JsStr_eqb category (str "Pro") || JsStr_eqb category (str "Flash"))
             && negb (is_null (normalize_quota P individualQuota))
             && negb (Number_isInteger (normalize_quota P individualQuota)))
            || less_than P (normalize_quota P individualQuota) (num 0)) eqn:E2;
    [exact Hw|].
  unfold bind.
  destruct (fault P w
              (Executed (UpsertModelConfig modelId category
                           (normalize_quota P dailyQuota)
                           (normalize_quota P individualQuota))))
    as [err|] eqn:Hf.
  - rewrite (runDb_fault _ _ _ Hf). exact Hw.
  - rewrite (runDb_run _ w _ _ _ Hf eq_refl). rewrite syncToGitHub_db.
    cbn [execute with_db db models_config]. apply Forall_app. split.
    + unfold without. rewrite Forall_forall in *. intros r Hr.
      apply filter_In in Hr. now apply Hw.
    + constructor; [|constructor]. unfold stored_individual_quota_ok.
      simpl. now apply normalized_individual_quota_ok.
Qed.

(** X8: after any sequence of [setModelConfig] calls, with any category
    strings and any quota arguments, every stored [individualQuota] is
    [null] or a Number that is not negative, and it is an integer when the
    category is Pro or Flash (under any other category it may be
    fractional). *)
Theorem stored_individual_quota_invariant : forall calls t,
  Forall stored_individual_quota_ok
    (models_config (db (after_calls P calls (initial_world t)))).
Proof.
  intros calls t. unfold after_calls.
  assert (H0 : Forall stored_individual_quota_ok
                 (models_config (db (initial_world t))))
    by constructor.
  revert H0. generalize (initial_world t).
  induction calls as [|c calls IH]; intros w Hw; simpl; [exact Hw|].
  apply IH. now apply setModelConfig_keeps_individual_quota_ok.
Qed.

(** *** Model configuration: which validation error *)

Lemma daily_quota_rejected_test : forall category q,
  (JsStr_eqb category (str "Custom")
   && negb (is_null (normalize_quota P q))
   && negb (Number_isInteger (normalize_quota P q)))
  || less_than P (normalize_quota P q) (num 0) = true
  <-> daily_quota_rejected category (normalize_quota P q).
Proof.
  intros category q. unfold daily_quota_rejected.
  now rewrite orb_true_iff, daily_quota_test, less_than_zero_negative_quota.
Qed.

Lemma individual_quota_rejected_test : forall category q,
  ((JsStr_eqb category (str "Pro") || JsStr_eqb category (str "Flash"))
   && negb (is_null (normalize_quota P q))
   && negb (Number_isInteger (normalize_quota P q)))
  || less_than P (normalize_quota P q) (num 0) = true
  <-> individual_quota_rejected category (normalize_quota P q).
Proof.
  intros category q. unfold individual_quota_rejected.
  now rewrite orb_true_iff, individual_quota_test, less_than_zero_negative_quota.
Qed.

Lemma quota_errors_differ : forall w w' : World,
  (@Thrown unit daily_quota_error, w) <> (Thrown individual_quota_error, w').
Proof.
  intros w w' H. apply (f_equal fst) in H. cbn [fst] in H.
  injection H as H. vm_compute in H. discriminate H.
Qed.

(** X9: [setModelConfig] tests the daily quota first.  It throws the
    daily-quota error exactly when the daily quota is rejected (a
    non-integer under Custom, or a negative Number under any category, Pro
    and Flash included), and the individual-quota error exactly when the
    daily quota passes and the individual quota is rejected; in both cases
    before any storage access. *)
Theorem setModelConfig_error_precedence :
  forall modelId category dailyQuota individualQuota w,
    (daily_quota_rejected category (normalize_quota P dailyQuota)
     <-> setModelConfig P modelId category dailyQuota individualQuota w
         = (Thrown daily_quota_error, w))
    /\ (~ daily_quota_rejected category (normalize_quota P dailyQuota)
        /\ individual_quota_rejected category (normalize_quota P individualQuota)
        <-> setModelConfig P modelId category dailyQuota individualQuota w
            = (Thrown individual_quota_error, w)).
Proof.
  intros modelId category dailyQuota individualQuota w.
  rewrite <- daily_quota_rejected_test, <- individual_quota_rejected_test.
  unfold setModelConfig.
  destruct ((JsStr_eqb category (str "Custom")
             && negb (is_null (normalize_quota P dailyQuota))
             && negb (Number_isInteger (normalize_quota P dailyQuota)))
            || less_than P (normalize_quota P dailyQuota) (num 0)).
  - split; split; try reflexivity.
    + intros [H _]. now elim H.
    + intro H. exfalso. apply (quota_errors_differ _ _ H).
  - destruct (((JsStr_eqb category (str "Pro") || JsStr_eqb category (str "Flash"))
               && negb (is_null (normalize_quota P individualQuota))
               && negb (Number_isInteger (normalize_quota P individualQuota)))
              || less_than P (normalize_quota P individualQuota) (num 0)).
    + split; split; try reflexivity; try discriminate.
      intros _. split; [discriminate|reflexivity].
    + assert (Hw : forall err,
                 (runDb P (UpsertModelConfig modelId category
                             (normalize_quota P dailyQuota)
                             (normalize_quota P individualQuota)) ;;;
                  syncToGitHub P) w <> (Thrown err, w)).
      { intros err H.
        apply (write_then_sync_trace
                 (UpsertModelConfig modelId category
                    (normalize_quota P dailyQuota)
                    (normalize_quota P individualQuota)) w).
        now rewrite H. }
      split; split; try discriminate.
      * intro H. now apply Hw in H.
      * intros [_ H]. discriminate H.
      * intro H. now apply Hw in H.
Qed.

(** *** Worker keys: update, delete, add, list *)

(** X10: after a successful [updateWorkerKeySafety(apiKey, v)],
    [getWorkerKeySafetySetting(apiKey)] returns the truthiness of [v]: the
    argument is not compared with [true], so a non-empty string such as
    'false' enables safety. *)
Theorem updateWorkerKeySafety_stores_truthiness : forall apiKey safetyEnabled w,
  storage_reliable P ->
  outcome (updateWorkerKeySafety P apiKey safetyEnabled) w = Returned tt ->
  outcome (getWorkerKeySafetySetting P apiKey)
    (world_after (updateWorkerKeySafety P apiKey safetyEnabled) w)
  = Returned (ToBoolean safetyEnabled).
Proof.
  intros apiKey safetyEnabled w HP Hret.
  destruct (checked_write_returned _ _ _ _ syncToGitHub_db Hret)
    as [d [rows [n [He [Hn Hdb]]]]].
  fold (updateWorkerKeySafety P apiKey safetyEnabled) in Hdb.
  cbn [execute] in He. injection He as <- _ <-.
  unfold outcome. rewrite getWorkerKeySafetySetting_eq by apply HP.
  cbn [fst]. rewrite Hdb. cbn [worker_keys]. unfold row_of.
  rewrite find_updated_safety.
  pose proof (matching_zero_find api_key apiKey _ Hn) as Hfind.
  destruct (find (has_key api_key apiKey) (worker_keys (db w)));
    [|now elim Hfind].
  cbn [safety_enabled]. now destruct (ToBoolean safetyEnabled).
Qed.

Lemma update_absent : forall apiKey se rows,
  has_row api_key apiKey rows = false ->
  map (fun r => if has_key api_key apiKey r
                then {| api_key := api_key r;
                        description := description r;
                        safety_enabled := se;
                        created_at := created_at r |}
                else r) rows = rows.
Proof.
  intros apiKey se rows. unfold has_row.
  induction rows as [|x rows IH]; simpl; [reflexivity|].
  destruct (has_key api_key apiKey x); simpl; [discriminate|].
  intro H. now rewrite (IH H).
Qed.

(** X11: [updateWorkerKeySafety] and [deleteWorkerKey] of a key that has no
    row fail with their not-found errors naming the key; the store is left
    as it was and the sync is not invoked. *)
Theorem worker_key_not_found : forall apiKey safetyEnabled w,
  storage_reliable P ->
  has_row api_key apiKey (worker_keys (db w)) = false ->
  fails_at (updateWorkerKeySafety P apiKey safetyEnabled) w
    (UpdateWorkerKeySafety (if ToBoolean safetyEnabled then num 1 else num 0)
       apiKey)
    (Error (str "Worker key '" ++ apiKey
              ++ str "' not found for updating safety settings."))
  /\ fails_at (deleteWorkerKey P apiKey) w (DeleteWorkerKey apiKey)
       (Error (str "Worker key '" ++ apiKey ++ str "' not found for deletion.")).
Proof.
  intros apiKey safetyEnabled w HP Hrow.
  destruct (without_absent _ _ _ Hrow) as [E1 E2]. split.
  - apply (checked_write_not_found _ _ _ _ [] (HP _ _)).
    cbn [execute]. now rewrite (update_absent _ _ _ Hrow), E2, database_eta.
  - apply (checked_write_not_found _ _ _ _ [] (HP _ _)).
    cbn [execute]. now rewrite E1, E2, database_eta.
Qed.

Lemma ret_db : forall w1, db (snd (@ret unit tt w1)) = db w1.
Proof. reflexivity. Qed.

Lemma has_row_without : forall {R} (pk : R -> JsStr) k rows,
  has_row pk k (without pk k rows) = false.
Proof.
  intros R pk k rows. unfold has_row. apply existsb_false_row_of.
  unfold row_of, without. apply find_without_same.
Qed.

Lemma addWorkerKey_fresh : forall apiKey description w,
  fault P w (Executed (InsertWorkerKey apiKey description (num 1))) = None ->
  has_row api_key apiKey (worker_keys (db w)) = false ->
  addWorkerKey P apiKey description w
  = try_catch
      (syncToGitHub P)
      (fun err =>
         if is_constraint_error err then throw (Conflict apiKey) else throw err)
      (with_db
         {| settings := settings (db w);
            models_config := models_config (db w);
            worker_keys := worker_keys (db w)
                             ++ [new_worker_key apiKey description (now w)] |}
         (record_event (Executed (InsertWorkerKey apiKey description (num 1))) w)).
Proof.
  intros apiKey description w Hf Hrow. unfold has_row in Hrow.
  assert (He : execute (InsertWorkerKey apiKey description (num 1)) (db w) (now w)
               = inr ({| settings := settings (db w);
                         models_config := models_config (db w);
                         worker_keys :=
                           worker_keys (db w)
                             ++ [new_worker_key apiKey description (now w)] |},
                      [], 1%N)).
  { cbn [execute]. now rewrite Hrow. }
  unfold addWorkerKey, try_catch, bind.
  now rewrite (runDb_run _ w _ _ _ Hf He).
Qed.

(** X12: after a successful [deleteWorkerKey] the key has no row:
    [getWorkerKeySafetySetting] is back to its default true, and
    [addWorkerKey] of the same key succeeds again. *)
Theorem deleteWorkerKey_then_absent : forall apiKey description w,
  storage_reliable P ->
  outcome (deleteWorkerKey P apiKey) w = Returned tt ->
  let w1 := world_after (deleteWorkerKey P apiKey) w in
  has_row api_key apiKey (worker_keys (db w1)) = false
  /\ outcome (getWorkerKeySafetySetting P apiKey) w1 = Returned true
  /\ ((forall w', fault P w' Synced = None) ->
      outcome (addWorkerKey P apiKey description) w1 = Returned tt).
Proof.
  intros apiKey description w HP Hret w1.
  destruct (checked_write_returned _ _ _ _ ret_db Hret)
    as [d [rows [n [He [_ Hdb]]]]].
  fold (deleteWorkerKey P apiKey) in Hdb. fold w1 in Hdb.
  cbn [execute] in He. injection He as <- _ _.
  assert (Hrow : has_row api_key apiKey (worker_keys (db w1)) = false)
    by (rewrite Hdb; apply has_row_without).
  split; [exact Hrow|]. split.
  - unfold outcome. rewrite getWorkerKeySafetySetting_eq by apply HP.
    apply existsb_false_row_of in Hrow. now rewrite Hrow.
  - intro Hsync. unfold outcome.
    rewrite (addWorkerKey_fresh _ _ _ (HP _ _) Hrow).
    unfold try_catch, syncToGitHub. now rewrite Hsync.
Qed.

(** X13: the handler of [addWorkerKey] also covers the sync.  When the row
    is inserted and the sync then fails, the call fails although the key
    is stored; and a sync error whose code is SQLITE_CONSTRAINT is reported
    as the key already existing. *)
Theorem addWorkerKey_sync_failure : forall apiKey description w err,
  fault P w (Executed (InsertWorkerKey apiKey description (num 1))) = None ->
  has_row api_key apiKey (worker_keys (db w)) = false ->
  (forall w', fault P w' Synced = Some err) ->
  outcome (addWorkerKey P apiKey description) w
  = Thrown (if is_constraint_error err then Conflict apiKey else err)
  /\ row_of api_key apiKey
       (worker_keys (db (world_after (addWorkerKey P apiKey description) w)))
     = Some (new_worker_key apiKey description (now w)).
Proof.
  intros apiKey description w err Hf Hrow Hsync.
  unfold outcome, world_after. rewrite (addWorkerKey_fresh _ _ _ Hf Hrow).
  unfold try_catch, syncToGitHub. rewrite Hsync.
  apply existsb_false_row_of in Hrow.
  destruct (find_appended api_key apiKey (worker_keys (db w))
              (new_worker_key apiKey description (now w)) Hrow eq_refl)
    as [Hfound _].
  split; destruct (is_constraint_error err); first [reflexivity|exact Hfound].
Qed.

(** X14: [setSetting] does not undo its write when the sync fails: the
    call fails with the sync's error and the new value is stored. *)
Theorem setSetting_sync_failure_keeps_write : forall key value w err,
  fault P w (Executed (UpsertSetting key (value_to_store value))) = None ->
  (forall w', fault P w' Synced = Some err) ->
  outcome (setSetting P key value false) w = Thrown err
  /\ row_of settings_key key
       (settings (db (world_after (setSetting P key value false) w)))
     = Some {| settings_key := key; settings_value := value_to_store value |}.
Proof.
  intros key value w err Hf Hsync. split.
  - apply (setSetting_sync_failure key value w _ _ err
             (runDb_run _ w _ _ _ Hf eq_refl) (Hsync _)).
  - apply (setSetting_stored key value false w Hf).
Qed.

Lemma worker_key_entry_of_row : forall r,
  JsObject
    [(str "key", optional_member (worker_key_row_object r) (str "api_key"));
     (str "description",
      if ToBoolean (optional_member (worker_key_row_object r) (str "description"))
      then optional_member (worker_key_row_object r) (str "description")
      else JsString []);
     (str "safetyEnabled",
      JsBoolean
        (strict_equals_number
           (optional_member (worker_key_row_object r) (str "safety_enabled"))
           (Number.of_Z 1)));
     (str "createdAt", optional_member (worker_key_row_object r) (str "created_at"))]
  = worker_key_entry r.
Proof.
  intro r. unfold worker_key_entry.
  change (optional_member (worker_key_row_object r) (str "api_key"))
    with (JsString (api_key r)).
  change (optional_member (worker_key_row_object r) (str "description"))
    with (JsString (description r)).
  change (optional_member (worker_key_row_object r) (str "safety_enabled"))
    with (safety_enabled r).
  change (optional_member (worker_key_row_object r) (str "created_at"))
    with (JsString (created_at r)).
  cbn [ToBoolean]. now destruct (description r).
Qed.

Lemma getAllWorkerKeys_eq : forall w,
  fault P w (Executed SelectWorkerKeys) = None ->
  getAllWorkerKeys P w
  = (Returned (JsArray (map worker_key_entry (newest_first (worker_keys (db w))))),
     record_event (Executed SelectWorkerKeys) w).
Proof.
  intros w Hf. unfold getAllWorkerKeys, allDb, bind.
  rewrite (perform_run _ w _ _ _ Hf eq_refl). unfold ret. cbn [fst].
  rewrite map_map. do 3 f_equal.
  apply map_ext. intro r. apply worker_key_entry_of_row.
Qed.

Lemma insert_by_created_at_permutation : forall r rows,
  Permutation (insert_by_created_at r rows) (r :: rows).
Proof.
  intros r rows. induction rows as [|x rows IH]; [apply Permutation_refl|].
  cbn [insert_by_created_at].
  destruct (string_less (created_at x) (created_at r));
    [apply Permutation_refl|].
  apply perm_trans with (x :: r :: rows); [now apply perm_skip|apply perm_swap].
Qed.

Lemma newest_first_permutation : forall rows,
  Permutation (newest_first rows) rows.
Proof.
  intro rows. unfold newest_first.
  assert (H : forall acc,
             Permutation
               (fold_left (fun sorted r => insert_by_created_at r sorted) rows acc)
               (rows ++ acc)).
  { induction rows as [|r rows IH]; intro acc; [apply Permutation_refl|].
    cbn [fold_left app].
    apply perm_trans with (rows ++ insert_by_created_at r acc); [apply IH|].
    apply perm_trans with (rows ++ r :: acc).
    - apply Permutation_app_head. apply insert_by_created_at_permutation.
    - apply Permutation_sym. apply Permutation_middle. }
  specialize (H []). now rewrite app_nil_r in H.
Qed.

(** X15: [getAllWorkerKeys] lists every stored row exactly once, each as
    its key, its description, whether its safety column is the number 1,
    and its creation time; it writes nothing. *)
Theorem getAllWorkerKeys_lists_every_row : forall w,
  fault P w (Executed SelectWorkerKeys) = None ->
  exists items,
    getAllWorkerKeys P w
    = (Returned (JsArray items), record_event (Executed SelectWorkerKeys) w)
    /\ Permutation items (map worker_key_entry (worker_keys (db w))).
Proof.
  intros w Hf. rewrite (getAllWorkerKeys_eq _ Hf). eexists.
  split; [reflexivity|]. apply Permutation_map. apply newest_first_permutation.
Qed.

Lemma row_of_NoDup : forall {R} (pk : R -> JsStr) rows r,
  NoDup (map pk rows) -> In r rows -> row_of pk (pk r) rows = Some r.
Proof.
  intros R pk rows r. unfold row_of.
  induction rows as [|x rows IH]; intros Hnd Hin; [contradiction|].
  cbn [map] in Hnd. apply NoDup_cons_iff in Hnd. destruct Hnd as [Hx Hnd].
  cbn [find]. destruct Hin as [->|Hin].
  - unfold has_key. now rewrite JsStr_eqb_refl.
  - destruct (has_key pk (pk r) x) eqn:E; [|now apply IH].
    exfalso. apply Hx. unfold has_key in E. apply JsStr_eqb_eq in E.
    rewrite E. now apply in_map.
Qed.

(** X16: with one row per key, the [safetyEnabled] that [getAllWorkerKeys]
    lists for a key is what [getWorkerKeySafetySetting] returns for it. *)
Theorem listed_safety_agrees_with_setting : forall w r,
  storage_reliable P ->
  NoDup (map api_key (worker_keys (db w))) ->
  In r (worker_keys (db w)) ->
  exists items safe,
    outcome (getAllWorkerKeys P) w = Returned (JsArray items)
    /\ outcome (getWorkerKeySafetySetting P (api_key r)) w = Returned safe
    /\ In (JsObject [(str "key", JsString (api_key r));
                     (str "description", JsString (description r));
                     (str "safetyEnabled", JsBoolean safe);
                     (str "createdAt", JsString (created_at r))]) items.
Proof.
  intros w r HP Hnd Hin. unfold outcome.
  rewrite (getAllWorkerKeys_eq _ (HP _ _)).
  rewrite getWorkerKeySafetySetting_eq by apply HP.
  rewrite (row_of_NoDup api_key _ r Hnd Hin). cbn [fst].
  do 2 eexists. split; [reflexivity|]. split; [reflexivity|].
  apply (in_map worker_key_entry).
  apply (Permutation_in r (Permutation_sym (newest_first_permutation _)) Hin).
Qed.

(** X17: a key that [addWorkerKey] has added is listed by
    [getAllWorkerKeys] with the description given, safety enabled and the
    time of the insert, and [getWorkerKeySafetySetting] returns true for
    it. *)
Theorem addWorkerKey_then_listed : forall apiKey description w,
  storage_reliable P ->
  outcome (addWorkerKey P apiKey description) w = Returned tt ->
  let w1 := world_after (addWorkerKey P apiKey description) w in
  outcome (getWorkerKeySafetySetting P apiKey) w1 = Returned true
  /\ exists items,
       outcome (getAllWorkerKeys P) w1 = Returned (JsArray items)
       /\ In (JsObject [(str "key", JsString apiKey);
                        (str "description", JsString description);
                        (str "safetyEnabled", JsBoolean true);
                        (str "createdAt", JsString (now w))]) items.
Proof.
  intros apiKey description w HP Hret w1.
  destruct (addWorkerKey_returned _ _ _ Hret) as [Hnone Hw1]. fold w1 in Hw1.
  destruct (find_appended api_key apiKey (worker_keys (db w))
              (new_worker_key apiKey description (now w)) Hnone eq_refl)
    as [Hrow _].
  unfold outcome. split.
  - rewrite getWorkerKeySafetySetting_eq by apply HP. now rewrite Hw1, Hrow.
  - rewrite (getAllWorkerKeys_eq _ (HP _ _)). eexists. split; [reflexivity|].
    apply (in_map worker_key_entry _ (new_worker_key apiKey description (now w))).
    apply (Permutation_in _ (Permutation_sym (newest_first_permutation _))).
    rewrite Hw1. apply in_or_app. right. now left.
Qed.

Lemma find_updated_other : forall apiKey other se rows,
  other <> apiKey ->
  row_of api_key other
    (map (fun r => if has_key api_key apiKey r
                   then {| api_key := api_key r;
                           description := description r;
                           safety_enabled := se;
                           created_at := created_at r |}
                   else r) rows)
  = row_of api_key other rows.
Proof.
  intros apiKey other se rows Hne. unfold row_of.
  induction rows as [|x rows IH]; [reflexivity|].
  cbn [map find]. destruct (has_key api_key apiKey x) eqn:Ek.
  - unfold has_key in *. cbn [api_key]. apply JsStr_eqb_eq in Ek.
    assert (E : JsStr_eqb (api_key x) other = false)
      by (apply JsStr_eqb_neq; congruence).
    now rewrite E.
  - destruct (has_key api_key other x); [reflexivity|exact IH].
Qed.

Lemma row_of_appended_other : forall {R} (pk : R -> JsStr) k other rows r,
  pk r = k -> other <> k ->
  row_of pk other (rows ++ [r]) = row_of pk other rows.
Proof.
  intros R pk k other rows r Hk Hne. unfold row_of.
  induction rows as [|x rows IH]; simpl.
  - unfold has_key. rewrite Hk.
    assert (E : JsStr_eqb k other = false)
      by (apply JsStr_eqb_neq; congruence).
    now rewrite E.
  - destruct (has_key pk other x); [reflexivity|exact IH].
Qed.

Lemma checked_write_db : forall s msg (k : Async unit) w,
  fault P w (Executed s) = None ->
  (forall w1, db (snd (k w1)) = db w1) ->
  db (world_after
        (result <- runDb P s ;;
         if N.eqb (changes result) 0 then throw (Error msg) else k) w)
  = match execute s (db w) (now w) with
    | inl _ => db w
    | inr (d, _, _) => d
    end.
Proof.
  intros s msg k w Hf Hk. unfold world_after, bind, runDb, bind, perform.
  rewrite Hf. destruct (execute s (db w) (now w)) as [err|[[d rows] n]];
    [reflexivity|].
  unfold ret. cbn [changes snd].
  destruct (N.eqb n 0); [reflexivity|]. now rewrite Hk.
Qed.

Lemma addWorkerKey_db : forall apiKey description w,
  fault P w (Executed (InsertWorkerKey apiKey description (num 1))) = None ->
  worker_keys (db (world_after (addWorkerKey P apiKey description) w))
  = if has_row api_key apiKey (worker_keys (db w)) then worker_keys (db w)
    else worker_keys (db w) ++ [new_worker_key apiKey description (now w)].
Proof.
  intros apiKey description w Hf.
  destruct (has_row api_key apiKey (worker_keys (db w))) eqn:Hrow.
  - apply existsb_row_of in Hrow. unfold world_after.
    now rewrite (addWorkerKey_duplicate _ _ _ Hf Hrow).
  - unfold world_after. rewrite (addWorkerKey_fresh _ _ _ Hf Hrow).
    unfold try_catch, syncToGitHub.
    match goal with
    | |- context [fault P ?w1 Synced] => destruct (fault P w1 Synced) as [err|]
    end; [|reflexivity].
    now destruct (is_constraint_error err).
Qed.

(** X18: adding, updating or deleting the worker key [apiKey] leaves
    what [getWorkerKeySafetySetting] returns for every other key, whether
    the operation succeeds or fails. *)
Theorem worker_key_operations_leave_other_keys :
  forall apiKey other description safetyEnabled w,
    storage_reliable P ->
    other <> apiKey ->
    outcome (getWorkerKeySafetySetting P other)
      (world_after (addWorkerKey P apiKey description) w)
    = outcome (getWorkerKeySafetySetting P other) w
    /\ outcome (getWorkerKeySafetySetting P other)
         (world_after (updateWorkerKeySafety P apiKey safetyEnabled) w)
       = outcome (getWorkerKeySafetySetting P other) w
    /\ outcome (getWorkerKeySafetySetting P other)
         (world_after (deleteWorkerKey P apiKey) w)
       = outcome (getWorkerKeySafetySetting P other) w.
Proof.
  intros apiKey other description safetyEnabled w HP Hne. unfold outcome.
  rewrite !getWorkerKeySafetySetting_eq by apply HP. cbn [fst].
  split; [|split].
  - rewrite (addWorkerKey_db _ _ _ (HP _ _)).
    destruct (has_row api_key apiKey (worker_keys (db w))); [reflexivity|].
    now rewrite (row_of_appended_other api_key apiKey other _
                   (new_worker_key apiKey description (now w)) eq_refl Hne).
  - unfold updateWorkerKeySafety.
    rewrite (checked_write_db _ _ _ _ (HP _ _) syncToGitHub_db).
    cbn [execute worker_keys]. now rewrite (find_updated_other _ _ _ _ Hne).
  - unfold deleteWorkerKey.
    rewrite (checked_write_db _ _ _ _ (HP _ _) ret_db).
    cbn [execute worker_keys]. unfold row_of, without.
    now rewrite (find_without_other api_key apiKey other _ Hne).
Qed.

(** *** Structured settings: GitHub configuration and category quotas *)

Lemma setSetting_getSetting_json : forall key value skipSync defaultValue w,
  storage_reliable P ->
  structured value = true ->
  json_value value = true ->
  exists read,
    outcome (getSetting P key defaultValue)
      (world_after (setSetting P key value skipSync) w) = Returned read
    /\ deep_equal value read = true.
Proof.
  intros key value skipSync defaultValue w HP Hs Hj. unfold outcome.
  rewrite getSetting_eq by apply HP. cbn [fst].
  rewrite (setSetting_stored key value skipSync w (HP _ _)).
  cbn [settings_value]. unfold value_to_store, JSON.stringify.
  rewrite Hs, (serialize_defined value Hj). cbn [ToString].
  destruct (parse_json_text value Hj) as [read [Hparse Heq]].
  rewrite Hparse. now exists read.
Qed.

Lemma omitted_or_json_default : forall v d,
  omitted_or_json v = true -> json_value d = true ->
  json_value (if is_undefined v then d else v) = true.
Proof.
  intros v d Hv Hd. unfold omitted_or_json in Hv.
  destruct (is_undefined v); [exact Hd|exact Hv].
Qed.

Lemma json_value_github_config : forall repo token dbPath encryptKey,
  json_value repo = true -> json_value token = true ->
  json_value dbPath = true -> json_value encryptKey = true ->
  json_value (github_config repo token dbPath encryptKey) = true.
Proof.
  intros repo token dbPath encryptKey Hr Ht Hd He. unfold github_config.
  cbn [json_value map fst snd forallb]. now rewrite Hr, Ht, Hd, He.
Qed.

(** X19: without a stored GitHub configuration [getGitHubConfig] returns
    the default object (empty repo and token, './database.db', no
    encryption key); after [setGitHubConfig] it returns an object
    deep-equal to the one given, an omitted [dbPath] and [encryptKey]
    having taken their defaults. *)
Theorem setGitHubConfig_getGitHubConfig : forall repo token dbPath encryptKey w,
  storage_reliable P ->
  (row_of settings_key (str "github_config") (settings (db w)) = None ->
   outcome (getGitHubConfig P) w = Returned default_github_config)
  /\ (json_value repo = true -> json_value token = true ->
      omitted_or_json dbPath = true -> omitted_or_json encryptKey = true ->
      exists read,
        outcome (getGitHubConfig P)
          (world_after (setGitHubConfig P repo token dbPath encryptKey) w)
        = Returned read
        /\ deep_equal
             (github_config repo token
                (if is_undefined dbPath then JsString (str "./database.db")
                 else dbPath)
                (if is_undefined encryptKey then JsNull else encryptKey))
             read = true).
Proof.
  intros repo token dbPath encryptKey w HP. split.
  - intro Hrow. unfold outcome, getGitHubConfig.
    rewrite getSetting_eq by apply HP. now rewrite Hrow.
  - intros Hr Ht Hd He.
    apply (setSetting_getSetting_json (str "github_config") _ false _ w HP);
      [reflexivity|].
    apply json_value_github_config; try assumption;
      now apply omitted_or_json_default.
Qed.

Lemma is_number_cases : forall v,
  is_number v = true -> exists n, v = JsNumber n.
Proof.
  intros v H. destruct v as [| | |n| | |]; try (vm_compute in H; discriminate).
  now exists n.
Qed.

Lemma deep_equal_quotas : forall a b read,
  deep_equal (quotas_object (JsNumber a) (JsNumber b)) read = true ->
  exists p f,
    optional_member read (str "proQuota") = JsNumber p
    /\ optional_member read (str "flashQuota") = JsNumber f
    /\ Number.equal a p = true /\ Number.equal b f = true.
Proof.
  intros a b read H. unfold quotas_object in H.
  destruct read as [| | | | | |qs]; try discriminate.
  rewrite deep_equal_object in H. apply andb_true_iff in H.
  destruct H as [_ H]. cbn [forallb fst snd] in H. cbn [optional_member].
  destruct (lookup (str "proQuota") qs) as [[| | |p| | |]|]; try discriminate.
  destruct (lookup (str "flashQuota") qs) as [[| | |f| | |]|];
    try (rewrite andb_false_r in H; discriminate).
  exists p, f. cbn [deep_equal] in H. rewrite andb_true_r in H.
  apply andb_true_iff in H. destruct H as [Hp Hf]. now repeat split.
Qed.

Lemma floor_finite : forall m e,
  Number.isFinite (Number.floor (Number.Finite m e)) = true.
Proof. intros m e. unfold Number.floor. now destruct (Z.leb 0 e). Qed.

(** X20: after [setCategoryQuotas] with two finite Numbers that are not
    negative, [getCategoryQuotas] returns their floors. *)
Theorem setCategoryQuotas_getCategoryQuotas : forall m1 e1 m2 e2 w,
  storage_reliable P ->
  (0 <= m1)%Z -> (0 <= m2)%Z ->
  exists p f,
    outcome (getCategoryQuotas P)
      (world_after
         (setCategoryQuotas P (JsNumber (Number.Finite m1 e1))
            (JsNumber (Number.Finite m2 e2))) w)
    = Returned (quotas_object (JsNumber p) (JsNumber f))
    /\ Number.equal (Number.floor (Number.Finite m1 e1)) p = true
    /\ Number.equal (Number.floor (Number.Finite m2 e2)) f = true.
Proof.
  intros m1 e1 m2 e2 w HP H1 H2.
  rewrite (setCategoryQuotas_stores_floor m1 e1 m2 e2 H1 H2).
  destruct (setSetting_getSetting_json (str "category_quotas")
              (quotas_object (JsNumber (Number.floor (Number.Finite m1 e1)))
                 (JsNumber (Number.floor (Number.Finite m2 e2))))
              false default_quotas w HP eq_refl)
    as [read [Hget Heq]].
  { unfold quotas_object. cbn [json_value map fst snd forallb].
    now rewrite !floor_finite. }
  destruct (deep_equal_quotas _ _ _ Heq) as [p [f [Hp [Hfl [Ep Ef]]]]].
  exists p, f. split; [|now split].
  unfold outcome in *. unfold getCategoryQuotas, bind.
  destruct (getSetting P (str "category_quotas") default_quotas _) as [o w1].
  cbn [fst] in Hget. subst o. unfold ret. cbn [fst].
  now rewrite Hp, Hfl.
Qed.

(** X21: whatever the stored setting holds, [getCategoryQuotas] returns an
    object of two Numbers: a field that is missing or not a Number is
    replaced by its default. *)
Theorem getCategoryQuotas_returns_numbers : forall w,
  fault P w (Executed (SelectSettingValue (str "category_quotas"))) = None ->
  exists p f,
    getCategoryQuotas P w
    = (Returned (quotas_object (JsNumber p) (JsNumber f)),
       record_event (Executed (SelectSettingValue (str "category_quotas"))) w).
Proof.
  intros w Hf. unfold getCategoryQuotas, bind. rewrite (getSetting_eq _ _ _ Hf).
  match goal with
  | |- context [optional_member ?q (str "proQuota")] => generalize q
  end.
  intro quotas. unfold ret. fold (is_number (optional_member quotas (str "proQuota"))).
  fold (is_number (optional_member quotas (str "flashQuota"))).
  destruct (is_number (optional_member quotas (str "proQuota"))) eqn:Ep;
    destruct (is_number (optional_member quotas (str "flashQuota"))) eqn:Ef;
    try (apply is_number_cases in Ep; destruct Ep as [p ->]);
    try (apply is_number_cases in Ef; destruct Ef as [f ->]);
    do 2 eexists; reflexivity.
Qed.

(** X22: [setCategoryQuotas] fails with its validation error, before any
    storage access, exactly when an argument is not a Number or is a
    Number less than zero; every other pair of Numbers, NaN and the
    infinity included, goes on to the write. *)
Theorem setCategoryQuotas_validation_exact : forall proQuota flashQuota w,
  (is_number proQuota = false \/ is_number flashQuota = false
   \/ negative_quota proQuota \/ negative_quota flashQuota)
  <-> setCategoryQuotas P proQuota flashQuota w
      = (Thrown (Error (str "Quotas must be non-negative numbers.")), w).
Proof.
  intros proQuota flashQuota w. split; [apply setCategoryQuotas_rejects|].
  unfold setCategoryQuotas.
  fold (is_number proQuota). fold (is_number flashQuota).
  destruct (is_number proQuota) eqn:Ep; [|now left].
  destruct (is_number flashQuota) eqn:Ef; [|right; now left].
  apply is_number_cases in Ep. destruct Ep as [p ->].
  apply is_number_cases in Ef. destruct Ef as [f ->].
  cbn [negb orb]. rewrite !less_than_zero_number.
  destruct (Number.lessThan p (Number.of_Z 0)) eqn:Hp.
  - intros _. right. right. left. exists p. split; [reflexivity|].
    now apply lessThan_zero_negative.
  - destruct (Number.lessThan f (Number.of_Z 0)) eqn:Hf.
    + intros _. right. right. right. exists f. split; [reflexivity|].
      now apply lessThan_zero_negative.
    + cbn [orb]. unfold setSetting. cbn [negb]. intro H. exfalso.
      match type of H with
      | (runDb P ?s ;;; _) w = _ => apply (write_then_sync_trace s w)
      end.
      now rewrite H.
Qed.

(** *** Reads, and failures of the driver *)

Lemma only_reads_perform : forall s,
  (forall d t, exists rows, execute s d t = inr (d, rows, 0%N)) ->
  only_reads (perform P s) s.
Proof.
  intros s Hs w. unfold world_after, perform.
  destruct (fault P w (Executed s)); [now split|].
  destruct (Hs (db w) (now w)) as [rows ->]. now split.
Qed.

Lemma only_reads_bind : forall {A B} (c : Async A) (k : A -> Async B) s,
  only_reads c s ->
  (forall a w, snd (k a w) = w) ->
  only_reads (x <- c ;; k x) s.
Proof.
  intros A B c k s Hc Hk w. specialize (Hc w).
  unfold world_after, bind in *.
  destruct (c w) as [[a|err] w1]; cbn [snd] in *; [|exact Hc].
  now rewrite Hk.
Qed.

Lemma only_reads_getSetting : forall key defaultValue,
  only_reads (getSetting P key defaultValue) (SelectSettingValue key).
Proof.
  intros key defaultValue. unfold getSetting, getDb.
  apply only_reads_bind.
  - apply only_reads_bind; [|reflexivity].
    apply only_reads_perform. intros d t. eexists. reflexivity.
  - intros row w. destruct (negb (ToBoolean row)); [reflexivity|].
    now destruct (JSON.parse (ToString (optional_member row (str "value")))).
Qed.

(** X23: the read operations send one SELECT and nothing else: whether
    they return or throw, the store is what it was and the sync is not
    invoked. *)
Theorem reads_never_write_or_sync : forall key defaultValue apiKey,
  only_reads (getSetting P key defaultValue) (SelectSettingValue key)
  /\ only_reads (getModelsConfig P) SelectModelsConfig
  /\ only_reads (getCategoryQuotas P)
       (SelectSettingValue (str "category_quotas"))
  /\ only_reads (getAllWorkerKeys P) SelectWorkerKeys
  /\ only_reads (getWorkerKeySafetySetting P apiKey)
       (SelectWorkerKeySafety apiKey)
  /\ only_reads (getGitHubConfig P) (SelectSettingValue (str "github_config")).
Proof.
  intros key defaultValue apiKey.
  split; [|split; [|split; [|split; [|split]]]].
  - apply only_reads_getSetting.
  - unfold getModelsConfig, allDb.
    repeat (apply only_reads_bind; [|reflexivity]).
    apply only_reads_perform. intros d t. eexists. reflexivity.
  - unfold getCategoryQuotas. apply only_reads_bind; [|reflexivity].
    apply only_reads_getSetting.
  - unfold getAllWorkerKeys, allDb.
    repeat (apply only_reads_bind; [|reflexivity]).
    apply only_reads_perform. intros d t. eexists. reflexivity.
  - unfold getWorkerKeySafetySetting, getDb.
    repeat (apply only_reads_bind; [|reflexivity]).
    apply only_reads_perform. intros d t. eexists. reflexivity.
  - apply only_reads_getSetting.
Qed.

Lemma fails_at_bind : forall {A B} (c : Async A) (k : A -> Async B) w s err,
  fails_at c w s err -> fails_at (x <- c ;; k x) w s err.
Proof.
  intros A B c k w s err H. unfold fails_at, bind in *. now rewrite H.
Qed.

Lemma fails_at_perform : forall s w err,
  fault P w (Executed s) = Some err -> fails_at (perform P s) w s err.
Proof. intros s w err Hf. apply (perform_fault _ _ _ Hf). Qed.

(** X24: an error of the driver is the error of the operation: the
    operation throws it as it is after its first statement, nothing is
    written and the sync is not invoked. *)
Theorem storage_failure_is_propagated :
  forall err key defaultValue value skipSync modelId apiKey safetyEnabled w,
    (forall s, fault P w (Executed s) = Some err) ->
    fails_at (getSetting P key defaultValue) w (SelectSettingValue key) err
    /\ fails_at (setSetting P key value skipSync) w
         (UpsertSetting key (value_to_store value)) err
    /\ fails_at (getModelsConfig P) w SelectModelsConfig err
    /\ fails_at (deleteModelConfig P modelId) w (DeleteModelConfig modelId) err
    /\ fails_at (getCategoryQuotas P) w
         (SelectSettingValue (str "category_quotas")) err
    /\ fails_at (getAllWorkerKeys P) w SelectWorkerKeys err
    /\ fails_at (getWorkerKeySafetySetting P apiKey) w
         (SelectWorkerKeySafety apiKey) err
    /\ fails_at (updateWorkerKeySafety P apiKey safetyEnabled) w
         (UpdateWorkerKeySafety
            (if ToBoolean safetyEnabled then num 1 else num 0) apiKey) err
    /\ fails_at (deleteWorkerKey P apiKey) w (DeleteWorkerKey apiKey) err
    /\ fails_at (getGitHubConfig P) w
         (SelectSettingValue (str "github_config")) err.
Proof.
  intros err key defaultValue value skipSync modelId apiKey safetyEnabled w Hf.
  assert (Hget : forall k d,
             fails_at (getSetting P k d) w (SelectSettingValue k) err).
  { intros k d. unfold getSetting, getDb.
    do 2 apply fails_at_bind. apply fails_at_perform, Hf. }
  repeat split.
  - apply Hget.
  - unfold setSetting. fold (structured value). fold (value_to_store value).
    unfold runDb. do 2 apply fails_at_bind. apply fails_at_perform, Hf.
  - unfold getModelsConfig, allDb.
    do 2 apply fails_at_bind. apply fails_at_perform, Hf.
  - unfold deleteModelConfig, runDb.
    do 2 apply fails_at_bind. apply fails_at_perform, Hf.
  - unfold getCategoryQuotas. apply fails_at_bind. apply Hget.
  - unfold getAllWorkerKeys, allDb.
    do 2 apply fails_at_bind. apply fails_at_perform, Hf.
  - unfold getWorkerKeySafetySetting, getDb.
    do 2 apply fails_at_bind. apply fails_at_perform, Hf.
  - unfold updateWorkerKeySafety, runDb.
    do 2 apply fails_at_bind. apply fails_at_perform, Hf.
  - unfold deleteWorkerKey, runDb.
    do 2 apply fails_at_bind. apply fails_at_perform, Hf.
  - apply Hget.
Qed.

End ServiceProperties.

(** * The claims at concrete inputs *)

Lemma reliable_platform_storage : storage_reliable reliable_platform.
Proof. intros w s. reflexivity. Qed.

(** C1: deleting the stored key K1 returns, and the trace holds the DELETE
    statement alone: no sync was invoked. *)
Lemma deleteWorkerKey_returns_without_sync_witness :
  fault reliable_platform (world_with_key (num 1))
    (Executed (DeleteWorkerKey (str "K1"))) = None
  /\ has_row api_key (str "K1") (worker_keys (db (world_with_key (num 1)))) = true
  /\ deleteWorkerKey reliable_platform (str "K1") (world_with_key (num 1))
     = (Returned tt,
        {| db := empty_database; now := t0;
           trace := [Executed (DeleteWorkerKey (str "K1"))] |}).
Proof.
  split; [reflexivity|]. split; [reflexivity|].
  apply (deleteWorkerKey_returns_without_sync reliable_platform (str "K1")
           (world_with_key (num 1))); reflexivity.
Defined.

(** With a failing sync the deletion of K1 still returns, where the deletion
    of a model configuration fails. *)
Example deleteWorkerKey_ignores_sync_failure :
  outcome (deleteWorkerKey (failing_sync_platform disk_error) (str "K1"))
    (world_with_key (num 1)) = Returned tt
  /\ outcome (deleteModelConfig (failing_sync_platform disk_error) (str "m"))
       (after_calls reliable_platform [fractional_pro_call] (initial_world t0))
     = Thrown disk_error.
Proof. split; reflexivity. Qed.

(** The sibling [deleteModelConfig] does invoke the sync after its write. *)
Example deleteModelConfig_syncs_example :
  trace (world_after (deleteModelConfig reliable_platform (str "m"))
           (after_calls reliable_platform [fractional_pro_call] (initial_world t0)))
  = [Synced; Executed (DeleteModelConfig (str "m")); Synced;
     Executed (UpsertModelConfig (str "m") (str "Pro")
                 (JsNumber (Number.Finite 15 (-1))) JsNull)].
Proof. reflexivity. Qed.

(** A failing sync fails the mutation, after the write. *)
Example sync_failure_fails_setSetting :
  setSetting (failing_sync_platform disk_error) (str "k") (JsString (str "v")) false
    (initial_world t0)
  = (Thrown disk_error,
     {| db := {| settings := [{| settings_key := str "k";
                                 settings_value := JsString (str "v") |}];
                 models_config := []; worker_keys := [] |};
        now := t0;
        trace := [Synced;
                  Executed (UpsertSetting (str "k") (JsString (str "v")))] |}).
Proof. reflexivity. Qed.

(** C3 as stated fails: [setModelConfig('m', 'Pro', 1.5, null)] stores the
    daily quota 1.5. *)
Lemma stored_daily_quota_counterexample : ~ stored_daily_quota_is_integer.
Proof.
  intro H.
  specialize (H reliable_platform [fractional_pro_call] t0).
  assert (E : models_config
                (db (after_calls reliable_platform [fractional_pro_call]
                       (initial_world t0)))
              = [{| model_id := str "m"; category := str "Pro";
                    daily_quota := JsNumber (Number.Finite 15 (-1));
                    individual_quota := JsNull |}]) by reflexivity.
  rewrite E in H. apply Forall_inv in H. cbn [daily_quota] in H.
  destruct H as [H|[n [H [Hint _]]]]; [discriminate|].
  injection H as <-. apply isInteger_integer in Hint. discriminate.
Qed.

Example getModelsConfig_reports_fractional_quota :
  outcome (getModelsConfig reliable_platform)
    (after_calls reliable_platform [fractional_pro_call] (initial_world t0))
  = Returned
      (JsObject
         [(str "m",
           JsObject [(str "category", JsString (str "Pro"));
                     (str "dailyQuota", JsNumber (Number.Finite 15 (-1)));
                     (str "individualQuota", JsUndefined)])]).
Proof. reflexivity. Qed.

Example getAllWorkerKeys_stored_row :
  outcome (getAllWorkerKeys reliable_platform) (world_with_key (num 0))
  = Returned
      (JsArray
         [JsObject [(str "key", JsString (str "K1"));
                    (str "description", JsString []);
                    (str "safetyEnabled", JsBoolean false);
                    (str "createdAt", JsString t0)]]).
Proof. reflexivity. Qed.

Example getGitHubConfig_default :
  outcome (getGitHubConfig reliable_platform) (initial_world t0)
  = Returned
      (JsObject [(str "repo", JsString []); (str "token", JsString []);
                 (str "dbPath", JsString (str "./database.db"));
                 (str "encryptKey", JsNull)]).
Proof. reflexivity. Qed.

(** C4 as stated fails in both halves: the string "123" is read back as the
    Number 123, and an object holding NaN or an array holding [undefined] is
    read back with [null] in its place. *)
Lemma setting_round_trip_counterexample :
  ~ strings_round_trip_exactly /\ ~ structured_values_round_trip.
Proof.
  split; intro H.
  - specialize (H reliable_platform (str "k") (str "123") (initial_world t0)
                  reliable_platform_storage).
    vm_compute in H. discriminate.
  - destruct (H reliable_platform (str "k")
                (JsObject [(str "a", JsNumber Number.NaN)]) (initial_world t0)
                reliable_platform_storage eq_refl) as [read [Hr Hd]].
    vm_compute in Hr. injection Hr as <-. vm_compute in Hd. discriminate.
Qed.

Example undefined_element_read_back_as_null :
  outcome (getSetting reliable_platform (str "k") JsNull)
    (world_after (setSetting reliable_platform (str "k")
                    (JsArray [JsUndefined]) false) (initial_world t0))
  = Returned (JsArray [JsNull]).
Proof. reflexivity. Qed.

Example string_123_read_back_as_number :
  outcome (getSetting reliable_platform (str "k") JsNull)
    (world_after (setSetting reliable_platform (str "k")
                    (JsString (str "123")) false) (initial_world t0))
  = Returned (num 123).
Proof. reflexivity. Qed.

(** C4 amended, at an object and at a string. *)
Lemma setSetting_getSetting_round_trip_witness :
  storage_reliable reliable_platform
  /\ (exists read,
        outcome (getSetting reliable_platform (str "k") JsNull)
          (world_after
             (setSetting reliable_platform (str "k")
                (quotas_object (num 50) (JsNumber (Number.Finite 15 (-1)))) false)
             (initial_world t0)) = Returned read
        /\ deep_equal (quotas_object (num 50) (JsNumber (Number.Finite 15 (-1))))
             read = true)
  /\ outcome (getSetting reliable_platform (str "k") JsNull)
       (world_after
          (setSetting reliable_platform (str "k") (JsString (str "hello")) false)
          (initial_world t0))
     = Returned (JsString (str "hello")).
Proof.
  split; [exact reliable_platform_storage|]. split.
  - apply (proj1 (setSetting_getSetting_round_trip reliable_platform (str "k")
                    (quotas_object (num 50) (JsNumber (Number.Finite 15 (-1))))
                    false (initial_world t0) reliable_platform_storage));
      reflexivity.
  - apply (proj2 (setSetting_getSetting_round_trip reliable_platform (str "k")
                    (JsString (str "hello")) false (initial_world t0)
                    reliable_platform_storage) (str "hello")); reflexivity.
Defined.

(** C5: [setCategoryQuotas(NaN, 10)] on the empty store succeeds, and
    [getCategoryQuotas] then reports the default 50 for the Pro quota. *)
Lemma setCategoryQuotas_accepts_NaN_witness :
  outcome (setCategoryQuotas reliable_platform (JsNumber Number.NaN) (num 10))
    (initial_world t0) = Returned tt
  /\ row_of settings_key (str "category_quotas")
       (settings (db (world_after
                        (setCategoryQuotas reliable_platform
                           (JsNumber Number.NaN) (num 10))
                        (initial_world t0))))
     = Some {| settings_key := str "category_quotas";
               settings_value := JsString nan_quotas_text |}.
Proof.
  apply (setCategoryQuotas_accepts_NaN reliable_platform (initial_world t0));
    [reflexivity|intro w'; reflexivity].
Defined.

Example getCategoryQuotas_after_NaN :
  outcome (getCategoryQuotas reliable_platform)
    (world_after (setCategoryQuotas reliable_platform (JsNumber Number.NaN) (num 10))
       (initial_world t0))
  = Returned (quotas_object (num 50) (num 10)).
Proof. reflexivity. Qed.

Example setCategoryQuotas_negative_rejected :
  setCategoryQuotas reliable_platform (num (-1)) (num 10)
    (world_with_setting (str "category_quotas") pro_only_text)
  = (Thrown (Error (str "Quotas must be non-negative numbers.")),
     world_with_setting (str "category_quotas") pro_only_text).
Proof. reflexivity. Qed.

(** C6: the key K1 exists; a disk error is re-raised; K1 is added to the
    empty store and added again. *)
Lemma addWorkerKey_conflict_and_success_witness :
  (outcome (addWorkerKey reliable_platform (str "K1") []) (world_with_key (num 0))
   = Thrown (Conflict (str "K1"))
   /\ db (world_after (addWorkerKey reliable_platform (str "K1") [])
            (world_with_key (num 0)))
      = db (world_with_key (num 0)))
  /\ outcome (addWorkerKey (failing_storage_platform disk_error) (str "K1") [])
       (initial_world t0) = Thrown disk_error
  /\ (let w1 := world_after (addWorkerKey reliable_platform (str "K1") [])
                  (initial_world t0) in
      row_of api_key (str "K1") (worker_keys (db w1))
      = Some (new_worker_key (str "K1") [] t0)
      /\ matching api_key (str "K1") (worker_keys (db w1)) = 1%N
      /\ (fault reliable_platform w1
            (Executed (InsertWorkerKey (str "K1") [] (num 1))) = None ->
          let w2 := world_after (addWorkerKey reliable_platform (str "K1") []) w1 in
          outcome (addWorkerKey reliable_platform (str "K1") []) w1
          = Thrown (Conflict (str "K1"))
          /\ matching api_key (str "K1") (worker_keys (db w2)) = 1%N)).
Proof.
  split; [|split].
  - apply (proj1 (addWorkerKey_conflict_and_success reliable_platform (str "K1") []
                    (world_with_key (num 0)))); reflexivity.
  - apply (proj1 (proj2 (addWorkerKey_conflict_and_success
                           (failing_storage_platform disk_error) (str "K1") []
                           (initial_world t0))) disk_error); reflexivity.
  - apply (proj2 (proj2 (addWorkerKey_conflict_and_success reliable_platform
                           (str "K1") [] (initial_world t0)))); reflexivity.
Defined.

(** C7: an unknown key, and K1 after its safety was switched off. *)
Lemma worker_key_safety_default_and_update_witness :
  outcome (getWorkerKeySafetySetting reliable_platform (str "unknown"))
    (world_with_key (num 1)) = Returned true
  /\ outcome (getWorkerKeySafetySetting reliable_platform (str "K1"))
       (world_after
          (updateWorkerKeySafety reliable_platform (str "K1") (JsBoolean false))
          (world_with_key (num 1)))
     = Returned false.
Proof.
  split.
  - apply (proj1 (worker_key_safety_default_and_update reliable_platform
                    (str "unknown") (world_with_key (num 1))
                    (fun _ => eq_refl))); reflexivity.
  - apply (proj2 (worker_key_safety_default_and_update reliable_platform
                    (str "K1") (world_with_key (num 1))
                    (fun _ => eq_refl))); reflexivity.
Defined.

(** C8: the empty store, and stored quotas with one field that is a string. *)
Lemma getCategoryQuotas_field_defaults_witness :
  outcome (getCategoryQuotas reliable_platform) (initial_world t0)
  = Returned (quotas_object (num 50) (num 1500))
  /\ outcome (getCategoryQuotas reliable_platform)
       (world_with_setting (str "category_quotas") pro_only_text)
     = Returned (quotas_object (num 7) (num 1500))
  /\ outcome (getCategoryQuotas reliable_platform)
       (world_with_setting (str "category_quotas") flash_only_text)
     = Returned (quotas_object (num 50) (num 7)).
Proof.
  split; [|split].
  - apply (proj1 (getCategoryQuotas_field_defaults reliable_platform
                    (initial_world t0) eq_refl)); reflexivity.
  - apply (proj1 (proj2 (getCategoryQuotas_field_defaults reliable_platform
                           (world_with_setting (str "category_quotas") pro_only_text)
                           eq_refl)
                    {| settings_key := str "category_quotas";
                       settings_value := JsString pro_only_text |}
                    (quotas_object (num 7) (JsString (str "x")))
                    eq_refl eq_refl) (Number.of_Z 7)); reflexivity.
  - apply (proj2 (proj2 (getCategoryQuotas_field_defaults reliable_platform
                           (world_with_setting (str "category_quotas") flash_only_text)
                           eq_refl)
                    {| settings_key := str "category_quotas";
                       settings_value := JsString flash_only_text |}
                    (quotas_object (JsString (str "x")) (num 7))
                    eq_refl eq_refl) (Number.of_Z 7)); reflexivity.
Defined.

(** C9: [null] and [undefined] quotas under a category outside Pro, Flash
    and Custom. *)
Lemma setModelConfig_null_quotas_pass_validation_witness :
  setModelConfig reliable_platform (str "m") (str "Other") JsNull JsUndefined
    (initial_world t0)
  = (runDb reliable_platform
       (UpsertModelConfig (str "m") (str "Other") JsNull JsNull) ;;;
     syncToGitHub reliable_platform) (initial_world t0)
  /\ outcome (setModelConfig reliable_platform (str "m") (str "Other")
                JsNull JsUndefined) (initial_world t0) = Returned tt.
Proof.
  split; [|reflexivity].
  apply (setModelConfig_null_quotas_pass_validation reliable_platform
           (str "m") (str "Other") JsNull JsUndefined (initial_world t0));
    [left|right]; reflexivity.
Defined.

(** C10: a row whose safety column holds 0, and one whose column holds
    [null]. *)
Lemma worker_key_safety_of_stored_row_witness :
  outcome (getWorkerKeySafetySetting reliable_platform (str "K1"))
    (world_with_key (num 0)) = Returned false
  /\ outcome (getWorkerKeySafetySetting reliable_platform (str "K1"))
       (world_with_key JsNull) = Returned false
  /\ outcome (getWorkerKeySafetySetting reliable_platform (str "K1"))
       (world_with_key (num 1)) = Returned true.
Proof.
  split; [|split].
  - apply (proj2 (worker_key_safety_of_stored_row reliable_platform (str "K1")
                    (world_with_key (num 0))
                    {| api_key := str "K1"; description := [];
                       safety_enabled := num 0; created_at := t0 |}
                    eq_refl eq_refl)); reflexivity.
  - apply (proj2 (worker_key_safety_of_stored_row reliable_platform (str "K1")
                    (world_with_key JsNull)
                    {| api_key := str "K1"; description := [];
                       safety_enabled := JsNull; created_at := t0 |}
                    eq_refl eq_refl)); reflexivity.
  - apply (proj1 (worker_key_safety_of_stored_row reliable_platform (str "K1")
                    (world_with_key (num 1))
                    {| api_key := str "K1"; description := [];
                       safety_enabled := num 1; created_at := t0 |}
                    eq_refl eq_refl)).
Defined.

(** * The further properties at concrete inputs *)

(** X1: a stored text that is not JSON comes back as it is. *)
Lemma getSetting_returns_default_or_raw_text_witness :
  exists v,
    getSetting reliable_platform (str "theme") JsUndefined
      (world_with_setting (str "theme") (str "dark"))
    = (Returned v,
       record_event (Executed (SelectSettingValue (str "theme")))
         (world_with_setting (str "theme") (str "dark")))
    /\ v = JsString (str "dark").
Proof.
  destruct (getSetting_returns_default_or_raw_text reliable_platform
              (str "theme") JsUndefined
              (world_with_setting (str "theme") (str "dark")) eq_refl)
    as [v [H [_ Hraw]]].
  exists v. split; [exact H|].
  apply (Hraw {| settings_key := str "theme";
                 settings_value := JsString (str "dark") |});
    reflexivity.
Defined.

(** X2: with [skipSync], a sync that would fail is never reached. *)
Lemma setSetting_skipSync_never_syncs_witness :
  setSetting (failing_sync_platform disk_error) (str "theme")
    (JsString (str "dark")) true (initial_world t0)
  = (Returned tt,
     {| db := with_setting (str "theme") (JsString (str "dark")) empty_database;
        now := t0;
        trace := [Executed (UpsertSetting (str "theme") (JsString (str "dark")))] |}).
Proof.
  apply (setSetting_skipSync_never_syncs (failing_sync_platform disk_error)
           (str "theme") (JsString (str "dark")) (initial_world t0)).
  reflexivity.
Defined.

(** X3: the Number 1.5 and [undefined]. *)
Lemma setSetting_getSetting_primitives_witness :
  (exists n',
     outcome (getSetting reliable_platform (str "ratio") JsNull)
       (world_after
          (setSetting reliable_platform (str "ratio")
             (JsNumber (Number.Finite 15 (-1))) false)
          (initial_world t0))
     = Returned (JsNumber n')
     /\ Number.equal (Number.Finite 15 (-1)) n' = true)
  /\ outcome (getSetting reliable_platform (str "ratio") JsNull)
       (world_after
          (setSetting reliable_platform (str "ratio") JsUndefined false)
          (initial_world t0))
     = Returned (JsString (str "undefined")).
Proof.
  destruct (setSetting_getSetting_primitives reliable_platform (str "ratio")
              false (initial_world t0) reliable_platform_storage)
    as [Hn [_ [_ [Hu _]]]].
  split; [apply Hn; reflexivity|exact Hu].
Defined.

(** X4: writing the setting b leaves the setting a. *)
Lemma setSetting_leaves_other_keys_witness :
  outcome (getSetting reliable_platform (str "a") JsNull)
    (world_after
       (setSetting reliable_platform (str "b") (JsString (str "x")) false)
       (world_with_setting (str "a") (str "1")))
  = outcome (getSetting reliable_platform (str "a") JsNull)
      (world_with_setting (str "a") (str "1")).
Proof.
  apply (setSetting_leaves_other_keys reliable_platform (str "b") (str "a")
           (JsString (str "x")) false JsNull
           (world_with_setting (str "a") (str "1")) reliable_platform_storage).
  vm_compute. intro H. discriminate H.
Defined.


(** X6: deleting a model from an empty store. *)
Lemma deleteModelConfig_not_found_witness :
  fails_at (deleteModelConfig reliable_platform (str "m")) (initial_world t0)
    (DeleteModelConfig (str "m"))
    (Error (str "Model 'm' not found for deletion.")).
Proof.
  apply (deleteModelConfig_not_found reliable_platform (str "m")
           (initial_world t0)); reflexivity.
Defined.

(** X7: deleting the one stored model. *)
Lemma deleteModelConfig_removes_entry_witness :
  exists config,
    outcome (getModelsConfig reliable_platform)
      (world_after (deleteModelConfig reliable_platform (str "m"))
         (world_with_model (str "m")))
    = Returned config
    /\ own_property config (str "m") = None.
Proof.
  destruct (deleteModelConfig_removes_entry reliable_platform (str "m")
              (world_with_model (str "m")) reliable_platform_storage eq_refl)
    as [before [config [_ [H1 [H2 _]]]]].
  exists config. split; [exact H1|exact H2].
Defined.

(** X10: the string 'false' is truthy. *)
Lemma updateWorkerKeySafety_stores_truthiness_witness :
  outcome (getWorkerKeySafetySetting reliable_platform (str "K1"))
    (world_after
       (updateWorkerKeySafety reliable_platform (str "K1")
          (JsString (str "false")))
       (world_with_key (num 0)))
  = Returned true.
Proof.
  apply (updateWorkerKeySafety_stores_truthiness reliable_platform (str "K1")
           (JsString (str "false")) (world_with_key (num 0))
           reliable_platform_storage).
  reflexivity.
Defined.

(** X11: a key of an empty store. *)
Lemma worker_key_not_found_witness :
  fails_at
    (updateWorkerKeySafety reliable_platform (str "K1") (JsBoolean true))
    (initial_world t0) (UpdateWorkerKeySafety (num 1) (str "K1"))
    (Error (str "Worker key 'K1' not found for updating safety settings."))
  /\ fails_at (deleteWorkerKey reliable_platform (str "K1")) (initial_world t0)
       (DeleteWorkerKey (str "K1"))
       (Error (str "Worker key 'K1' not found for deletion.")).
Proof.
  apply (worker_key_not_found reliable_platform (str "K1") (JsBoolean true)
           (initial_world t0) reliable_platform_storage).
  reflexivity.
Defined.

(** X12: K1 deleted, then added again. *)
Lemma deleteWorkerKey_then_absent_witness :
  has_row api_key (str "K1")
    (worker_keys
       (db (world_after (deleteWorkerKey reliable_platform (str "K1"))
              (world_with_key (num 0))))) = false
  /\ outcome (getWorkerKeySafetySetting reliable_platform (str "K1"))
       (world_after (deleteWorkerKey reliable_platform (str "K1"))
          (world_with_key (num 0)))
     = Returned true
  /\ outcome (addWorkerKey reliable_platform (str "K1") (str "again"))
       (world_after (deleteWorkerKey reliable_platform (str "K1"))
          (world_with_key (num 0)))
     = Returned tt.
Proof.
  destruct (deleteWorkerKey_then_absent reliable_platform (str "K1")
              (str "again") (world_with_key (num 0))
              reliable_platform_storage eq_refl)
    as [H1 [H2 H3]].
  split; [exact H1|]. split; [exact H2|]. apply H3. intro w'. reflexivity.
Defined.

(** X13: a sync that fails with a constraint error of its own. *)
Lemma addWorkerKey_sync_failure_witness :
  outcome (addWorkerKey (failing_sync_platform SQLITE_CONSTRAINT) (str "K1") [])
    (initial_world t0)
  = Thrown (Conflict (str "K1"))
  /\ row_of api_key (str "K1")
       (worker_keys
          (db (world_after
                 (addWorkerKey (failing_sync_platform SQLITE_CONSTRAINT)
                    (str "K1") [])
                 (initial_world t0))))
     = Some (new_worker_key (str "K1") [] t0).
Proof.
  apply (addWorkerKey_sync_failure (failing_sync_platform SQLITE_CONSTRAINT)
           (str "K1") [] (initial_world t0) SQLITE_CONSTRAINT);
    reflexivity.
Defined.

(** X14: a failing sync after the write of a setting. *)
Lemma setSetting_sync_failure_keeps_write_witness :
  outcome (setSetting (failing_sync_platform disk_error) (str "theme")
             (JsString (str "dark")) false) (initial_world t0)
  = Thrown disk_error
  /\ row_of settings_key (str "theme")
       (settings
          (db (world_after
                 (setSetting (failing_sync_platform disk_error) (str "theme")
                    (JsString (str "dark")) false)
                 (initial_world t0))))
     = Some {| settings_key := str "theme";
               settings_value := JsString (str "dark") |}.
Proof.
  apply (setSetting_sync_failure_keeps_write (failing_sync_platform disk_error)
           (str "theme") (JsString (str "dark")) (initial_world t0) disk_error);
    [reflexivity|].
  intro w'. reflexivity.
Defined.

(** X15: the listing of a store with the one key K1. *)
Lemma getAllWorkerKeys_lists_every_row_witness :
  exists items,
    getAllWorkerKeys reliable_platform (world_with_key (num 1))
    = (Returned (JsArray items),
       record_event (Executed SelectWorkerKeys) (world_with_key (num 1)))
    /\ Permutation items
         (map worker_key_entry (worker_keys (db (world_with_key (num 1))))).
Proof.
  apply (getAllWorkerKeys_lists_every_row reliable_platform
           (world_with_key (num 1))).
  reflexivity.
Defined.

(** X16: K1 with safety disabled. *)
Lemma listed_safety_agrees_with_setting_witness :
  exists items safe,
    outcome (getAllWorkerKeys reliable_platform) (world_with_key (num 0))
    = Returned (JsArray items)
    /\ outcome (getWorkerKeySafetySetting reliable_platform (str "K1"))
         (world_with_key (num 0))
       = Returned safe
    /\ In (JsObject [(str "key", JsString (str "K1"));
                     (str "description", JsString []);
                     (str "safetyEnabled", JsBoolean safe);
                     (str "createdAt", JsString t0)]) items.
Proof.
  apply (listed_safety_agrees_with_setting reliable_platform
           (world_with_key (num 0))
           {| api_key := str "K1"; description := [];
              safety_enabled := num 0; created_at := t0 |}
           reliable_platform_storage).
  - simpl. constructor; [intros []|constructor].
  - simpl. left. reflexivity.
Defined.

(** X17: K2 added beside K1. *)
Lemma addWorkerKey_then_listed_witness :
  outcome (getWorkerKeySafetySetting reliable_platform (str "K2"))
    (world_after (addWorkerKey reliable_platform (str "K2") (str "second"))
       (world_with_key (num 0)))
  = Returned true
  /\ exists items,
       outcome (getAllWorkerKeys reliable_platform)
         (world_after (addWorkerKey reliable_platform (str "K2") (str "second"))
            (world_with_key (num 0)))
       = Returned (JsArray items)
       /\ In (JsObject [(str "key", JsString (str "K2"));
                        (str "description", JsString (str "second"));
                        (str "safetyEnabled", JsBoolean true);
                        (str "createdAt", JsString t0)]) items.
Proof.
  apply (addWorkerKey_then_listed reliable_platform (str "K2") (str "second")
           (world_with_key (num 0)) reliable_platform_storage).
  reflexivity.
Defined.

(** X18: operations on K2 beside the stored key K1. *)
Lemma worker_key_operations_leave_other_keys_witness :
  outcome (getWorkerKeySafetySetting reliable_platform (str "K1"))
    (world_after (addWorkerKey reliable_platform (str "K2") [])
       (world_with_key (num 0)))
  = Returned false
  /\ outcome (getWorkerKeySafetySetting reliable_platform (str "K1"))
       (world_after (deleteWorkerKey reliable_platform (str "K2"))
          (world_with_key (num 0)))
     = Returned false.
Proof.
  destruct (worker_key_operations_leave_other_keys reliable_platform
              (str "K2") (str "K1") [] JsNull (world_with_key (num 0))
              reliable_platform_storage)
    as [H1 [_ H3]].
  - vm_compute. intro H. discriminate H.
  - split; [exact H1|exact H3].
Defined.

(** X19: a repository and a token, the other two arguments omitted. *)
Lemma setGitHubConfig_getGitHubConfig_witness :
  outcome (getGitHubConfig reliable_platform) (initial_world t0)
  = Returned default_github_config
  /\ exists read,
       outcome (getGitHubConfig reliable_platform)
         (world_after
            (setGitHubConfig reliable_platform (JsString (str "owner/repo"))
               (JsString (str "token")) JsUndefined JsUndefined)
            (initial_world t0))
       = Returned read
       /\ deep_equal
            (github_config (JsString (str "owner/repo")) (JsString (str "token"))
               (JsString (str "./database.db")) JsNull)
            read = true.
Proof.
  destruct (setGitHubConfig_getGitHubConfig reliable_platform
              (JsString (str "owner/repo")) (JsString (str "token"))
              JsUndefined JsUndefined (initial_world t0)
              reliable_platform_storage)
    as [Hdefault Hset].
  split; [apply Hdefault; reflexivity|apply Hset; reflexivity].
Defined.

(** X20: the quotas 7.5 and 10. *)
Lemma setCategoryQuotas_getCategoryQuotas_witness :
  exists p f,
    outcome (getCategoryQuotas reliable_platform)
      (world_after
         (setCategoryQuotas reliable_platform
            (JsNumber (Number.Finite 75 (-1))) (JsNumber (Number.Finite 10 0)))
         (initial_world t0))
    = Returned (quotas_object (JsNumber p) (JsNumber f))
    /\ Number.equal (Number.of_Z 7) p = true
    /\ Number.equal (Number.of_Z 10) f = true.
Proof.
  apply (setCategoryQuotas_getCategoryQuotas reliable_platform 75 (-1) 10 0
           (initial_world t0) reliable_platform_storage); lia.
Defined.

(** X21: a stored flash quota that is a string. *)
Lemma getCategoryQuotas_returns_numbers_witness :
  exists p f,
    getCategoryQuotas reliable_platform
      (world_with_setting (str "category_quotas") pro_only_text)
    = (Returned (quotas_object (JsNumber p) (JsNumber f)),
       record_event (Executed (SelectSettingValue (str "category_quotas")))
         (world_with_setting (str "category_quotas") pro_only_text)).
Proof.
  apply (getCategoryQuotas_returns_numbers reliable_platform
           (world_with_setting (str "category_quotas") pro_only_text)).
  reflexivity.
Defined.

(** X24: a driver that fails every statement with a disk error. *)
Lemma storage_failure_is_propagated_witness :
  fails_at (getSetting (failing_storage_platform disk_error) (str "theme") JsNull)
    (initial_world t0) (SelectSettingValue (str "theme")) disk_error
  /\ fails_at (deleteWorkerKey (failing_storage_platform disk_error) (str "K1"))
       (initial_world t0) (DeleteWorkerKey (str "K1")) disk_error.
Proof.
  destruct (storage_failure_is_propagated (failing_storage_platform disk_error)
              disk_error (str "theme") JsNull JsNull false (str "m") (str "K1")
              JsNull (initial_world t0) (fun s => eq_refl))
    as [H1 [_ [_ [_ [_ [_ [_ [_ [H9 _]]]]]]]]].
  split; [exact H1|exact H9].
Defined.
